(** * Functional coverage engine of cocotb-coverage

    A shallow embedding of [cocotb_coverage/coverage.py]: the global
    registry [coverage_db], the base class [CoverItem] and the three
    coverage primitives [CoverPoint], [CoverCross] and [CoverCheck],
    followed by the properties of the specification that were checked
    against it.

    Conventions of the embedding.
    - Python objects registered in [coverage_db] are identified by their
      name (the registry never rebinds or removes a key), so a reference to
      an object ([_parent], [_children], the handle returned by a
      constructor) is the registry key of that object.
    - Python integers are [Z].  Bin descriptors and sampled values are
      [pyval]s compared with Python's [==].
    - The floats of the engine are the quotients [100 * coverage / size]:
      a double is the rational number it stands for, the exact quotient
      rounded as Python's [/] rounds it.
    - A callback is an opaque identifier; calling it appends the identifier
      to the [fired] log of the state.
    - Every operation is a computation in a state-and-exception monad; the
      state reached when an exception is raised is kept, as in Python.
    - The decorator plumbing that extracts the sampled value from the
      arguments of the decorated function ([xf], [vname], the bound-method
      detection) is outside the engine: a sampling event receives the
      already extracted value. *)

From Stdlib Require Import ZArith QArith String Ascii List Lia.
From stdpp Require Import gmap strings list fin_maps.

Open Scope string_scope.
Open Scope list_scope.
Open Scope Z_scope.

(** ** Python values used as bins and as sampled values *)

#[warnings="-register-all"]
Inductive pyval : Type :=
| PNone
| PBool (b : bool)
| PInt (z : Z)
| PStr (s : string)
| PTuple (l : list pyval).

(** Python's [==] on these values; [bool] is a subclass of [int], so
    [True == 1] and [False == 0]. *)
Fixpoint py_eqb (a b : pyval) {struct a} : bool :=
  match a, b with
  | PNone, PNone => true
  | PBool x, PBool y => Bool.eqb x y
  | PBool x, PInt y => Z.eqb (Z.b2z x) y
  | PInt x, PBool y => Z.eqb x (Z.b2z y)
  | PInt x, PInt y => Z.eqb x y
  | PStr x, PStr y => String.eqb x y
  | PTuple xs, PTuple ys =>
      (fix go (xs ys : list pyval) {struct xs} : bool :=
         match xs, ys with
         | [], [] => true
         | x :: xs', y :: ys' => py_eqb x y && go xs' ys'
         | _, _ => false
         end) xs ys
  | _, _ => false
  end.

Definition is_None (v : pyval) : bool :=
  match v with PNone => true | _ => false end.

(** ** Insertion-ordered dictionaries

    [dict], [OrderedDict] and the callback tables are association lists in
    insertion order, looked up with the key equality [eqb]. *)

Section Dict.
Context {K V : Type} (eqb : K -> K -> bool).

Fixpoint dget (d : list (K * V)) (k : K) : option V :=
  match d with
  | [] => None
  | (k', v) :: d' => if eqb k' k then Some v else dget d' k
  end.

Definition dmem (d : list (K * V)) (k : K) : bool :=
  match dget d k with Some _ => true | None => false end.

(** [d[k] = v]: an existing key keeps its place (and its key object). *)
Fixpoint dset (d : list (K * V)) (k : K) (v : V) : list (K * V) :=
  match d with
  | [] => [(k, v)]
  | (k', v') :: d' =>
      if eqb k' k then (k', v) :: d' else (k', v') :: dset d' k v
  end.

(** [del d[k]] for a key that is present. *)
Fixpoint ddel (d : list (K * V)) (k : K) : list (K * V) :=
  match d with
  | [] => []
  | (k', v') :: d' => if eqb k' k then d' else (k', v') :: ddel d' k
  end.

Definition dkeys (d : list (K * V)) : list K := map fst d.

(** [dict.fromkeys(ks, v)] *)
Definition fromkeys (ks : list K) (v : V) : list (K * V) :=
  fold_left (fun d k => dset d k v) ks [].
End Dict.

Abbreviation hits_dict := (list (pyval * Z)).

(** [d[k] += 1] for a key that is present *)
Fixpoint dincr (d : hits_dict) (k : pyval) : hits_dict :=
  match d with
  | [] => []
  | (k', v) :: d' => if py_eqb k' k then (k', v + 1) :: d' else (k', v) :: dincr d' k
  end.

(** ** Names *)

Definition dot : ascii := "."%char.

(** [s.split(".")] *)
Fixpoint split_dot (s : string) : list string :=
  match s with
  | EmptyString => [EmptyString]
  | String a s' =>
      if Ascii.eqb a dot then EmptyString :: split_dot s'
      else match split_dot s' with
           | [] => [String a EmptyString]
           | seg :: segs => String a seg :: segs
           end
  end.

(** [".".join(l)] *)
Fixpoint join_dot (l : list string) : string :=
  match l with
  | [] => EmptyString
  | [x] => x
  | x :: rest => (x ++ String dot (join_dot rest))%string
  end.

(** ["." in s] *)
Fixpoint contains_dot (s : string) : bool :=
  match s with
  | EmptyString => false
  | String a s' => Ascii.eqb a dot || contains_dot s'
  end.

(** [".".join(name.split(".")[:-1])] *)
Definition parent_name (name : string) : string :=
  join_dot (removelast (split_dot name)).

(** ** Objects *)

Definition callback := nat.

Inductive leaf_class := PointC | CrossC | CheckC.

(** The part of an object that depends on its class.  [Partial c] is an
    instance of the primitive [c] on which only [CoverItem.__init__] has
    run (its constructor raised before setting the attributes of the
    subclass, of which [_hits] is the one the methods read first). *)
Inductive body : Type :=
| Item
| Partial (c : leaf_class)
| Point (relation : pyval -> pyval -> bool) (weight at_least : Z)
        (injection : bool) (hits : hits_dict)
| Cross (weight at_least : Z) (items : list string) (hits : hits_dict)
| Check (weight at_least : Z) (f_pass : option (pyval -> bool))
        (f_fail : pyval -> bool) (hits : hits_dict).

Record node : Type := mkNode {
  _name : string;
  _size : Z;
  _coverage : Z;
  _parent : option string;
  _children : list string;
  _new_hits : list pyval;
  _threshold_callbacks : list (Z * callback);
  _bins_callbacks : list (pyval * callback);
  _body : body
}.

Definition set_size (f : Z -> Z) (n : node) : node :=
  mkNode (_name n) (f (_size n)) (_coverage n) (_parent n) (_children n)
         (_new_hits n) (_threshold_callbacks n) (_bins_callbacks n) (_body n).
Definition set_coverage (f : Z -> Z) (n : node) : node :=
  mkNode (_name n) (_size n) (f (_coverage n)) (_parent n) (_children n)
         (_new_hits n) (_threshold_callbacks n) (_bins_callbacks n) (_body n).
Definition set_children (f : list string -> list string) (n : node) : node :=
  mkNode (_name n) (_size n) (_coverage n) (_parent n) (f (_children n))
         (_new_hits n) (_threshold_callbacks n) (_bins_callbacks n) (_body n).
Definition set_new_hits (l : list pyval) (n : node) : node :=
  mkNode (_name n) (_size n) (_coverage n) (_parent n) (_children n)
         l (_threshold_callbacks n) (_bins_callbacks n) (_body n).
Definition set_threshold_callbacks (l : list (Z * callback)) (n : node) : node :=
  mkNode (_name n) (_size n) (_coverage n) (_parent n) (_children n)
         (_new_hits n) l (_bins_callbacks n) (_body n).
Definition set_bins_callbacks (l : list (pyval * callback)) (n : node) : node :=
  mkNode (_name n) (_size n) (_coverage n) (_parent n) (_children n)
         (_new_hits n) (_threshold_callbacks n) l (_body n).
Definition set_body (b : body) (n : node) : node :=
  mkNode (_name n) (_size n) (_coverage n) (_parent n) (_children n)
         (_new_hits n) (_threshold_callbacks n) (_bins_callbacks n) b.

(** ** State and exceptions *)

Record state : Type := mkState {
  coverage_db : gmap string node;
  fired : list callback
}.

Definition empty_state : state := mkState ∅ [].

Inductive exn :=
| MissingParent        (* the Exception raised by the primitives' constructors *)
| KeyError
| AttributeError
| IndexError
| TypeError
| ZeroDivisionError
| OverflowError
| FuelExhausted.       (* not a Python exception: the walk bound of the model ran out *)

Inductive outcome (A : Type) :=
| Ret (a : A)
| Raise (e : exn).
Arguments Ret {A} a.
Arguments Raise {A} e.

Definition M (A : Type) : Type := state -> outcome A * state.

Definition ret {A} (a : A) : M A := fun s => (Ret a, s).
Definition raise {A} (e : exn) : M A := fun s => (Raise e, s).
Definition bind {A B} (m : M A) (k : A -> M B) : M B :=
  fun s => match m s with
           | (Ret a, s') => k a s'
           | (Raise e, s') => (Raise e, s')
           end.

Declare Scope py_scope.
Delimit Scope py_scope with py.
Notation "x <- m ;; k" := (bind m (fun x => k))
  (at level 100, m at next level, right associativity) : py_scope.
Notation "m ;; k" := (bind m (fun _ => k))
  (at level 100, right associativity) : py_scope.
Open Scope py_scope.

Definition get_db : M (gmap string node) := fun s => (Ret (coverage_db s), s).
Definition put_db (db : gmap string node) : M unit :=
  fun s => (Ret tt, mkState db (fired s)).
(** calling a callback *)
Definition call (cb : callback) : M unit :=
  fun s => (Ret tt, mkState (coverage_db s) (fired s ++ [cb])).
Definition lift {A} (o : outcome A) : M A := fun s => (o, s).

(** [coverage_db[name]] *)
Definition lookup_node (name : string) : M node :=
  db <- get_db ;;
  match db !! name with
  | Some n => ret n
  | None => raise KeyError
  end.

(** in-place update of the object registered as [name] *)
Definition modify_node (name : string) (f : node -> node) : M unit :=
  db <- get_db ;;
  match db !! name with
  | Some n => put_db (<[name := f n]> db)
  | None => raise KeyError
  end.

(** ** CoverItem *)

Definition fresh_node (name : string) (parent : option string) (b : body) : node :=
  mkNode name 0 0 parent [] [] [] [] b.

(** [CoverItem.__init__(self, name)], where [b] tells the class of [self].
    The recursion creates the missing ancestors; [fuel] bounds it. *)
Fixpoint CoverItem_init (fuel : nat) (b : body) (name : string) : M unit :=
  if contains_dot name then
    let parent := parent_name name in
    db <- get_db ;;
    match db !! parent with
    | Some _ => ret tt
    | None =>
        match fuel with
        | O => raise FuelExhausted
        | S fuel' => CoverItem_init fuel' Item parent
        end
    end ;;
    modify_node parent (set_children (fun c => c ++ [name])) ;;
    db' <- get_db ;;
    put_db (<[name := fresh_node name (Some parent) b]> db')
  else
    db <- get_db ;;
    put_db (<[name := fresh_node name None b]> db).

(** [CoverItem._update_size(self, size)] *)
Fixpoint _update_size (fuel : nat) (self : string) (size : Z) : M unit :=
  modify_node self (set_size (fun s => s + size)) ;;
  n <- lookup_node self ;;
  match _parent n with
  | Some p =>
      match fuel with
      | O => raise FuelExhausted
      | S fuel' => _update_size fuel' p size
      end
  | None => ret tt
  end.

(** The loop of the [coverage] property of [CoverPoint] and [CoverCross]. *)
Definition weighted_coverage (size weight at_least : Z) (hits : hits_dict) : Z :=
  fold_left (fun coverage kv =>
               if snd kv <? at_least then coverage - weight else coverage)
            hits size.

Definition PASS : pyval := PStr "PASS".
Definition FAIL : pyval := PStr "FAIL".

(** [self["k"]] on a hits dictionary *)
Definition hits_at (hits : hits_dict) (k : pyval) : outcome Z :=
  match dget py_eqb hits k with
  | Some v => Ret v
  | None => Raise KeyError
  end.

(** The [coverage] property, dispatched on the class of the object. *)
Definition coverage (n : node) : outcome Z :=
  match _body n with
  | Item => Ret (_coverage n)
  | Partial _ => Raise AttributeError
  | Point _ weight at_least _ hits
  | Cross weight at_least _ hits =>
      Ret (weighted_coverage (_size n) weight at_least hits)
  | Check weight at_least _ _ hits =>
      match hits_at hits FAIL with
      | Raise e => Raise e
      | Ret f =>
          if f =? 0 then
            match hits_at hits PASS with
            | Raise e => Raise e
            | Ret p => Ret (if p >? at_least then weight else 0)
            end
          else Ret 0
      end
  end.

(** The [size] property. *)
Definition size (n : node) : Z := _size n.

(** ** True division

    [a / b] on two [int]s is the double nearest to the exact quotient, a
    tie going to the even mantissa; it raises [ZeroDivisionError] when [b]
    is 0 and [OverflowError] when that double is not finite.  A double is
    kept as the rational number it stands for. *)

(** [n / d] rounded to the nearest integer, a tie to the even one, for
    [0 <= n] and [0 < d]. *)
Definition round_half_even (n d : Z) : Z :=
  let q := n / d in
  match 2 * (n mod d) ?= d with
  | Lt => q
  | Gt => q + 1
  | Eq => if Z.even q then q else q + 1
  end.

(** [2 ^ k] when [0 <= k], and 1 otherwise. *)
Definition pow2 (k : Z) : Z := 2 ^ Z.max 0 k.

(** The binade of [n / d] for [0 < n] and [0 < d]: the [E] with
    [2 ^ E <= n / d < 2 ^ (E + 1)]. *)
Definition binade (n d : Z) : Z :=
  let g := Z.log2 n - Z.log2 d in
  if n * pow2 (- g) <? d * pow2 g then g - 1 else g.

(** A double has 53 significant bits and no bit below [2 ^ -1074]: the
    quotient is rounded to [m * 2 ^ e], with [e] the weight of the last
    of its 53 bits, and at least [-1074]. *)
Definition true_div (a b : Z) : outcome Q :=
  if b =? 0 then Raise ZeroDivisionError
  else if a =? 0 then Ret (inject_Z 0)
  else
    let n := Z.abs a in
    let d := Z.abs b in
    let e := Z.max (binade n d - 52) (-1074) in
    let m := round_half_even (n * pow2 (- e)) (d * pow2 e) in
    let num := m * pow2 e in
    let den := pow2 (- e) in
    if 2 ^ 1024 * den <=? num then Raise OverflowError
    else Ret (Qmake (Z.sgn a * Z.sgn b * num) (Z.to_pos den)).

(** [a / b] returns the double that stands for [q]. *)
Definition quotient_is (a b : Z) (q : Q) : Prop :=
  exists r, true_div a b = Ret r /\ Qeq r q.

Definition Qlt_bool (x y : Q) : bool := negb (Qle_bool y x).

(** The [cover_percentage] property: [100 * self.coverage / self.size]. *)
Definition cover_percentage (n : node) : outcome Q :=
  match coverage n with
  | Raise e => Raise e
  | Ret c => true_div (100 * c) (size n)
  end.

(** The [detailed_coverage] property.  For a plain [CoverItem] the loop
    body is [coverage.append(...)] on a [dict]: the attribute lookup raises
    before the argument is evaluated. *)
Definition detailed_coverage (n : node) : outcome hits_dict :=
  match _body n with
  | Item =>
      fold_left (fun acc (child : string) =>
                   match acc with
                   | Raise e => Raise e
                   | Ret _ => Raise AttributeError
                   end)
                (_children n) (Ret [])
  | Partial _ => Raise AttributeError
  | Point _ _ _ _ hits | Cross _ _ _ hits | Check _ _ _ _ hits => Ret hits
  end.

(** The loop over [self._threshold_callbacks]: the callback registered at
    [ii] is called when [ii > 100 * current_coverage / size] and
    [ii <= now], where [now] is the percentage after the update (its
    evaluation may raise, and is reached only when the first test holds). *)
Fixpoint notify_thresholds (cbs : list (Z * callback))
    (current_coverage size : Z) (now : outcome Q) : M unit :=
  match cbs with
  | [] => ret tt
  | (ii, cb) :: rest =>
      before <- lift (true_div (100 * current_coverage) size) ;;
      (if Qlt_bool before (inject_Z ii) then
         after <- lift now ;;
         if Qle_bool (inject_Z ii) after then call cb else ret tt
       else ret tt) ;;
      notify_thresholds rest current_coverage size now
  end.

(** [CoverItem._update_coverage(self, coverage)] *)
Fixpoint _update_coverage (fuel : nat) (self : string) (delta : Z) : M unit :=
  n <- lookup_node self ;;
  let current_coverage := _coverage n in
  modify_node self (set_coverage (fun c => c + delta)) ;;
  match _parent n with
  | Some p =>
      match fuel with
      | O => raise FuelExhausted
      | S fuel' => _update_coverage fuel' p delta
      end
  | None => ret tt
  end ;;
  n' <- lookup_node self ;;
  notify_thresholds (_threshold_callbacks n') current_coverage (size n')
                    (cover_percentage n').

(** [self._parent._update_coverage(delta)] as called by the primitives. *)
Definition parent_update_coverage (self : node) (delta : Z) : M unit :=
  match _parent self with
  | Some p => _update_coverage (String.length p) p delta
  | None => raise AttributeError
  end.

(** [self._parent._update_size(size)] as called by the constructors. *)
Definition parent_update_size (self : node) (size : Z) : M unit :=
  match _parent self with
  | Some p => _update_size (String.length p) p size
  | None => raise AttributeError
  end.

(** [add_threshold_callback] and [add_bins_callback] *)
Definition add_threshold_callback (name : string) (cb : callback) (threshold : Z) : M unit :=
  n <- lookup_node name ;;
  modify_node name
    (set_threshold_callbacks (dset Z.eqb (_threshold_callbacks n) threshold cb)).

Definition add_bins_callback (name : string) (cb : callback) (bins : pyval) : M unit :=
  n <- lookup_node name ;;
  modify_node name
    (set_bins_callbacks (dset py_eqb (_bins_callbacks n) bins cb)).

Fixpoint call_all (cbs : list callback) : M unit :=
  match cbs with
  | [] => ret tt
  | cb :: rest => call cb ;; call_all rest
  end.

(** ** CoverPoint *)

(** [CoverPoint.__init__].  The guard [if not name in coverage_db] makes
    the call a no-op on an object returned by [__new__] from the registry. *)
Definition CoverPoint_init (name : string) (rel : option (pyval -> pyval -> bool))
    (bins : list pyval) (weight at_least : Z) (inj : bool) : M unit :=
  db <- get_db ;;
  match db !! name with
  | Some _ => ret tt
  | None =>
      CoverItem_init (String.length name) (Partial PointC) name ;;
      self <- lookup_node name ;;
      match _parent self with
      | None => raise MissingParent
      | Some _ =>
          let relation := match rel with Some r => r | None => py_eqb end in
          let '(sz, hits) :=
            if negb (Nat.eqb (length bins) 0)
            then (weight * Z.of_nat (length bins), fromkeys py_eqb bins 0)
            else (weight, fromkeys py_eqb [PBool true] 0) in
          modify_node name
            (fun n => set_body (Point relation weight at_least inj hits)
                               (set_size (fun _ => sz) n)) ;;
          parent_update_size self sz ;;
          modify_node name (set_new_hits [])
      end
  end.

(** [CoverPoint(name, ...)]: [__new__] followed by [__init__]; the value is
    the object, that is its registry key. *)
Definition CoverPoint (name : string) (rel : option (pyval -> pyval -> bool))
    (bins : list pyval) (weight at_least : Z) (inj : bool) : M string :=
  db <- get_db ;;
  match db !! name with
  | Some _ => ret name
  | None => CoverPoint_init name rel bins weight at_least inj ;; ret name
  end.

(** The loop over the bins of a sampling event: the hit counts, the bins
    hit and the bin callbacks called, in order. *)
Fixpoint match_bins (relation : pyval -> pyval -> bool) (injection : bool)
    (bins_callbacks : list (pyval * callback)) (result : pyval)
    (keys : list pyval) (hits : hits_dict) (new_hits : list pyval)
    (calls : list callback) : hits_dict * list pyval * list callback :=
  match keys with
  | [] => (hits, new_hits, calls)
  | bins :: rest =>
      if relation result bins then
        let hits' := dincr hits bins in
        let new_hits' := new_hits ++ [bins] in
        let calls' := match dget py_eqb bins_callbacks bins with
                      | Some cb => calls ++ [cb]
                      | None => calls
                      end in
        if negb injection then (hits', new_hits', calls')
        else match_bins relation injection bins_callbacks result rest
                        hits' new_hits' calls'
      else match_bins relation injection bins_callbacks result rest
                      hits new_hits calls
  end.

(** The sampling event of a [CoverPoint] ([_wrapped_function], from
    [current_coverage = self.coverage] on) for the extracted value
    [result]. *)
Definition CoverPoint_sample (name : string) (result : pyval) : M unit :=
  self <- lookup_node name ;;
  match _body self with
  | Point relation weight at_least injection hits =>
      current_coverage <- lift (coverage self) ;;
      let '(hits', new_hits, calls) :=
        match_bins relation injection (_bins_callbacks self) result
                   (dkeys hits) hits [] [] in
      modify_node name
        (fun n => set_body (Point relation weight at_least injection hits')
                           (set_new_hits new_hits n)) ;;
      call_all calls ;;
      self' <- lookup_node name ;;
      now <- lift (coverage self') ;;
      parent_update_coverage self' (now - current_coverage) ;;
      notify_thresholds (_threshold_callbacks self') current_coverage
                        (size self') (true_div (100 * now) (size self'))
  | _ => raise AttributeError
  end.

(** ** CoverCross *)

(** [itertools.product] of the lists in [ls] *)
Fixpoint product (ls : list (list pyval)) : list (list pyval) :=
  match ls with
  | [] => [[]]
  | l :: rest => flat_map (fun x => map (cons x) (product rest)) l
  end.

(** The innermost loop of the ignore filter: [ii] ranges over the
    positions of [x_bins]; [ignore_bins[ii]] raises when the pattern is
    shorter than the cross-bin. *)
Fixpoint scan_pattern (ignore_bins x_bins : list pyval) (remove : bool)
    {struct x_bins} : outcome bool :=
  match x_bins with
  | [] => Ret remove
  | x :: x_rest =>
      match ignore_bins with
      | [] => Raise IndexError
      | i :: i_rest =>
          scan_pattern i_rest x_rest
            (if negb (is_None i)
             then (if negb (py_eqb i x) then false else remove)
             else remove)
      end
  end.

(** The loop over [ign_bins] for one cross-bin [x_bins]; the dictionary
    reached is returned also when an exception stops the loop. *)
Fixpoint ignore_one (ign_bins : list (list pyval)) (x_bins : pyval)
    (hits : hits_dict) : hits_dict * option exn :=
  match ign_bins with
  | [] => (hits, None)
  | ignore_bins :: rest =>
      match x_bins with
      | PTuple xs =>
          match scan_pattern ignore_bins xs true with
          | Raise e => (hits, Some e)
          | Ret remove =>
              ignore_one rest x_bins
                (if remove && dmem py_eqb hits x_bins
                 then ddel py_eqb hits x_bins else hits)
          end
      | _ => (hits, Some TypeError)
      end
  end.

(** The loop over [list(self._hits.keys())]. *)
Fixpoint ignore_loop (ign_bins : list (list pyval)) (keys : list pyval)
    (hits : hits_dict) : hits_dict * option exn :=
  match keys with
  | [] => (hits, None)
  | x_bins :: rest =>
      match ignore_one ign_bins x_bins hits with
      | (hits', None) => ignore_loop ign_bins rest hits'
      | stopped => stopped
      end
  end.

(** The loop that collects [coverage_db[cp].detailed_coverage.keys()]. *)
Fixpoint bins_lists (db : gmap string node) (items : list string)
    : outcome (list (list pyval)) :=
  match items with
  | [] => Ret []
  | cp_name :: rest =>
      match db !! cp_name with
      | None => Raise KeyError
      | Some cp =>
          match detailed_coverage cp with
          | Raise e => Raise e
          | Ret d =>
              match bins_lists db rest with
              | Raise e => Raise e
              | Ret ls => Ret (dkeys d :: ls)
              end
          end
      end
  end.

(** [CoverCross.__init__] *)
Definition CoverCross_init (name : string) (items : list string)
    (ign_bins : list (list pyval)) (weight at_least : Z) : M unit :=
  db <- get_db ;;
  match db !! name with
  | Some _ => ret tt
  | None =>
      CoverItem_init (String.length name) (Partial CrossC) name ;;
      self <- lookup_node name ;;
      match _parent self with
      | None => raise MissingParent
      | Some _ =>
          db' <- get_db ;;
          ls <- lift (bins_lists db' items) ;;
          let hits := fromkeys py_eqb (map PTuple (product ls)) 0 in
          let '(hits', stopped) := ignore_loop ign_bins (dkeys hits) hits in
          modify_node name (set_body (Cross weight at_least items hits')) ;;
          match stopped with
          | Some e => raise e
          | None =>
              let sz := weight * Z.of_nat (length hits') in
              modify_node name (set_size (fun _ => sz)) ;;
              parent_update_size self sz
          end
      end
  end.

Definition CoverCross (name : string) (items : list string)
    (ign_bins : list (list pyval)) (weight at_least : Z) : M string :=
  db <- get_db ;;
  match db !! name with
  | Some _ => ret name
  | None => CoverCross_init name items ign_bins weight at_least ;; ret name
  end.

(** The loop that collects [coverage_db[cp]._new_hits]. *)
Fixpoint hit_lists (db : gmap string node) (items : list string)
    : outcome (list (list pyval)) :=
  match items with
  | [] => Ret []
  | cp_name :: rest =>
      match db !! cp_name with
      | None => Raise KeyError
      | Some cp =>
          match hit_lists db rest with
          | Raise e => Raise e
          | Ret ls => Ret (_new_hits cp :: ls)
          end
      end
  end.

(** The loop over the cross-bins hit by a sampling event. *)
Fixpoint match_cross (bins_callbacks : list (pyval * callback))
    (x_hits : list pyval) (hits : hits_dict) (calls : list callback)
    : hits_dict * list callback :=
  match x_hits with
  | [] => (hits, calls)
  | x_bins_hit :: rest =>
      if dmem py_eqb hits x_bins_hit then
        match_cross bins_callbacks rest (dincr hits x_bins_hit)
          (match dget py_eqb bins_callbacks x_bins_hit with
           | Some cb => calls ++ [cb]
           | None => calls
           end)
      else match_cross bins_callbacks rest hits calls
  end.

(** The sampling event of a [CoverCross]. *)
Definition CoverCross_sample (name : string) : M unit :=
  self <- lookup_node name ;;
  match _body self with
  | Cross weight at_least items hits =>
      current_coverage <- lift (coverage self) ;;
      db <- get_db ;;
      ls <- lift (hit_lists db items) ;;
      let '(hits', calls) :=
        match_cross (_bins_callbacks self) (map PTuple (product ls)) hits [] in
      modify_node name (set_body (Cross weight at_least items hits')) ;;
      call_all calls ;;
      self' <- lookup_node name ;;
      now <- lift (coverage self') ;;
      parent_update_coverage self' (now - current_coverage) ;;
      notify_thresholds (_threshold_callbacks self') current_coverage
                        (size self') (true_div (100 * now) (size self'))
  | _ => raise AttributeError
  end.

(** ** CoverCheck *)

(** [CoverCheck.__init__] *)
Definition CoverCheck_init (name : string) (f_fail : pyval -> bool)
    (f_pass : option (pyval -> bool)) (weight at_least : Z) : M unit :=
  db <- get_db ;;
  match db !! name with
  | Some _ => ret tt
  | None =>
      CoverItem_init (String.length name) (Partial CheckC) name ;;
      self <- lookup_node name ;;
      match _parent self with
      | None => raise MissingParent
      | Some _ =>
          modify_node name
            (fun n => set_body (Check weight at_least f_pass f_fail
                                      (fromkeys py_eqb [PASS; FAIL] 0))
                               (set_size (fun _ => weight) n)) ;;
          parent_update_size self weight
      end
  end.

Definition CoverCheck (name : string) (f_fail : pyval -> bool)
    (f_pass : option (pyval -> bool)) (weight at_least : Z) : M string :=
  db <- get_db ;;
  match db !! name with
  | Some _ => ret name
  | None => CoverCheck_init name f_fail f_pass weight at_least ;; ret name
  end.

(** The three-valued [passed] of a sampling event: [Some true] (passed),
    [Some false] (failed), [None] (undetermined). *)
Definition check_passed (f_pass f_fail : pyval -> bool) (args : pyval) : option bool :=
  let passed := if f_pass args then Some true else None in
  if f_fail args then Some false else passed.

(** Python's truth value of [passed] *)
Definition truthy (passed : option bool) : bool :=
  match passed with Some true => true | _ => false end.

(** The sampling event of a [CoverCheck] for the sampled arguments. *)
Definition CoverCheck_sample (name : string) (args : pyval) : M unit :=
  self <- lookup_node name ;;
  match _body self with
  | Check weight at_least f_pass0 f_fail hits =>
      (* if self._f_pass is None: self._f_pass = dummy_f *)
      let f_pass := match f_pass0 with Some f => f | None => fun _ => true end in
      modify_node name (set_body (Check weight at_least (Some f_pass) f_fail hits)) ;;
      self1 <- lookup_node name ;;
      current_coverage <- lift (coverage self1) ;;
      let passed := check_passed f_pass f_fail args in
      (* if passed: PASS += 1  elif not passed: FAIL += 1 *)
      let hits' :=
        if truthy passed then dincr hits PASS
        else if negb (truthy passed) then dincr hits FAIL
        else hits in
      modify_node name (set_body (Check weight at_least (Some f_pass) f_fail hits')) ;;
      match passed with
      | None => ret tt
      | Some _ =>
          self' <- lookup_node name ;;
          now <- lift (coverage self') ;;
          parent_update_coverage self' (now - current_coverage) ;;
          notify_thresholds (_threshold_callbacks self') current_coverage
                            (size self') (true_div (100 * now) (size self')) ;;
          if dmem py_eqb (_bins_callbacks self') PASS && truthy passed then
            match dget py_eqb (_bins_callbacks self') PASS with
            | Some cb => call cb
            | None => raise KeyError
            end
          else if dmem py_eqb (_bins_callbacks self') FAIL && negb (truthy passed) then
            match dget py_eqb (_bins_callbacks self') FAIL with
            | Some cb => call cb
            | None => raise KeyError
            end
          else ret tt
      end
  | _ => raise AttributeError
  end.

(** ** Sampling events and runs *)

(** Calling the decorated function samples the object returned by the
    constructor, whatever its class; a plain [CoverItem] is not callable. *)
Definition sample (name : string) (v : pyval) : M unit :=
  self <- lookup_node name ;;
  match _body self with
  | Item => raise TypeError
  | Partial _ => raise AttributeError
  | Point _ _ _ _ _ => CoverPoint_sample name v
  | Cross _ _ _ _ => CoverCross_sample name
  | Check _ _ _ _ _ => CoverCheck_sample name v
  end.

(** The state reached by a computation, whether it returns or raises. *)
Definition exec {A} (m : M A) (s : state) : state := snd (m s).
Definition result {A} (m : M A) (s : state) : outcome A := fst (m s).

(** The properties read in a state. *)
Definition coverage_of (s : state) (name : string) : outcome Z :=
  match coverage_db s !! name with
  | Some n => coverage n
  | None => Raise KeyError
  end.
Definition size_of (s : state) (name : string) : outcome Z :=
  match coverage_db s !! name with
  | Some n => Ret (size n)
  | None => Raise KeyError
  end.
Definition cover_percentage_of (s : state) (name : string) : outcome Q :=
  match coverage_db s !! name with
  | Some n => cover_percentage n
  | None => Raise KeyError
  end.
Definition detailed_coverage_of (s : state) (name : string) : outcome hits_dict :=
  match coverage_db s !! name with
  | Some n => detailed_coverage n
  | None => Raise KeyError
  end.

(** ** Scenarios of the specification *)

(** The predicates of the documented example:
    [f_fail = lambda x : x == 0] and [f_pass = lambda x : x < 5]. *)
Definition is_zero (x : pyval) : bool := py_eqb x (PInt 0).
Definition below_five (x : pyval) : bool :=
  match x with
  | PInt z => z <? 5
  | PBool b => Z.b2z b <? 5
  | _ => false
  end.

(** The hit count of a bin of a registered object, as read through
    [detailed_coverage]. *)
Definition hit_count (s : state) (name : string) (bin : pyval) : outcome Z :=
  match detailed_coverage_of s name with
  | Ret d => hits_at d bin
  | Raise e => Raise e
  end.

(** The [_coverage] attribute of a registered object. *)
Definition coverage_attr (s : state) (name : string) : option Z :=
  _coverage <$> coverage_db s !! name.

Module CheckExample.
(** [CoverCheck("top.check", f_fail, f_pass, weight, at_least=1)], with a
    callback on each of the two bins and a threshold callback. *)
Definition setup (weight : Z) : M unit :=
  CoverCheck "top.check" is_zero (Some below_five) weight 1 ;;
  add_bins_callback "top.check" 1%nat PASS ;;
  add_bins_callback "top.check" 2%nat FAIL ;;
  add_threshold_callback "top.check" 3%nat 100 ;;
  add_threshold_callback "top" 4%nat 100.

Definition registered (weight : Z) : state := exec (setup weight) empty_state.

(** The state after sampling the values [vs] in turn. *)
Definition after (weight : Z) (vs : list pyval) : state :=
  fold_left (fun s v => exec (sample "top.check" v) s) vs (registered weight).
End CheckExample.

Module PointExample.
(** A grouping node [top] of size 4: one [CoverPoint] with four bins of
    weight 1 below it; a callback at 50% on the group and on the point. *)
Definition setup : M unit :=
  CoverPoint "top.p" None [PInt 1; PInt 2; PInt 3; PInt 4] 1 1 false ;;
  add_threshold_callback "top" 8%nat 50 ;;
  add_threshold_callback "top.p" 7%nat 50.

Definition after (vs : list pyval) : state :=
  fold_left (fun s v => exec (sample "top.p" v) s) vs (exec setup empty_state).
End PointExample.

Module CrossExample.
(** Two points with bins 1 and 2 and their cross, ignoring [(1, 1)]. *)
Definition setup (weight at_least : Z) : M string :=
  CoverPoint "top.a" None [PInt 1; PInt 2] 1 1 false ;;
  CoverPoint "top.b" None [PInt 1; PInt 2] 1 1 false ;;
  CoverCross "top.x" ["top.a"; "top.b"] [[PInt 1; PInt 1]] weight at_least.

Definition registered (weight at_least : Z) : state :=
  exec (setup weight at_least) empty_state.

(** One call of the decorated function: the two points are sampled, then
    the cross. *)
Definition one_call (a b : pyval) : M unit :=
  sample "top.a" a ;; sample "top.b" b ;; sample "top.x" PNone.
End CrossExample.

(** The bins of a registered object, in order. *)
Definition bins_of (s : state) (name : string) : outcome (list pyval) :=
  match detailed_coverage_of s name with
  | Ret d => Ret (dkeys d)
  | Raise e => Raise e
  end.

(** The [new_hits] property of a registered object. *)
Definition new_hits_of (s : state) (name : string) : option (list pyval) :=
  _new_hits <$> coverage_db s !! name.

(** ** Operations and runs *)

(** The operations a test bench performs on the registry. *)
Inductive op : Type :=
| NewPoint (name : string) (rel : option (pyval -> pyval -> bool))
           (bins : list pyval) (weight at_least : Z) (inj : bool)
| NewCross (name : string) (items : list string)
           (ign_bins : list (list pyval)) (weight at_least : Z)
| NewCheck (name : string) (f_fail : pyval -> bool)
           (f_pass : option (pyval -> bool)) (weight at_least : Z)
| AddThreshold (name : string) (cb : callback) (threshold : Z)
| AddBins (name : string) (cb : callback) (bins : pyval)
| Sample (name : string) (v : pyval).

Definition run_op (o : op) : M unit :=
  match o with
  | NewPoint name rel bins weight at_least inj =>
      CoverPoint name rel bins weight at_least inj ;; ret tt
  | NewCross name items ign_bins weight at_least =>
      CoverCross name items ign_bins weight at_least ;; ret tt
  | NewCheck name f_fail f_pass weight at_least =>
      CoverCheck name f_fail f_pass weight at_least ;; ret tt
  | AddThreshold name cb threshold => add_threshold_callback name cb threshold
  | AddBins name cb bins => add_bins_callback name cb bins
  | Sample name v => sample name v
  end.

(** The state after a sequence of operations; an operation that raises
    leaves the state it reached. *)
Definition run_ops (ops : list op) (s : state) : state :=
  fold_left (fun s o => exec (run_op o) s) ops s.

(** The parameters under which the bounds on the coverage are proved:
    weights are not negative, the pass count a check requires is not
    negative, and an ignore pattern has a position for every item of its
    cross. *)
Definition admissible (o : op) : Prop :=
  match o with
  | NewPoint _ _ _ weight _ _ => 0 <= weight
  | NewCross _ items ign_bins weight _ =>
      0 <= weight /\
      Forall (fun pat : list pyval => (length items <= length pat)%nat) ign_bins
  | NewCheck _ _ _ weight at_least => 0 <= weight /\ 0 <= at_least
  | _ => True
  end.

(** ** The invariant of the registry *)

(** The names of the ancestors of a name, nearest first. *)
Fixpoint ancestors_aux (fuel : nat) (name : string) : list string :=
  match fuel with
  | O => []
  | S fuel' =>
      if contains_dot name
      then parent_name name :: ancestors_aux fuel' (parent_name name)
      else []
  end.
Definition ancestors (name : string) : list string :=
  ancestors_aux (String.length name) name.

(** The parent links follow the names, and the parent is registered. *)
Definition wf_db (db : gmap string node) : Prop :=
  forall k n, db !! k = Some n ->
    if contains_dot k
    then _parent n = Some (parent_name k) /\ is_Some (db !! parent_name k)
    else _parent n = None.

(** Number of bins hit fewer than [at_least] times. *)
Definition unsat (at_least : Z) (hits : hits_dict) : Z :=
  Z.of_nat (length (filter (fun kv : pyval * Z => snd kv < at_least) hits)).

(** The capacity an object contributes to the size of its ancestors. *)
Definition cap (b : body) : Z :=
  match b with
  | Point _ weight _ _ hits | Cross weight _ _ hits =>
      weight * Z.of_nat (length hits)
  | Check weight _ _ _ _ => weight
  | _ => 0
  end.

Definition check_coverage (weight at_least : Z) (hits : hits_dict) : Z :=
  match dget py_eqb hits FAIL, dget py_eqb hits PASS with
  | Some f, Some p => if (f =? 0) && (p >? at_least) then weight else 0
  | _, _ => 0
  end.

(** Bounds on what an object has reported to its ancestors: for a point or
    a cross, the weight of its covered bins; for a check that has seen no
    failure its coverage, and afterwards anything between 0 and its
    weight. *)
Definition lo (b : body) : Z :=
  match b with
  | Point _ weight at_least _ hits | Cross weight at_least _ hits =>
      if 0 <? at_least
      then weight * (Z.of_nat (length hits) - unsat at_least hits)
      else 0
  | Check weight at_least _ _ hits => check_coverage weight at_least hits
  | _ => 0
  end.

Definition hi (b : body) : Z :=
  match b with
  | Check weight at_least _ _ hits =>
      match dget py_eqb hits FAIL with
      | Some 0 => check_coverage weight at_least hits
      | _ => weight
      end
  | _ => lo b
  end.

Definition body_ok (b : body) : Prop :=
  match b with
  | Point _ weight _ _ hits | Cross weight _ _ hits =>
      0 <= weight /\ Forall (fun kv : pyval * Z => 0 <= snd kv) hits
  | Check weight at_least _ _ hits =>
      0 <= weight /\ 0 <= at_least /\
      exists p f, hits = [(PASS, p); (FAIL, f)] /\ 0 <= p /\ 0 <= f
  | _ => True
  end.

(** The sum of [f] over the registered descendants of [g]. *)
Definition desc_sum (f : body -> Z) (bodies : gmap string body) (g : string) : Z :=
  map_fold (fun k b acc => if bool_decide (g ∈ ancestors k) then f b + acc else acc)
           0 bodies.

Record Inv (db : gmap string node) : Prop := mkInv {
  inv_wf : wf_db db;
  inv_body : forall k n, db !! k = Some n -> body_ok (_body n);
  inv_size : forall g n, db !! g = Some n ->
      cap (_body n) + desc_sum cap (_body <$> db) g <= _size n;
  inv_coverage : forall g n, db !! g = Some n ->
      desc_sum lo (_body <$> db) g <= _coverage n <= desc_sum hi (_body <$> db) g
}.


(** The effect of the upward walks on the registry: [f] applied to the
    objects registered under [names]. *)
Definition bump (f : node -> node) (names : list string)
    (db : gmap string node) : gmap string node :=
  fold_left (fun db k => alter f k db) names db.

Definition add_coverage (delta : Z) : node -> node :=
  set_coverage (fun c => c + delta).
Definition add_size (delta : Z) : node -> node :=
  set_size (fun s => s + delta).

(** The attributes the invariant depends on. *)
Definition core (n : node) : option string * body * Z * Z :=
  (_parent n, _body n, _size n, _coverage n).


(** Computations that leave the registry alone. *)
Definition keeps_db {A} (m : M A) : Prop :=
  forall s, coverage_db (exec m s) = coverage_db s.

(** The objects registered in [db] are registered in [db'] with the
    attributes the invariant reads. *)
Definition extends (db db' : gmap string node) : Prop :=
  forall j n, db !! j = Some n -> exists n', db' !! j = Some n' /\ core n' = core n.


(** ** Sampling events in sequence *)

(** The state after sampling the objects named in [events], each with its
    value, in turn. *)
Definition sample_all (events : list (string * pyval)) (s : state) : state :=
  fold_left (fun s ev => exec (sample (fst ev) (snd ev)) s) events s.

(** The class-dependent part of a registered object. *)
Definition body_of (s : state) (k : string) : option body :=
  _body <$> coverage_db s !! k.

(** A computation that changes the body of no object, except perhaps the
    one registered as [nm]. *)
Definition frames {A} (nm : option string) (m : M A) : Prop :=
  forall s k, Some k <> nm -> body_of (exec m s) k = body_of s k.

(** ** What the operations leave alone *)

(** An attribute of a registered object. *)
Definition attr_of {B} (proj : node -> B) (s : state) (k : string) : option B :=
  proj <$> coverage_db s !! k.

(** A computation that keeps the attribute [proj] of every registered
    object, except perhaps the one registered as [nm]. *)
Definition preserves {A B} (proj : node -> B) (nm : option string) (m : M A) : Prop :=
  forall s k v, Some k <> nm ->
    attr_of proj s k = Some v -> attr_of proj (exec m s) k = Some v.

(** The keys of a dictionary are pairwise different for Python's [==], as
    the keys of a dictionary built by [fromkeys] are. *)
Fixpoint distinct_keys (ks : list pyval) : Prop :=
  match ks with
  | [] => True
  | k :: rest => Forall (fun k' => py_eqb k k' = false) rest /\ distinct_keys rest
  end.

(** The same bins, in the same order, with counts that are not lower. *)
Definition hits_le (h h' : hits_dict) : Prop :=
  Forall2 (fun a b : pyval * Z => fst a = fst b /\ snd a <= snd b) h h'.

(** The same object, with hit counts that are not lower. *)
Definition body_le (b b' : body) : Prop :=
  match b, b' with
  | Item, Item => True
  | Partial c, Partial c' => c = c'
  | Point rel w al inj h, Point rel' w' al' inj' h' =>
      rel = rel' /\ w = w' /\ al = al' /\ inj = inj' /\ hits_le h h'
  | Cross w al items h, Cross w' al' items' h' =>
      w = w' /\ al = al' /\ items = items' /\ hits_le h h'
  | Check w al _ ff h, Check w' al' _ ff' h' =>
      w = w' /\ al = al' /\ ff = ff' /\ hits_le h h'
  | _, _ => False
  end.

(** The relation [rel = lambda x, y : x < y] of the documented example, on
    integers ([bool] being a subclass of [int]). *)
Definition less_than (x y : pyval) : bool :=
  match x, y with
  | PInt a, PInt b => a <? b
  | PInt a, PBool b => a <? Z.b2z b
  | PBool a, PInt b => Z.b2z a <? b
  | PBool a, PBool b => Z.b2z a <? Z.b2z b
  | _, _ => false
  end.

Module RelationExample.
(** Two points with the bins 1, 5 and 9 matched by [less_than]: [top.q] is
    injective, [top.r] is not. *)
Definition setup : M string :=
  CoverPoint "top.q" (Some less_than) [PInt 1; PInt 5; PInt 9] 1 1 true ;;
  CoverPoint "top.r" (Some less_than) [PInt 1; PInt 5; PInt 9] 1 1 false.

Definition registered : state := exec setup empty_state.
End RelationExample.

Module EmptyCrossExample.
(** A cross all of whose bins are ignored, with a threshold callback. *)
Definition setup : M unit :=
  CoverPoint "top.a" None [PInt 1; PInt 2] 1 1 false ;;
  CoverCross "top.x" ["top.a"] [[PNone]] 1 1 ;;
  add_threshold_callback "top.x" 1%nat 50.

Definition registered : state := exec setup empty_state.
End EmptyCrossExample.

(** ** Decorators *)

(** [dec(f)] for the object [dec] registered as [name]: [__call__] of a
    primitive returns [_wrapped_function], which runs the sampling event
    and then calls [f] with the same arguments; a plain [CoverItem] has no [__call__]. *)
Definition decorate {A} (name : string) (f : pyval -> M A) : M (pyval -> M A) :=
  self <- lookup_node name ;;
  match _body self with
  | Item => raise TypeError
  | _ => ret (fun args => sample name args ;; f args)
  end.

(** The loop [for dec in reversed(...): f = dec(f)] of [_decorator], over
    the reversed list. *)
Fixpoint apply_decorators {A} (decorators : list string) (f : pyval -> M A)
    : M (pyval -> M A) :=
  match decorators with
  | [] => ret f
  | dec :: rest => g <- decorate dec f ;; apply_decorators rest g
  end.

(** The decorator returned by [coverageSection], applied to [f]. *)
Definition coverageSection {A} (coverItems : list string) (f : pyval -> M A)
    : M (pyval -> M A) :=
  apply_decorators (rev coverItems) f.

(** The operation [o] is the construction of a primitive under [name]. *)
Definition constructs (o : op) (name : string) : Prop :=
  match o with
  | NewPoint n _ _ _ _ _ | NewCross n _ _ _ _ | NewCheck n _ _ _ _ => n = name
  | _ => False
  end.

(** ** The registry as a tree *)

(** The attributes that place an object in the tree, and its size. *)
Definition shape (n : node) : string * option string * list string * Z :=
  (_name n, _parent n, _children n, _size n).

(** The [_size] of the object registered as [k]. *)
Definition size_in (db : gmap string node) (k : string) : Z :=
  match db !! k with
  | Some n => _size n
  | None => 0
  end.

(** The sum of the sizes of the objects listed in [cs]. *)
Definition child_sum (db : gmap string node) (cs : list string) : Z :=
  fold_right (fun c acc => size_in db c + acc) 0 cs.

(** [k] is registered, and its name says that its parent is [g]. *)
Definition is_child (db : gmap string node) (g k : string) : Prop :=
  is_Some (db !! k) /\ contains_dot k = true /\ parent_name k = g.

(** The registry is a tree: an object is registered under its own name,
    its parent is the object registered under the name up to the last dot,
    its list of children lists once each object whose parent it is, and
    the size of a plain [CoverItem] is the sum of the sizes of its
    children. *)
Record Tree (db : gmap string node) : Prop := mkTree {
  tree_wf : wf_db db;
  tree_name : forall k n, db !! k = Some n -> _name n = k;
  tree_children : forall g n, db !! g = Some n ->
      NoDup (_children n) /\ forall k, k ∈ _children n <-> is_child db g k;
  tree_size : forall g n, db !! g = Some n -> _body n = Item ->
      _size n = child_sum db (_children n)
}.

(** A computation that keeps the attribute [proj] of every object, and
    registers nothing. *)
Definition steady {A B} (proj : node -> B) (m : M A) : Prop :=
  forall s k, attr_of proj (exec m s) k = attr_of proj s k.

Module TreeExample.
(** Primitives at several depths, one of them below another primitive, a
    negative weight and a constructor that fails. *)
Definition ops : list op :=
  [NewPoint "top.g.p" None [PInt 1; PInt 2; PInt 2] 2 1 false;
   NewCheck "top.g.c" is_zero (Some below_five) 3 1;
   NewCross "top.x" ["top.g.p"; "top.g.c"] [[PNone; PStr "FAIL"]] 1 1;
   NewPoint "top.g.p.sub" None [] (-5) 1 false;
   NewCheck "orphan" is_zero None 1 1;
   Sample "top.g.p" (PInt 2); Sample "top.g.c" (PInt 3)].

Definition reached : state := run_ops ops empty_state.
End TreeExample.

(** ** The bins of a cross *)




(** * Properties *)

(** ** Running computations *)

Lemma bind_Ret {A B} (m : M A) (k : A -> M B) (s s' : state) (a : A) :
  m s = (Ret a, s') -> bind m k s = k a s'.
Proof. unfold bind. intros ->. reflexivity. Qed.

Lemma bind_Raise {A B} (m : M A) (k : A -> M B) (s s' : state) (e : exn) :
  m s = (Raise e, s') -> bind m k s = (Raise e, s').
Proof. unfold bind. intros ->. reflexivity. Qed.

Lemma get_db_run (s : state) : get_db s = (Ret (coverage_db s), s).
Proof. reflexivity. Qed.

Lemma lookup_node_Some (name : string) (s : state) (n : node) :
  coverage_db s !! name = Some n -> lookup_node name s = (Ret n, s).
Proof. intros H. unfold lookup_node, bind, get_db. simpl. rewrite H. reflexivity. Qed.

Lemma lookup_node_None (name : string) (s : state) :
  coverage_db s !! name = None -> lookup_node name s = (Raise KeyError, s).
Proof. intros H. unfold lookup_node, bind, get_db. simpl. rewrite H. reflexivity. Qed.

Lemma modify_node_Some (name : string) (f : node -> node) (s : state) (n : node) :
  coverage_db s !! name = Some n ->
  modify_node name f s
  = (Ret tt, mkState (<[name := f n]> (coverage_db s)) (fired s)).
Proof. intros H. unfold modify_node, bind, get_db. simpl. rewrite H. reflexivity. Qed.

Lemma modify_node_None (name : string) (f : node -> node) (s : state) :
  coverage_db s !! name = None -> modify_node name f s = (Raise KeyError, s).
Proof. intros H. unfold modify_node, bind, get_db. simpl. rewrite H. reflexivity. Qed.


(** C1 (the code departs from the claim): a sample on which neither
    predicate holds (here [7], with [f_fail = (x == 0)] and
    [f_pass = (x < 5)]) returns without calling any callback and without
    touching the [_coverage] of the parent, but it increments the hit count
    of FAIL, the branch [elif not passed] being taken for [None].  After two
    passing samples the object is covered; the undetermined sample then
    drops its coverage to 0 while the parent keeps counting it. *)
Theorem C1_indeterminate_sample_counts_as_FAIL :
  let s0 := CheckExample.registered 1 in
  let s1 := exec (sample "top.check" (PInt 7)) s0 in
  let t0 := CheckExample.after 1 [PInt 3; PInt 3] in
  let t1 := exec (sample "top.check" (PInt 7)) t0 in
  check_passed below_five is_zero (PInt 7) = None /\
  result (sample "top.check" (PInt 7)) s0 = Ret tt /\
  hit_count s0 "top.check" FAIL = Ret 0 /\
  hit_count s1 "top.check" FAIL = Ret 1 /\
  hit_count s1 "top.check" PASS = hit_count s0 "top.check" PASS /\
  fired s1 = fired s0 /\
  coverage_attr s1 "top" = coverage_attr s0 "top" /\
  coverage_of t0 "top.check" = Ret 1 /\
  coverage_of t1 "top.check" = Ret 0 /\
  coverage_of t0 "top" = Ret 1 /\
  coverage_of t1 "top" = Ret 1.
Proof. vm_compute. repeat split; reflexivity. Qed.

(** C3 (the code departs from the claim): with [at_least = 1], one passing
    sample brings the PASS count to [at_least] with no FAIL, and the
    coverage is still 0, not [weight]: the property tests
    [PASS > at_least].  A second passing sample is needed. *)
Theorem C3_pass_count_equal_to_at_least_is_not_covered :
  let s1 := CheckExample.after 1 [PInt 3] in
  let s2 := CheckExample.after 1 [PInt 3; PInt 3] in
  hit_count s1 "top.check" PASS = Ret 1 /\
  hit_count s1 "top.check" FAIL = Ret 0 /\
  coverage_of s1 "top.check" = Ret 0 /\
  hit_count s2 "top.check" PASS = Ret 2 /\
  coverage_of s2 "top.check" = Ret 1.
Proof. vm_compute. repeat split; reflexivity. Qed.

(** The same for every weight and threshold: a check whose counts are
    [PASS = at_least] and [FAIL = 0] has coverage 0. *)
Lemma check_coverage_at_threshold :
  forall name sz cov parent children nh tcb bcb weight at_least f_pass f_fail,
    coverage (mkNode name sz cov parent children nh tcb bcb
                (Check weight at_least f_pass f_fail
                       [(PASS, at_least); (FAIL, 0)])) = Ret 0.
Proof.
  intros. unfold coverage. simpl.
  replace (at_least >? at_least) with false; [reflexivity|].
  symmetry. rewrite Z.gtb_ltb. apply Z.ltb_irrefl.
Qed.

(** C5 (the code departs from the claim): reading [detailed_coverage] of
    the grouping node [top] raises [AttributeError]. *)
Theorem C5_detailed_coverage_of_group_raises :
  detailed_coverage_of (PointExample.after []) "top" = Raise AttributeError.
Proof. vm_compute. reflexivity. Qed.

(** It does for every plain [CoverItem] that has a child. *)
Lemma detailed_coverage_item_raises (n : node) :
  _body n = Item -> _children n <> [] ->
  detailed_coverage n = Raise AttributeError.
Proof.
  unfold detailed_coverage. intros -> Hc.
  destruct (_children n) as [|c cs]; [congruence|]. simpl.
  clear. induction cs as [|c' cs IH]; simpl; auto.
Qed.

(** C6: on a node of size 4 with a callback registered at 50%, the delta
    that moves the coverage from 1 to 2 calls the callback once, and the
    delta that moves it from 2 to 3 does not call it again.  Callback 8 is
    the one of the grouping node (called from [_update_coverage]),
    callback 7 the one of the point (called from its sampling event). *)
Theorem C6_threshold_callback_fires_once :
  let s1 := PointExample.after [PInt 1] in
  let s2 := PointExample.after [PInt 1; PInt 2] in
  let s3 := PointExample.after [PInt 1; PInt 2; PInt 3] in
  (size_of s1 "top" = Ret 4 /\ size_of s1 "top.p" = Ret 4) /\
  (coverage_of s1 "top" = Ret 1 /\ coverage_of s1 "top.p" = Ret 1 /\
   fired s1 = []) /\
  (coverage_of s2 "top" = Ret 2 /\ coverage_of s2 "top.p" = Ret 2 /\
   count_occ Nat.eq_dec (fired s2) 8%nat = 1%nat /\
   count_occ Nat.eq_dec (fired s2) 7%nat = 1%nat) /\
  (coverage_of s3 "top" = Ret 3 /\ coverage_of s3 "top.p" = Ret 3 /\
   fired s3 = fired s2).
Proof. vm_compute. repeat split; reflexivity. Qed.

(** C8: the cross of two points with bins 1 and 2, built with
    [ign_bins = [(1, 1)]], keeps exactly the three cross-bins [(1, 2)],
    [(2, 1)] and [(2, 2)], so that its size is [3 * weight]; a call in which
    both points match 2 (their last-hit lists are [[2]] and [[2]]) and the
    cross is sampled after them adds 1 to the hit count of [(2, 2)] and
    leaves the other cross-bins alone. *)
Theorem C8_cross_ignore_and_hit (weight at_least : Z) :
  let s0 := CrossExample.registered weight at_least in
  let s1 := exec (CrossExample.one_call (PInt 2) (PInt 2)) s0 in
  let b12 := PTuple [PInt 1; PInt 2] in
  let b21 := PTuple [PInt 2; PInt 1] in
  let b22 := PTuple [PInt 2; PInt 2] in
  result (CrossExample.setup weight at_least) empty_state = Ret "top.x" /\
  bins_of s0 "top.x" = Ret [b12; b21; b22] /\
  size_of s0 "top.x" = Ret (weight * 3) /\
  result (CrossExample.one_call (PInt 2) (PInt 2)) s0 = Ret tt /\
  new_hits_of s1 "top.a" = Some [PInt 2] /\
  new_hits_of s1 "top.b" = Some [PInt 2] /\
  hit_count s0 "top.x" b22 = Ret 0 /\
  hit_count s1 "top.x" b22 = Ret 1 /\
  hit_count s1 "top.x" b12 = Ret 0 /\
  hit_count s1 "top.x" b21 = Ret 0.
Proof. vm_compute. repeat split; reflexivity. Qed.

(** C7: constructing a primitive under a name that is already registered
    returns the registered object and leaves the whole state as it was,
    whatever the parameters of the call: [__new__] returns
    [coverage_db[name]] and the guard of [__init__] skips the
    initialisation.  In particular no size is counted twice. *)
Theorem C7_registered_name_returns_existing (s : state) (name : string) :
  is_Some (coverage_db s !! name) ->
  (forall rel bins weight at_least inj,
      CoverPoint name rel bins weight at_least inj s = (Ret name, s) /\
      CoverPoint_init name rel bins weight at_least inj s = (Ret tt, s)) /\
  (forall items ign_bins weight at_least,
      CoverCross name items ign_bins weight at_least s = (Ret name, s) /\
      CoverCross_init name items ign_bins weight at_least s = (Ret tt, s)) /\
  (forall f_fail f_pass weight at_least,
      CoverCheck name f_fail f_pass weight at_least s = (Ret name, s) /\
      CoverCheck_init name f_fail f_pass weight at_least s = (Ret tt, s)).
Proof.
  intros [n Hn].
  repeat split; intros;
    unfold CoverPoint, CoverPoint_init, CoverCross, CoverCross_init,
           CoverCheck, CoverCheck_init;
    rewrite (bind_Ret _ _ _ _ _ (get_db_run s)), Hn; reflexivity.
Qed.

Lemma C7_registered_name_witness :
  let s := PointExample.after [PInt 1] in
  is_Some (coverage_db s !! "top.p") /\
  CoverPoint "top.p" None [PInt 5; PInt 6] 3 2 true s = (Ret "top.p", s) /\
  size_of (exec (CoverPoint "top.p" None [PInt 5; PInt 6] 3 2 true) s) "top.p" = Ret 4 /\
  size_of (exec (CoverPoint "top.p" None [PInt 5; PInt 6] 3 2 true) s) "top" = Ret 4.
Proof.
  assert (H : is_Some (coverage_db (PointExample.after [PInt 1]) !! "top.p")).
  { vm_compute. eexists. reflexivity. }
  split; [exact H|].
  pose proof (C7_registered_name_returns_existing _ _ H) as (HP & _ & _).
  destruct (HP None [PInt 5; PInt 6] 3 2 true) as [E _].
  split; [exact E|].
  unfold exec. rewrite E. vm_compute. split; reflexivity.
Defined.

(** C9: when the name has no parent segment (and is not registered yet),
    the constructor of each primitive raises the missing-parent exception,
    and the state it leaves has the half-built object registered under that
    name: [CoverItem.__init__] stores [self] in [coverage_db] before the
    constructor tests [self._parent]. *)
Theorem C9_missing_parent_registers_anyway (s : state) (name : string) :
  contains_dot name = false ->
  coverage_db s !! name = None ->
  let registered c :=
    mkState (<[name := fresh_node name None (Partial c)]> (coverage_db s)) (fired s) in
  (forall rel bins weight at_least inj,
      CoverPoint name rel bins weight at_least inj s
      = (Raise MissingParent, registered PointC)) /\
  (forall items ign_bins weight at_least,
      CoverCross name items ign_bins weight at_least s
      = (Raise MissingParent, registered CrossC)) /\
  (forall f_fail f_pass weight at_least,
      CoverCheck name f_fail f_pass weight at_least s
      = (Raise MissingParent, registered CheckC)).
Proof.
  intros Hdot Hnew registered.
  assert (Hinit : forall c,
    CoverItem_init (String.length name) (Partial c) name s = (Ret tt, registered c)).
  { intros c. destruct (String.length name); simpl; rewrite Hdot; reflexivity. }
  assert (Hself : forall c,
    lookup_node name (registered c)
    = (Ret (fresh_node name None (Partial c)), registered c)).
  { intros c. apply lookup_node_Some. simpl. apply lookup_insert_eq. }
  repeat split; intros.
  - unfold CoverPoint. rewrite (bind_Ret _ _ _ _ _ (get_db_run s)), Hnew.
    apply bind_Raise. unfold CoverPoint_init.
    rewrite (bind_Ret _ _ _ _ _ (get_db_run s)), Hnew.
    rewrite (bind_Ret _ _ _ _ _ (Hinit _)), (bind_Ret _ _ _ _ _ (Hself _)).
    reflexivity.
  - unfold CoverCross. rewrite (bind_Ret _ _ _ _ _ (get_db_run s)), Hnew.
    apply bind_Raise. unfold CoverCross_init.
    rewrite (bind_Ret _ _ _ _ _ (get_db_run s)), Hnew.
    rewrite (bind_Ret _ _ _ _ _ (Hinit _)), (bind_Ret _ _ _ _ _ (Hself _)).
    reflexivity.
  - unfold CoverCheck. rewrite (bind_Ret _ _ _ _ _ (get_db_run s)), Hnew.
    apply bind_Raise. unfold CoverCheck_init.
    rewrite (bind_Ret _ _ _ _ _ (get_db_run s)), Hnew.
    rewrite (bind_Ret _ _ _ _ _ (Hinit _)), (bind_Ret _ _ _ _ _ (Hself _)).
    reflexivity.
Qed.

Lemma C9_missing_parent_witness :
  contains_dot "orphan" = false /\
  coverage_db empty_state !! "orphan" = None /\
  result (CoverPoint "orphan" None [PInt 1] 1 1 false) empty_state = Raise MissingParent /\
  is_Some (coverage_db (exec (CoverPoint "orphan" None [PInt 1] 1 1 false) empty_state) !! "orphan").
Proof.
  assert (H1 : contains_dot "orphan" = false) by reflexivity.
  assert (H2 : coverage_db empty_state !! "orphan" = None) by reflexivity.
  split; [exact H1|]. split; [exact H2|].
  destruct (C9_missing_parent_registers_anyway empty_state "orphan" H1 H2) as (HP & _ & _).
  unfold result, exec. rewrite (HP None [PInt 1] 1 1 false). simpl.
  split; [reflexivity|]. rewrite lookup_insert_eq. eexists; reflexivity.
Defined.

(** ** Ignore patterns made of wildcards *)

Lemma py_eqb_refl : forall a : pyval, py_eqb a a = true.
Proof.
  fix IH 1. intros [ | b | z | s | l]; simpl.
  - reflexivity.
  - destruct b; reflexivity.
  - apply Z.eqb_refl.
  - apply String.eqb_refl.
  - induction l as [|x l IHl]; [reflexivity|].
    rewrite IH, IHl. reflexivity.
Qed.

Lemma scan_pattern_wildcards (pat xs : list pyval) (remove r : bool) :
  forallb is_None pat = true ->
  scan_pattern pat xs remove = Ret r -> r = remove.
Proof.
  revert pat remove. induction xs as [|x xs IH]; intros pat remove Hall H; simpl in H.
  - inversion H. reflexivity.
  - destruct pat as [|i pat]; [discriminate|].
    simpl in Hall. apply andb_prop in Hall as [Hi Hall].
    rewrite Hi in H. simpl in H. eauto.
Qed.

Lemma ddel_sublist (hits : hits_dict) (k : pyval) :
  ddel py_eqb hits k `sublist_of` hits.
Proof.
  induction hits as [|[k' v] hits IH]; simpl; [constructor|].
  destruct (py_eqb k' k).
  - apply sublist_cons. reflexivity.
  - apply sublist_skip. exact IH.
Qed.

Lemma ignore_one_sublist (ign : list (list pyval)) (k : pyval)
    (hits hits' : hits_dict) (o : option exn) :
  ignore_one ign k hits = (hits', o) -> hits' `sublist_of` hits.
Proof.
  revert hits. induction ign as [|pat ign IH]; intros hits H; simpl in H.
  - inversion H. reflexivity.
  - destruct k; try (inversion H; reflexivity).
    destruct (scan_pattern pat l true) as [remove|e]; [|inversion H; reflexivity].
    apply IH in H. etransitivity; [exact H|].
    destruct (remove && dmem py_eqb hits (PTuple l)); [apply ddel_sublist|reflexivity].
Qed.

Lemma ignore_one_wildcards (ign : list (list pyval)) (pat : list pyval)
    (k : pyval) (v : Z) (rest hits' : hits_dict) :
  In pat ign -> forallb is_None pat = true ->
  ignore_one ign k ((k, v) :: rest) = (hits', None) ->
  hits' `sublist_of` rest.
Proof.
  intros Hin Hall. revert Hin.
  induction ign as [|p ign IH]; intros Hin H; [destruct Hin|].
  cbn [ignore_one] in H. destruct k as [ | | | |xs]; try discriminate.
  destruct (scan_pattern p xs true) as [remove|e] eqn:Hscan; [|discriminate].
  assert (Hhead : dmem py_eqb ((PTuple xs, v) :: rest) (PTuple xs) = true).
  { unfold dmem. cbn [dget]. rewrite py_eqb_refl. reflexivity. }
  assert (Hdel : ddel py_eqb ((PTuple xs, v) :: rest) (PTuple xs) = rest).
  { cbn [ddel]. rewrite py_eqb_refl. reflexivity. }
  rewrite Hhead, Hdel, andb_true_r in H.
  destruct remove.
  - eapply ignore_one_sublist. exact H.
  - destruct Hin as [-> | Hin].
    + apply scan_pattern_wildcards in Hscan; [discriminate | exact Hall].
    + apply IH; assumption.
Qed.

Lemma ignore_loop_wildcards (ign : list (list pyval)) (pat : list pyval) :
  In pat ign -> forallb is_None pat = true ->
  forall (hits0 hits hits' : hits_dict),
    hits `sublist_of` hits0 ->
    ignore_loop ign (dkeys hits0) hits = (hits', None) ->
    hits' = [].
Proof.
  intros Hin Hall. induction hits0 as [|[k v] hits0 IH]; intros hits hits' Hsub H.
  - apply sublist_nil_r in Hsub. subst. simpl in H. inversion H. reflexivity.
  - cbn [dkeys map fst ignore_loop] in H.
    destruct (ignore_one ign k hits) as [h1 [e|]] eqn:Hone; [discriminate|].
    apply (IH h1); [|exact H].
    apply sublist_cons_r in Hsub as [Hsub | (hits1 & -> & Hsub)].
    + etransitivity; [|exact Hsub]. eapply ignore_one_sublist. exact Hone.
    + etransitivity; [|exact Hsub].
      eapply ignore_one_wildcards; eassumption.
Qed.

Lemma set_size_add_0 (n : node) : set_size (fun s => s + 0) n = n.
Proof. destruct n. unfold set_size. simpl. rewrite Z.add_0_r. reflexivity. Qed.

Lemma state_eta (s : state) : mkState (coverage_db s) (fired s) = s.
Proof. destruct s. reflexivity. Qed.

(** Propagating a size of 0 changes nothing. *)
Lemma update_size_0 (fuel : nat) (p : string) (s : state) :
  exists o, _update_size fuel p 0 s = (o, s).
Proof.
  revert p. induction fuel as [|fuel IH]; intros p.
  - cbn [_update_size].
    destruct (coverage_db s !! p) as [n|] eqn:Hp.
    + rewrite (bind_Ret _ _ _ _ _ (modify_node_Some _ _ _ _ Hp)).
      rewrite set_size_add_0, insert_id, state_eta by exact Hp.
      rewrite (bind_Ret _ _ _ _ _ (lookup_node_Some _ _ _ Hp)).
      destruct (_parent n); eexists; reflexivity.
    + rewrite (bind_Raise _ _ _ _ _ (modify_node_None _ _ _ Hp)). eauto.
  - cbn [_update_size].
    destruct (coverage_db s !! p) as [n|] eqn:Hp.
    + rewrite (bind_Ret _ _ _ _ _ (modify_node_Some _ _ _ _ Hp)).
      rewrite set_size_add_0, insert_id, state_eta by exact Hp.
      rewrite (bind_Ret _ _ _ _ _ (lookup_node_Some _ _ _ Hp)).
      destruct (_parent n); [apply IH | eexists; reflexivity].
    + rewrite (bind_Raise _ _ _ _ _ (modify_node_None _ _ _ Hp)). eauto.
Qed.

(** ** Names and ancestors *)

Lemma split_dot_no_dot (s : string) :
  contains_dot s = false -> split_dot s = [s].
Proof.
  induction s as [|a s IH]; simpl; [reflexivity|].
  destruct (Ascii.eqb a dot); simpl; [discriminate|].
  intros H. rewrite (IH H). reflexivity.
Qed.

Lemma split_dot_with_dot (s : string) :
  contains_dot s = true ->
  exists seg seg' segs, split_dot s = seg :: seg' :: segs.
Proof.
  induction s as [|a s IH]; simpl; [discriminate|].
  destruct (Ascii.eqb a dot); simpl.
  - intros _. destruct (contains_dot s) eqn:Hs.
    + destruct (IH eq_refl) as (x & y & l & ->). eauto.
    + rewrite (split_dot_no_dot _ Hs). eauto.
  - intros H. destruct (IH H) as (x & y & l & ->). eauto.
Qed.

Lemma string_length_app (a b : string) :
  String.length (a ++ b)%string = (String.length a + String.length b)%nat.
Proof. induction a as [|c a IH]; simpl; [reflexivity|]. rewrite IH. reflexivity. Qed.

Lemma join_dot_cons2 (x y : string) (l : list string) :
  join_dot (x :: y :: l) = (x ++ String dot (join_dot (y :: l)))%string.
Proof. reflexivity. Qed.

Lemma removelast_cons2 {A} (x y : A) (l : list A) :
  removelast (x :: y :: l) = x :: removelast (y :: l).
Proof. reflexivity. Qed.

Lemma parent_name_shorter (s : string) :
  contains_dot s = true ->
  (String.length (parent_name s) < String.length s)%nat.
Proof.
  unfold parent_name. induction s as [|a s IH]; [discriminate|].
  cbn [contains_dot split_dot]. destruct (Ascii.eqb a dot); cbn [orb].
  - intros _. destruct (contains_dot s) eqn:Hs.
    + specialize (IH eq_refl).
      destruct (split_dot_with_dot _ Hs) as (x & y & l & E).
      rewrite E in *. rewrite removelast_cons2.
      rewrite removelast_cons2 in *.
      destruct (removelast (y :: l)) as [|z r];
        [|rewrite join_dot_cons2 in IH];
        rewrite join_dot_cons2, string_length_app; simpl in *; lia.
    + rewrite (split_dot_no_dot _ Hs). simpl. lia.
  - intros H. specialize (IH H).
    destruct (split_dot_with_dot _ H) as (x & y & l & E).
    rewrite E in *. rewrite removelast_cons2 in *.
    destruct (removelast (y :: l)) as [|z r].
    + simpl in *. lia.
    + rewrite join_dot_cons2, string_length_app in *. simpl in *. lia.
Qed.

Lemma ancestors_aux_fuel (fuel : nat) (k : string) :
  (String.length k <= fuel)%nat ->
  ancestors_aux fuel k = ancestors k.
Proof.
  unfold ancestors. revert k.
  induction fuel as [fuel IH] using lt_wf_ind. intros k Hk.
  destruct fuel as [|fuel].
  - replace (String.length k) with 0%nat by lia. reflexivity.
  - destruct (String.length k) as [|m] eqn:Hlen.
    + destruct k; [reflexivity | discriminate].
    + cbn [ancestors_aux]. destruct (contains_dot k) eqn:Hdot; [|reflexivity].
      pose proof (parent_name_shorter _ Hdot).
      f_equal. rewrite (IH fuel), (IH m); try lia. reflexivity.
Qed.

Lemma ancestors_no_dot (k : string) :
  contains_dot k = false -> ancestors k = [].
Proof.
  unfold ancestors. intros H. destruct (String.length k); simpl; [|rewrite H]; reflexivity.
Qed.

Lemma ancestors_dot (k : string) :
  contains_dot k = true ->
  ancestors k = parent_name k :: ancestors (parent_name k).
Proof.
  intros H. pose proof (parent_name_shorter _ H) as Hlt.
  unfold ancestors at 1. destruct (String.length k) as [|m]; [lia|].
  cbn [ancestors_aux]. rewrite H. f_equal. apply ancestors_aux_fuel. lia.
Qed.

Lemma ancestors_shorter (k g : string) :
  g ∈ ancestors k -> (String.length g < String.length k)%nat.
Proof.
  remember (String.length k) as m eqn:Hm. revert k Hm.
  induction m as [m IH] using lt_wf_ind. intros k -> Hg.
  destruct (contains_dot k) eqn:Hdot.
  - rewrite (ancestors_dot _ Hdot) in Hg.
    pose proof (parent_name_shorter _ Hdot) as Hlt.
    apply elem_of_cons in Hg as [-> | Hg]; [exact Hlt|].
    specialize (IH _ Hlt _ eq_refl Hg). lia.
  - rewrite (ancestors_no_dot _ Hdot) in Hg. inversion Hg.
Qed.

Lemma not_own_ancestor (k : string) : k ∉ ancestors k.
Proof. intros H. apply ancestors_shorter in H. lia. Qed.

Lemma ancestors_trans (g h k : string) :
  g ∈ ancestors h -> h ∈ ancestors k -> g ∈ ancestors k.
Proof.
  remember (String.length k) as m eqn:Hm. revert k Hm.
  induction m as [m IH] using lt_wf_ind. intros k -> Hg Hh.
  destruct (contains_dot k) eqn:Hdot.
  - rewrite (ancestors_dot _ Hdot) in *.
    pose proof (parent_name_shorter _ Hdot) as Hlt.
    apply elem_of_cons in Hh as [-> | Hh].
    + right. exact Hg.
    + right. eapply IH; eauto.
  - rewrite (ancestors_no_dot _ Hdot) in Hh. inversion Hh.
Qed.

(** ** Sums over the descendants of a node *)

Section DescSum.
Variable f : body -> Z.
Variable g : string.

Lemma desc_sum_empty : desc_sum f ∅ g = 0.
Proof. apply map_fold_empty. Qed.

Lemma desc_sum_insert_fresh (bodies : gmap string body) (k : string) (b : body) :
  bodies !! k = None ->
  desc_sum f (<[k := b]> bodies) g
  = (if bool_decide (g ∈ ancestors k) then f b else 0) + desc_sum f bodies g.
Proof.
  intros Hk. unfold desc_sum. rewrite map_fold_insert_L; [| |exact Hk].
  - destruct (bool_decide (g ∈ ancestors k)); lia.
  - intros j1 j2 z1 z2 y _ _ _.
    destruct (bool_decide (g ∈ ancestors j1)), (bool_decide (g ∈ ancestors j2)); lia.
Qed.

Lemma desc_sum_delete (bodies : gmap string body) (k : string) (b : body) :
  bodies !! k = Some b ->
  desc_sum f bodies g
  = (if bool_decide (g ∈ ancestors k) then f b else 0) + desc_sum f (delete k bodies) g.
Proof.
  intros Hk. rewrite <- (insert_delete_id bodies k b Hk) at 1.
  apply desc_sum_insert_fresh. apply lookup_delete_eq.
Qed.

Lemma desc_sum_insert (bodies : gmap string body) (k : string) (b0 b : body) :
  bodies !! k = Some b0 ->
  desc_sum f (<[k := b]> bodies) g
  = desc_sum f bodies g + (if bool_decide (g ∈ ancestors k) then f b - f b0 else 0).
Proof.
  intros Hk. rewrite (desc_sum_delete bodies k b0 Hk).
  rewrite <- insert_delete_eq.
  rewrite desc_sum_insert_fresh by apply lookup_delete_eq.
  destruct (bool_decide (g ∈ ancestors k)); lia.
Qed.

Lemma desc_sum_no_descendant (bodies : gmap string body) :
  (forall k, is_Some (bodies !! k) -> g ∉ ancestors k) ->
  desc_sum f bodies g = 0.
Proof.
  induction bodies as [|k b bodies Hk IH] using map_ind; intros H.
  - apply desc_sum_empty.
  - rewrite desc_sum_insert_fresh by exact Hk.
    rewrite bool_decide_eq_false_2.
    + rewrite IH; [reflexivity|]. intros j Hj. apply H.
      destruct (decide (k = j)) as [->|Hne].
      * rewrite Hk in Hj. destruct Hj; discriminate.
      * rewrite lookup_insert_ne by exact Hne. exact Hj.
    + apply H. rewrite lookup_insert_eq. eauto.
Qed.
End DescSum.

Lemma desc_sum_le (f f' : body -> Z) (g : string) (bodies : gmap string body) :
  (forall k b, bodies !! k = Some b -> f b <= f' b) ->
  desc_sum f bodies g <= desc_sum f' bodies g.
Proof.
  induction bodies as [|k b bodies Hk IH] using map_ind; intros H.
  - rewrite !desc_sum_empty. lia.
  - rewrite !desc_sum_insert_fresh by exact Hk.
    assert (f b <= f' b) by (apply (H k); apply lookup_insert_eq).
    assert (desc_sum f bodies g <= desc_sum f' bodies g).
    { apply IH. intros j c Hj. apply (H j).
      rewrite lookup_insert_ne; [exact Hj|]. intros ->. congruence. }
    destruct (bool_decide (g ∈ ancestors k)); lia.
Qed.

Lemma desc_sum_nonneg (f : body -> Z) (g : string) (bodies : gmap string body) :
  (forall k b, bodies !! k = Some b -> 0 <= f b) ->
  0 <= desc_sum f bodies g.
Proof.
  induction bodies as [|k b bodies Hk IH] using map_ind; intros H.
  - rewrite desc_sum_empty. lia.
  - rewrite desc_sum_insert_fresh by exact Hk.
    assert (0 <= f b) by (apply (H k); apply lookup_insert_eq).
    assert (0 <= desc_sum f bodies g).
    { apply IH. intros j c Hj. apply (H j).
      rewrite lookup_insert_ne; [exact Hj|]. intros ->. congruence. }
    destruct (bool_decide (g ∈ ancestors k)); lia.
Qed.

(** ** Bounds on what an object reports *)

Lemma unsat_bounds (at_least : Z) (hits : hits_dict) :
  0 <= unsat at_least hits <= Z.of_nat (length hits).
Proof.
  unfold unsat. split; [lia|].
  apply inj_le. apply length_filter.
Qed.

Lemma weighted_coverage_unsat (sz weight at_least : Z) (hits : hits_dict) :
  weighted_coverage sz weight at_least hits = sz - weight * unsat at_least hits.
Proof.
  unfold weighted_coverage, unsat. revert sz.
  induction hits as [|[k v] hits IH]; intros sz; cbn [fold_left snd].
  - simpl. lia.
  - rewrite IH. destruct (Z.ltb_spec v at_least) as [Hlt|Hge].
    + rewrite filter_cons_True by exact Hlt. cbn [length]. lia.
    + rewrite filter_cons_False by (simpl; lia). lia.
Qed.

Lemma unsat_nonpositive (at_least : Z) (hits : hits_dict) :
  at_least <= 0 -> Forall (fun kv : pyval * Z => 0 <= snd kv) hits ->
  unsat at_least hits = 0.
Proof.
  intros Hal Hhits. unfold unsat.
  induction Hhits as [|[k v] hits Hv _ IH]; [reflexivity|].
  simpl in Hv. rewrite filter_cons_False by (simpl; lia). exact IH.
Qed.

Lemma check_hits_lookup (p f : Z) :
  dget py_eqb [(PASS, p); (FAIL, f)] FAIL = Some f /\
  dget py_eqb [(PASS, p); (FAIL, f)] PASS = Some p.
Proof. split; reflexivity. Qed.

Lemma body_bounds (b : body) :
  body_ok b -> 0 <= lo b /\ lo b <= hi b /\ hi b <= cap b.
Proof.
  destruct b as [ |c|rel w al inj hits|w al items hits|w al fp ff hits]; simpl.
  - lia.
  - lia.
  - intros [Hw _]. pose proof (unsat_bounds al hits).
    destruct (0 <? al); nia.
  - intros [Hw _]. pose proof (unsat_bounds al hits).
    destruct (0 <? al); nia.
  - intros (Hw & Hal & p & f & -> & Hp & Hf).
    unfold check_coverage. cbn [dget]. simpl.
    destruct f as [|f|f]; simpl; [destruct (p >? al)| |]; lia.
Qed.

(** The coverage of a point or a cross moves with [lo]. *)
Lemma weighted_coverage_lo (sz weight at_least : Z) (hits : hits_dict) :
  Forall (fun kv : pyval * Z => 0 <= snd kv) hits ->
  weighted_coverage sz weight at_least hits
  = sz - weight * Z.of_nat (length hits)
    + (if 0 <? at_least
       then weight * (Z.of_nat (length hits) - unsat at_least hits)
       else weight * Z.of_nat (length hits)).
Proof.
  intros Hhits. rewrite weighted_coverage_unsat.
  destruct (Z.ltb_spec 0 at_least) as [Hpos|Hneg]; [lia|].
  rewrite unsat_nonpositive by assumption. lia.
Qed.

(** ** Walks up the hierarchy *)

Lemma NoDup_ancestors (k : string) : NoDup (ancestors k).
Proof.
  remember (String.length k) as m eqn:Hm. revert k Hm.
  induction m as [m IH] using lt_wf_ind. intros k ->.
  destruct (contains_dot k) eqn:Hdot.
  - rewrite (ancestors_dot _ Hdot). constructor.
    + apply not_own_ancestor.
    + eapply IH; [|reflexivity]. apply parent_name_shorter, Hdot.
  - rewrite (ancestors_no_dot _ Hdot). constructor.
Qed.

Lemma lookup_bump (f : node -> node) (names : list string)
    (db : gmap string node) (k : string) :
  NoDup names ->
  bump f names db !! k
  = (if bool_decide (k ∈ names) then f else id) <$> db !! k.
Proof.
  unfold bump. revert db.
  induction names as [|a names IH]; intros db Hnd; cbn [fold_left].
  - destruct (db !! k); reflexivity.
  - apply NoDup_cons in Hnd as [Ha Hnd]. rewrite (IH _ Hnd).
    destruct (decide (k = a)) as [->|Hne].
    + rewrite lookup_alter_eq.
      rewrite (bool_decide_eq_false_2 _ Ha).
      rewrite (bool_decide_eq_true_2 (a ∈ a :: names)) by (left).
      destruct (db !! a); reflexivity.
    + rewrite lookup_alter_ne by congruence.
      destruct (decide (k ∈ names)) as [Hin|Hnin].
      * rewrite !bool_decide_eq_true_2; [reflexivity|right; exact Hin|exact Hin].
      * rewrite !bool_decide_eq_false_2; [reflexivity| |exact Hnin].
        intros [?|?]%elem_of_cons; congruence.
Qed.

Lemma fmap_bump {A} (p : node -> A) (f : node -> node) (names : list string)
    (db : gmap string node) :
  (forall n, p (f n) = p n) ->
  p <$> bump f names db = p <$> db.
Proof.
  intros Hf. unfold bump. revert db.
  induction names as [|a names IH]; intros db; cbn [fold_left]; [reflexivity|].
  rewrite IH. rewrite (fmap_alter p f id) by (intros; apply Hf).
  apply alter_id. reflexivity.
Qed.

Lemma insert_eq_alter (db : gmap string node) (k : string) (n : node)
    (f : node -> node) :
  db !! k = Some n -> <[k := f n]> db = alter f k db.
Proof.
  intros Hk. apply map_eq. intros j. destruct (decide (k = j)) as [->|Hne].
  - rewrite lookup_insert_eq, lookup_alter_eq, Hk. reflexivity.
  - rewrite lookup_insert_ne, lookup_alter_ne by exact Hne. reflexivity.
Qed.

(** ** Well-formed registries *)

Lemma wf_db_links (db db' : gmap string node) :
  _parent <$> db' = _parent <$> db -> wf_db db -> wf_db db'.
Proof.
  intros Heq Hwf k n' Hk.
  assert (Hl : forall j, _parent <$> db' !! j = _parent <$> db !! j).
  { intros j. rewrite <- !lookup_fmap, Heq. reflexivity. }
  pose proof (Hl k) as Hlk. rewrite Hk in Hlk. cbn in Hlk.
  destruct (db !! k) as [n|] eqn:Hn; [|discriminate].
  cbn in Hlk. injection Hlk as Hp.
  specialize (Hwf k n Hn). destruct (contains_dot k).
  - destruct Hwf as [Hpar [m Hm]]. split; [congruence|].
    specialize (Hl (parent_name k)). rewrite Hm in Hl.
    destruct (db' !! parent_name k); [eauto|discriminate].
  - congruence.
Qed.

Lemma wf_ancestor_registered (db : gmap string node) (k g : string) :
  wf_db db -> is_Some (db !! k) -> g ∈ ancestors k -> is_Some (db !! g).
Proof.
  intros Hwf. remember (String.length k) as m eqn:Hm. revert k Hm.
  induction m as [m IH] using lt_wf_ind. intros k -> [n Hn] Hg.
  specialize (Hwf k n Hn).
  destruct (contains_dot k) eqn:Hdot.
  - rewrite (ancestors_dot _ Hdot) in Hg. destruct Hwf as [_ Hpar].
    apply elem_of_cons in Hg as [-> | Hg]; [exact Hpar|].
    eapply IH; [|reflexivity|exact Hpar|exact Hg].
    apply parent_name_shorter, Hdot.
  - rewrite (ancestors_no_dot _ Hdot) in Hg. inversion Hg.
Qed.

Lemma wf_no_descendant (db : gmap string node) (k : string) :
  wf_db db -> db !! k = None ->
  forall j, is_Some (db !! j) -> k ∉ ancestors j.
Proof.
  intros Hwf Hk j Hj Hin.
  destruct (wf_ancestor_registered db j k Hwf Hj Hin) as [n Hn]. congruence.
Qed.

(** ** Steps that keep the invariant *)

Lemma fmap_insert_same {A} (p : node -> A) (db : gmap string node)
    (k : string) (n n' : node) :
  db !! k = Some n -> p n' = p n -> p <$> <[k := n']> db = p <$> db.
Proof.
  intros Hk Hp. rewrite fmap_insert. apply insert_id.
  rewrite lookup_fmap, Hk, Hp. reflexivity.
Qed.

(** Changing attributes the invariant does not read. *)
Lemma Inv_same_core (db : gmap string node) (k : string) (n n' : node) :
  db !! k = Some n -> core n' = core n ->
  Inv db -> Inv (<[k := n']> db).
Proof.
  intros Hk Hcore [Hwf Hbody Hsize Hcov].
  unfold core in Hcore. injection Hcore as Hp Hb Hs Hc.
  assert (Hbodies : _body <$> <[k := n']> db = _body <$> db)
    by (eapply fmap_insert_same; eassumption).
  assert (Hlook : forall g m, <[k := n']> db !! g = Some m ->
            exists m0, db !! g = Some m0 /\ _body m = _body m0 /\
                       _size m = _size m0 /\ _coverage m = _coverage m0).
  { intros g m. destruct (decide (k = g)) as [<-|Hne].
    - rewrite lookup_insert_eq. intros [= <-]. eauto.
    - rewrite lookup_insert_ne by exact Hne. eauto. }
  split.
  - eapply wf_db_links; [|exact Hwf]. eapply fmap_insert_same; eassumption.
  - intros g m Hg. destruct (Hlook g m Hg) as (m0 & Hm0 & -> & _). eauto.
  - intros g m Hg. destruct (Hlook g m Hg) as (m0 & Hm0 & -> & -> & _).
    rewrite Hbodies. eauto.
  - intros g m Hg. destruct (Hlook g m Hg) as (m0 & Hm0 & _ & _ & ->).
    rewrite Hbodies. eauto.
Qed.

(** A sampling event of the object [k]: its body changes, and the delta
    [delta] is added to the coverage of its ancestors. *)
Lemma Inv_sample (db : gmap string node) (k : string) (n n' : node) (delta : Z) :
  Inv db -> db !! k = Some n ->
  _parent n' = _parent n -> _size n' = _size n -> _coverage n' = _coverage n ->
  body_ok (_body n') ->
  cap (_body n') = cap (_body n) ->
  lo (_body n') <= lo (_body n) + delta ->
  hi (_body n) + delta <= hi (_body n') ->
  Inv (bump (add_coverage delta) (ancestors k) (<[k := n']> db)).
Proof.
  intros [Hwf Hbody Hsize Hcov] Hk Hp Hs Hc Hok Hcap Hlo Hhi.
  set (db' := bump _ _ _).
  assert (Hbodies : _body <$> db' = <[k := _body n']> (_body <$> db)).
  { unfold db'. rewrite fmap_bump by reflexivity. apply fmap_insert. }
  assert (Hkb : (_body <$> db) !! k = Some (_body n))
    by (rewrite lookup_fmap, Hk; reflexivity).
  assert (Hlook : forall g m, db' !! g = Some m ->
            exists m0, db !! g = Some m0 /\
              body_ok (_body m) /\
              cap (_body m) = cap (_body m0) /\
              _size m = _size m0 /\
              _coverage m = _coverage m0
                + (if bool_decide (g ∈ ancestors k) then delta else 0)).
  { intros g m. unfold db'. rewrite lookup_bump by apply NoDup_ancestors.
    destruct (decide (k = g)) as [<-|Hne].
    - rewrite lookup_insert_eq.
      rewrite (bool_decide_eq_false_2 _ (not_own_ancestor k)).
      cbn. intros [= <-]. exists n. rewrite Hs, Hc, Hcap. repeat split; auto; lia.
    - rewrite lookup_insert_ne by exact Hne.
      destruct (db !! g) as [m0|] eqn:Hm0; [|discriminate].
      cbn. intros [= <-]. exists m0.
      destruct (bool_decide (g ∈ ancestors k)); cbn;
        repeat split; eauto; lia. }
  split.
  - eapply wf_db_links; [|exact Hwf]. unfold db'.
    rewrite fmap_bump by reflexivity. eapply fmap_insert_same; eassumption.
  - intros g m Hg. destruct (Hlook g m Hg) as (m0 & _ & H & _). exact H.
  - intros g m Hg. destruct (Hlook g m Hg) as (m0 & Hm0 & _ & -> & -> & _).
    rewrite Hbodies, (desc_sum_insert _ _ _ _ _ _ Hkb), Hcap.
    specialize (Hsize g m0 Hm0).
    destruct (bool_decide (g ∈ ancestors k)); lia.
  - intros g m Hg. destruct (Hlook g m Hg) as (m0 & Hm0 & _ & _ & _ & ->).
    rewrite Hbodies, !(desc_sum_insert _ _ _ _ _ _ Hkb).
    specialize (Hcov g m0 Hm0).
    destruct (bool_decide (g ∈ ancestors k)); lia.
Qed.

(** Registering a fresh object that has no bins yet. *)
Lemma Inv_fresh (db : gmap string node) (k : string) (parent : option string)
    (b : body) :
  Inv db -> db !! k = None ->
  (if contains_dot k
   then parent = Some (parent_name k) /\ is_Some (db !! parent_name k)
   else parent = None) ->
  body_ok b -> cap b = 0 -> lo b = 0 -> hi b = 0 ->
  Inv (<[k := fresh_node k parent b]> db).
Proof.
  intros [Hwf Hbody Hsize Hcov] Hk Hpar Hok Hcap Hlo Hhi.
  assert (Hkb : (_body <$> db) !! k = None) by (rewrite lookup_fmap, Hk; reflexivity).
  assert (Hnone : forall f, desc_sum f (_body <$> db) k = 0).
  { intros f. apply desc_sum_no_descendant. intros j Hj.
    apply (wf_no_descendant db k Hwf Hk).
    rewrite lookup_fmap in Hj. destruct (db !! j); [eauto|destruct Hj; discriminate]. }
  assert (Hsum : forall f g, f b = 0 ->
            desc_sum f (_body <$> <[k := fresh_node k parent b]> db) g
            = desc_sum f (_body <$> db) g).
  { intros f g Hf. rewrite fmap_insert, desc_sum_insert_fresh by exact Hkb.
    cbn. rewrite Hf. destruct (bool_decide (g ∈ ancestors k)); lia. }
  split.
  - intros j m. destruct (decide (k = j)) as [<-|Hne].
    + rewrite lookup_insert_eq. intros [= <-]. cbn.
      destruct (contains_dot k) eqn:Hdot; [|exact Hpar].
      destruct Hpar as [-> Hreg]. split; [reflexivity|].
      rewrite lookup_insert_ne; [exact Hreg|].
      intros E. pose proof (parent_name_shorter _ Hdot) as Hlt.
      rewrite <- E in Hlt. lia.
    + rewrite lookup_insert_ne by exact Hne. intros Hj.
      specialize (Hwf j m Hj). destruct (contains_dot j); [|exact Hwf].
      destruct Hwf as [? [x Hx]]. split; [assumption|].
      destruct (decide (k = parent_name j)) as [<-|Hne'].
      * rewrite lookup_insert_eq. eauto.
      * rewrite lookup_insert_ne by exact Hne'. eauto.
  - intros j m. destruct (decide (k = j)) as [<-|Hne].
    + rewrite lookup_insert_eq. intros [= <-]. exact Hok.
    + rewrite lookup_insert_ne by exact Hne. apply Hbody.
  - intros j m. rewrite (Hsum cap j Hcap).
    destruct (decide (k = j)) as [<-|Hne].
    + rewrite lookup_insert_eq. intros [= <-]. cbn. rewrite Hcap, Hnone. lia.
    + rewrite lookup_insert_ne by exact Hne. apply Hsize.
  - intros j m. rewrite (Hsum lo j Hlo), (Hsum hi j Hhi).
    destruct (decide (k = j)) as [<-|Hne].
    + rewrite lookup_insert_eq. intros [= <-]. cbn. rewrite !Hnone. lia.
    + rewrite lookup_insert_ne by exact Hne. apply Hcov.
Qed.

(** Giving its bins to an object that has no descendant: its size is set,
    and added to the size of its ancestors. *)
Lemma Inv_leaf (db : gmap string node) (k : string) (n n' : node) (sz : Z) :
  Inv db -> db !! k = Some n ->
  (forall j, is_Some (db !! j) -> k ∉ ancestors j) ->
  cap (_body n) = 0 -> lo (_body n) = 0 -> hi (_body n) = 0 ->
  _parent n' = _parent n -> _coverage n' = _coverage n -> _size n' = sz ->
  body_ok (_body n') ->
  cap (_body n') <= sz -> lo (_body n') = 0 -> hi (_body n') = 0 ->
  Inv (bump (add_size sz) (ancestors k) (<[k := n']> db)).
Proof.
  intros [Hwf Hbody Hsize Hcov] Hk Hleaf Hcap0 Hlo0 Hhi0 Hp Hc Hs Hok Hcap Hlo Hhi.
  set (db' := bump _ _ _).
  assert (Hbodies : _body <$> db' = <[k := _body n']> (_body <$> db)).
  { unfold db'. rewrite fmap_bump by reflexivity. apply fmap_insert. }
  assert (Hkb : (_body <$> db) !! k = Some (_body n))
    by (rewrite lookup_fmap, Hk; reflexivity).
  assert (Hnone : desc_sum cap (_body <$> db) k = 0).
  { apply desc_sum_no_descendant. intros j Hj. apply Hleaf.
    rewrite lookup_fmap in Hj. destruct (db !! j); [eauto|destruct Hj; discriminate]. }
  assert (Hlook : forall g m, db' !! g = Some m ->
            (g = k /\ _body m = _body n' /\ _size m = sz /\ _coverage m = _coverage n) \/
            (g <> k /\ exists m0, db !! g = Some m0 /\ _body m = _body m0 /\
               _coverage m = _coverage m0 /\
               _size m = _size m0
                 + (if bool_decide (g ∈ ancestors k) then sz else 0))).
  { intros g m. unfold db'. rewrite lookup_bump by apply NoDup_ancestors.
    destruct (decide (k = g)) as [<-|Hne].
    - rewrite lookup_insert_eq.
      rewrite (bool_decide_eq_false_2 _ (not_own_ancestor k)).
      cbn. intros [= <-]. left. auto.
    - rewrite lookup_insert_ne by exact Hne.
      destruct (db !! g) as [m0|] eqn:Hm0; [|discriminate].
      cbn. intros [= <-]. right. split; [congruence|]. exists m0.
      destruct (bool_decide (g ∈ ancestors k)); cbn;
        repeat split; eauto; lia. }
  split.
  - eapply wf_db_links; [|exact Hwf]. unfold db'.
    rewrite fmap_bump by reflexivity. eapply fmap_insert_same; eassumption.
  - intros g m Hg.
    destruct (Hlook g m Hg) as [(-> & -> & _)|(_ & m0 & Hm0 & -> & _)]; eauto.
  - intros g m Hg. rewrite Hbodies, (desc_sum_insert _ _ _ _ _ _ Hkb), Hcap0.
    destruct (Hlook g m Hg) as [(-> & -> & -> & _)|(_ & m0 & Hm0 & -> & _ & ->)].
    + rewrite Hnone, (bool_decide_eq_false_2 _ (not_own_ancestor k)). lia.
    + specialize (Hsize g m0 Hm0).
      destruct (bool_decide (g ∈ ancestors k)); lia.
  - intros g m Hg. rewrite Hbodies, !(desc_sum_insert _ _ _ _ _ _ Hkb).
    rewrite Hlo, Hhi, Hlo0, Hhi0.
    assert (Hsame : desc_sum lo (_body <$> db) g <= _coverage m
                    <= desc_sum hi (_body <$> db) g).
    { destruct (Hlook g m Hg) as [(-> & _ & _ & ->)|(_ & m0 & Hm0 & _ & -> & _)];
        eauto. }
    destruct (bool_decide (g ∈ ancestors k)); lia.
Qed.

(** ** The registry after the methods of [CoverItem] *)

Lemma exec_bind_Ret {A B} (m : M A) (k : A -> M B) (s s' : state) (a : A) :
  m s = (Ret a, s') -> exec (bind m k) s = exec (k a) s'.
Proof. intros H. unfold exec. rewrite (bind_Ret _ _ _ _ _ H). reflexivity. Qed.

Lemma exec_bind_Raise {A B} (m : M A) (k : A -> M B) (s s' : state) (e : exn) :
  m s = (Raise e, s') -> exec (bind m k) s = s'.
Proof. intros H. unfold exec. rewrite (bind_Raise _ _ _ _ _ H). reflexivity. Qed.


Lemma keeps_db_bind {A B} (m : M A) (k : A -> M B) :
  keeps_db m -> (forall a, keeps_db (k a)) -> keeps_db (bind m k).
Proof.
  intros Hm Hk s. specialize (Hm s). unfold exec in *.
  unfold bind. destruct (m s) as [[a|e] s1]; cbn in *.
  - rewrite <- Hm. apply Hk.
  - exact Hm.
Qed.

Lemma keeps_db_ret {A} (a : A) : keeps_db (ret a).
Proof. intros s. reflexivity. Qed.

Lemma keeps_db_raise {A} (e : exn) : keeps_db (@raise A e).
Proof. intros s. reflexivity. Qed.

Lemma keeps_db_lift {A} (o : outcome A) : keeps_db (lift o).
Proof. intros s. reflexivity. Qed.

Lemma keeps_db_call (cb : callback) : keeps_db (call cb).
Proof. intros s. reflexivity. Qed.

Lemma keeps_db_lookup_node (name : string) : keeps_db (lookup_node name).
Proof.
  intros s. unfold exec, lookup_node, bind, get_db. cbn.
  destruct (coverage_db s !! name); reflexivity.
Qed.

Lemma keeps_db_call_all (cbs : list callback) : keeps_db (call_all cbs).
Proof.
  induction cbs as [|cb cbs IH]; cbn [call_all].
  - apply keeps_db_ret.
  - apply keeps_db_bind; [apply keeps_db_call | intros _; exact IH].
Qed.

Lemma keeps_db_notify (cbs : list (Z * callback)) (cur sz : Z) (now : outcome Q) :
  keeps_db (notify_thresholds cbs cur sz now).
Proof.
  induction cbs as [|[ii cb] cbs IH]; cbn [notify_thresholds].
  - apply keeps_db_ret.
  - apply keeps_db_bind; [apply keeps_db_lift|]. intros before.
    apply keeps_db_bind; [|intros _; exact IH].
    destruct (Qlt_bool before (inject_Z ii)); [|apply keeps_db_ret].
    apply keeps_db_bind; [apply keeps_db_lift|]. intros after.
    destruct (Qle_bool (inject_Z ii) after);
      [apply keeps_db_call | apply keeps_db_ret].
Qed.

Lemma wf_parent (db : gmap string node) (k : string) (n : node) :
  wf_db db -> db !! k = Some n ->
  _parent n = (if contains_dot k then Some (parent_name k) else None).
Proof.
  intros Hwf Hk. specialize (Hwf k n Hk).
  destruct (contains_dot k); [apply Hwf | exact Hwf].
Qed.

Lemma wf_db_alter (db : gmap string node) (k : string) (f : node -> node) :
  (forall n, _parent (f n) = _parent n) -> wf_db db -> wf_db (alter f k db).
Proof.
  intros Hf. apply wf_db_links. rewrite (fmap_alter _parent f id) by (intros; apply Hf).
  apply alter_id. reflexivity.
Qed.

Lemma bump_cons (f : node -> node) (p : string) (names : list string)
    (db : gmap string node) :
  bump f (p :: names) db = bump f names (alter f p db).
Proof. reflexivity. Qed.

(** [_update_coverage] adds the delta to the coverage of the object and of
    all its ancestors, whether or not a threshold test raises on the way
    back. *)
Lemma update_coverage_db (fuel : nat) :
  forall (p : string) (delta : Z) (s : state),
    wf_db (coverage_db s) -> is_Some (coverage_db s !! p) ->
    (String.length p <= fuel)%nat ->
    coverage_db (exec (_update_coverage fuel p delta) s)
    = bump (add_coverage delta) (p :: ancestors p) (coverage_db s).
Proof.
  induction fuel as [fuel IH] using lt_wf_ind.
  intros p delta s Hwf [n Hn] Hlen.
  pose proof (wf_parent _ _ _ Hwf Hn) as Hpar.
  assert (Hkeep : forall u : unit, keeps_db
            (n' <- lookup_node p ;;
             notify_thresholds (_threshold_callbacks n') (_coverage n)
                               (size n') (cover_percentage n'))).
  { intros _. apply keeps_db_bind; [apply keeps_db_lookup_node|].
    intros n'. apply keeps_db_notify. }
  destruct fuel as [|f]; cbn [_update_coverage];
    rewrite (exec_bind_Ret _ _ _ _ _ (lookup_node_Some _ _ _ Hn));
    rewrite (exec_bind_Ret _ _ _ _ _ (modify_node_Some _ _ _ _ Hn));
    rewrite bump_cons, <- (insert_eq_alter _ _ _ _ Hn);
    set (s1 := mkState _ _);
    rewrite Hpar; destruct (contains_dot p) eqn:Hdot;
    try (pose proof (parent_name_shorter _ Hdot); lia);
    try (rewrite (ancestors_no_dot _ Hdot); cbn [bump fold_left];
         assert (Hret : @ret unit tt s1 = (Ret tt, s1)) by reflexivity;
         rewrite (exec_bind_Ret _ _ _ _ _ Hret);
         apply (Hkeep tt)).
  pose proof (parent_name_shorter _ Hdot) as Hlt.
  assert (Hrec : coverage_db (exec (_update_coverage f (parent_name p) delta) s1)
                 = bump (add_coverage delta)
                     (parent_name p :: ancestors (parent_name p))
                     (coverage_db s1)).
  { apply IH; [lia| | |lia].
    - unfold s1. cbn. rewrite (insert_eq_alter _ _ _ _ Hn).
      apply wf_db_alter; [reflexivity|exact Hwf].
    - unfold s1. cbn.
      destruct (decide (p = parent_name p)) as [E|Hne];
        [rewrite <- E in Hlt; lia|].
      rewrite lookup_insert_ne by exact Hne.
      specialize (Hwf p n Hn). rewrite Hdot in Hwf. apply Hwf. }
  rewrite (ancestors_dot _ Hdot).
  unfold exec in *.
  destruct (_update_coverage f (parent_name p) delta s1) as [[[]|e] s2] eqn:Hrun;
    unfold s1 in Hrec; cbn [snd coverage_db] in Hrec.
  - rewrite (bind_Ret _ _ _ _ _ Hrun).
    transitivity (coverage_db s2); [apply (Hkeep tt) | exact Hrec].
  - rewrite (bind_Raise _ _ _ _ _ Hrun). exact Hrec.
Qed.

(** [_update_size] returns, having added the size to the object and to all
    its ancestors. *)
Lemma update_size_run (fuel : nat) :
  forall (p : string) (sz : Z) (s : state),
    wf_db (coverage_db s) -> is_Some (coverage_db s !! p) ->
    (String.length p <= fuel)%nat ->
    _update_size fuel p sz s
    = (Ret tt, mkState (bump (add_size sz) (p :: ancestors p) (coverage_db s))
                       (fired s)).
Proof.
  induction fuel as [fuel IH] using lt_wf_ind.
  intros p sz s Hwf [n Hn] Hlen.
  pose proof (wf_parent _ _ _ Hwf Hn) as Hpar.
  destruct fuel as [|f]; cbn [_update_size];
    rewrite (bind_Ret _ _ _ _ _ (modify_node_Some _ _ _ _ Hn));
    (erewrite bind_Ret by (apply lookup_node_Some; apply lookup_insert_eq));
    rewrite bump_cons, <- (insert_eq_alter _ _ _ _ Hn);
    change (_parent (set_size (fun s0 => s0 + sz) n)) with (_parent n);
    rewrite Hpar; destruct (contains_dot p) eqn:Hdot;
    try (pose proof (parent_name_shorter _ Hdot); lia);
    try (rewrite (ancestors_no_dot _ Hdot); reflexivity).
  pose proof (parent_name_shorter _ Hdot) as Hlt.
  rewrite (ancestors_dot _ Hdot). rewrite IH; [reflexivity|lia| | |lia].
  - cbn. rewrite (insert_eq_alter _ _ _ _ Hn).
    apply wf_db_alter; [reflexivity|exact Hwf].
  - cbn. destruct (decide (p = parent_name p)) as [E|Hne];
      [rewrite <- E in Hlt; lia|].
    rewrite lookup_insert_ne by exact Hne.
    specialize (Hwf p n Hn). rewrite Hdot in Hwf. apply Hwf.
Qed.

(** ** The registry after [CoverItem.__init__] *)


Lemma extends_refl (db : gmap string node) : extends db db.
Proof. intros j n Hj. eauto. Qed.

Lemma extends_trans (db1 db2 db3 : gmap string node) :
  extends db1 db2 -> extends db2 db3 -> extends db1 db3.
Proof.
  intros H12 H23 j n Hj. destruct (H12 j n Hj) as (n2 & Hn2 & E2).
  destruct (H23 j n2 Hn2) as (n3 & Hn3 & E3). exists n3. split; congruence.
Qed.

Lemma extends_insert_fresh (db : gmap string node) (k : string) (n : node) :
  db !! k = None -> extends db (<[k := n]> db).
Proof.
  intros Hk j m Hj. exists m. split; [|reflexivity].
  rewrite lookup_insert_ne; [exact Hj|]. intros ->. congruence.
Qed.

Lemma extends_insert_core (db : gmap string node) (k : string) (n n' : node) :
  db !! k = Some n -> core n' = core n -> extends db (<[k := n']> db).
Proof.
  intros Hk Hc j m Hj. destruct (decide (k = j)) as [<-|Hne].
  - exists n'. rewrite lookup_insert_eq. split; congruence.
  - exists m. rewrite lookup_insert_ne by exact Hne. auto.
Qed.

Lemma CoverItem_init_tail (b : body) (name : string) (db0 : gmap string node)
    (log : list callback) :
  Inv db0 -> db0 !! name = None -> contains_dot name = true ->
  is_Some (db0 !! parent_name name) ->
  body_ok b -> cap b = 0 -> lo b = 0 -> hi b = 0 ->
  exists db',
    (modify_node (parent_name name) (set_children (fun c => c ++ [name])) ;;
     db1 <- get_db ;;
     put_db (<[name := fresh_node name (Some (parent_name name)) b]> db1))
      (mkState db0 log)
    = (Ret tt, mkState db' log) /\
    Inv db' /\
    db' !! name = Some (fresh_node name (Some (parent_name name)) b) /\
    extends db0 db' /\
    (forall j, is_Some (db' !! j) -> is_Some (db0 !! j) \/ j = name).
Proof.
  intros Hinv Hnew Hdot [mq Hq] Hok Hcap Hlo Hhi.
  set (q := parent_name name) in *.
  set (mq' := set_children (fun c => c ++ [name]) mq).
  assert (Hne : q <> name) by (intros E; rewrite E in Hq; congruence).
  assert (Hinv1 : Inv (<[q := mq']> db0))
    by (apply (Inv_same_core _ _ mq); [exact Hq|reflexivity|exact Hinv]).
  assert (Hnew1 : <[q := mq']> db0 !! name = None)
    by (rewrite lookup_insert_ne by exact Hne; exact Hnew).
  exists (<[name := fresh_node name (Some q) b]> (<[q := mq']> db0)).
  split; [|split; [|split; [|split]]].
  - rewrite (bind_Ret _ _ _ _ _ (modify_node_Some _ _ (mkState db0 log) _ Hq)).
    reflexivity.
  - apply Inv_fresh; try assumption.
    rewrite Hdot. split; [reflexivity|]. fold q. rewrite lookup_insert_eq. eauto.
  - apply lookup_insert_eq.
  - eapply extends_trans.
    + apply (extends_insert_core _ _ _ mq' Hq). reflexivity.
    + apply extends_insert_fresh. exact Hnew1.
  - intros j. destruct (decide (name = j)) as [<-|Hnj]; [auto|].
    rewrite lookup_insert_ne by exact Hnj.
    destruct (decide (q = j)) as [<-|Hqj]; [eauto|].
    rewrite lookup_insert_ne by exact Hqj. auto.
Qed.

Lemma CoverItem_init_run (fuel : nat) :
  forall (b : body) (name : string) (s : state),
    Inv (coverage_db s) -> coverage_db s !! name = None ->
    (String.length name <= fuel)%nat ->
    body_ok b -> cap b = 0 -> lo b = 0 -> hi b = 0 ->
    exists db',
      CoverItem_init fuel b name s = (Ret tt, mkState db' (fired s)) /\
      Inv db' /\
      db' !! name
      = Some (fresh_node name
                (if contains_dot name then Some (parent_name name) else None) b) /\
      extends (coverage_db s) db' /\
      (forall j, is_Some (db' !! j) ->
                 is_Some (coverage_db s !! j) \/ j = name \/ j ∈ ancestors name).
Proof.
  induction fuel as [fuel IH] using lt_wf_ind.
  intros b name s Hinv Hnew Hlen Hok Hcap Hlo Hhi.
  destruct (contains_dot name) eqn:Hdot.
  - pose proof (parent_name_shorter _ Hdot) as Hlt.
    assert (Hens : exists db0,
      (match coverage_db s !! parent_name name with
       | Some _ => ret tt
       | None => match fuel with
                 | O => raise FuelExhausted
                 | S fuel' => CoverItem_init fuel' Item (parent_name name)
                 end
       end) s = (Ret tt, mkState db0 (fired s)) /\
      Inv db0 /\ db0 !! name = None /\ is_Some (db0 !! parent_name name) /\
      extends (coverage_db s) db0 /\
      (forall j, is_Some (db0 !! j) ->
                 is_Some (coverage_db s !! j) \/ j ∈ ancestors name)).
    { destruct (coverage_db s !! parent_name name) as [mq|] eqn:Hq.
      - exists (coverage_db s). rewrite state_eta.
        split; [reflexivity|]. split; [exact Hinv|]. split; [exact Hnew|].
        split; [rewrite Hq; eauto|]. split; [apply extends_refl|]. auto.
      - destruct fuel as [|f]; [lia|].
        destruct (IH f (Nat.lt_succ_diag_r f) Item (parent_name name) s)
          as (db0 & Hrun & Hinv0 & Hq0 & Hext & Hdom);
          [assumption|assumption|lia|exact I|reflexivity..|].
        exists db0. split; [exact Hrun|]. split; [exact Hinv0|].
        rewrite (ancestors_dot _ Hdot).
        split; [|split; [eauto|split; [exact Hext|]]].
        + destruct (db0 !! name) as [m|] eqn:Hm; [|reflexivity].
          destruct (Hdom name (ltac:(eauto))) as [[x Hx]|[E|Hin]].
          * congruence.
          * rewrite <- E in Hlt. lia.
          * apply ancestors_shorter in Hin. lia.
        + intros j Hj. destruct (Hdom j Hj) as [?|[->|?]]; [auto|right..].
          * left.
          * right. assumption. }
    destruct Hens as (db0 & Hrun0 & Hinv0 & Hnew0 & Hq0 & Hext0 & Hdom0).
    destruct (CoverItem_init_tail b name db0 (fired s) Hinv0 Hnew0 Hdot Hq0
                Hok Hcap Hlo Hhi) as (db' & Hrun & Hinv' & Hname & Hext & Hdom).
    exists db'. split; [|split; [exact Hinv'|split; [exact Hname|split]]].
    + destruct fuel as [|f]; cbn [CoverItem_init]; rewrite Hdot;
        rewrite (bind_Ret _ _ _ _ _ (get_db_run s));
        rewrite (bind_Ret _ _ _ _ _ Hrun0); exact Hrun.
    + eapply extends_trans; eassumption.
    + intros j Hj. destruct (Hdom j Hj) as [Hj0| ->]; [|auto].
      destruct (Hdom0 j Hj0); auto.
  - exists (<[name := fresh_node name None b]> (coverage_db s)).
    split; [|split; [|split; [|split]]].
    + destruct fuel as [|f]; cbn [CoverItem_init]; rewrite Hdot; reflexivity.
    + apply Inv_fresh; try assumption. rewrite Hdot. reflexivity.
    + apply lookup_insert_eq.
    + apply extends_insert_fresh. exact Hnew.
    + intros j. destruct (decide (name = j)) as [<-|Hnj]; [auto|].
      rewrite lookup_insert_ne by exact Hnj. auto.
Qed.

(** ** Fresh hit dictionaries *)

Lemma dset_length {K V} (eqb : K -> K -> bool) (d : list (K * V)) (k : K) (v : V) :
  (length (dset eqb d k v) <= S (length d))%nat.
Proof.
  induction d as [|[k' v'] d IH]; cbn [dset length]; [lia|].
  destruct (eqb k' k); cbn [length]; lia.
Qed.

Lemma dset_Forall {K V} (eqb : K -> K -> bool) (P : K * V -> Prop)
    (d : list (K * V)) (k : K) (v : V) :
  (forall k', P (k', v)) -> Forall P d -> Forall P (dset eqb d k v).
Proof.
  intros Hv. induction 1 as [|[k' v'] d Hx Hd IH]; cbn [dset].
  - constructor; [apply Hv|constructor].
  - destruct (eqb k' k); constructor; auto.
Qed.

Lemma fold_dset_length {K V} (eqb : K -> K -> bool) (ks : list K) (v : V)
    (d : list (K * V)) :
  (length (fold_left (fun d k => dset eqb d k v) ks d) <= length d + length ks)%nat.
Proof.
  revert d. induction ks as [|k ks IH]; intros d; cbn [fold_left length]; [lia|].
  specialize (IH (dset eqb d k v)). pose proof (dset_length eqb d k v). lia.
Qed.

Lemma fold_dset_Forall {K V} (eqb : K -> K -> bool) (P : K * V -> Prop)
    (ks : list K) (v : V) (d : list (K * V)) :
  (forall k', P (k', v)) -> Forall P d ->
  Forall P (fold_left (fun d k => dset eqb d k v) ks d).
Proof.
  intros Hv. revert d. induction ks as [|k ks IH]; intros d Hd; cbn [fold_left].
  - exact Hd.
  - apply IH. apply dset_Forall; assumption.
Qed.

Lemma fromkeys_length {K V} (eqb : K -> K -> bool) (ks : list K) (v : V) :
  (length (fromkeys eqb ks v) <= length ks)%nat.
Proof. unfold fromkeys. pose proof (fold_dset_length eqb ks v []). simpl in *. lia. Qed.

Lemma fromkeys_Forall {K V} (eqb : K -> K -> bool) (P : K * V -> Prop)
    (ks : list K) (v : V) :
  (forall k', P (k', v)) -> Forall P (fromkeys eqb ks v).
Proof. intros Hv. apply fold_dset_Forall; [exact Hv|constructor]. Qed.

Lemma unsat_all_zero (at_least : Z) (hits : list (pyval * Z)) :
  0 < at_least -> Forall (fun kv : pyval * Z => snd kv = 0) hits ->
  unsat at_least hits = Z.of_nat (length hits).
Proof.
  intros Hal Hz. unfold unsat. f_equal.
  induction Hz as [|[k v] hits Hv _ IH]; [reflexivity|].
  simpl in Hv. rewrite filter_cons_True by (simpl; lia).
  cbn [length]. rewrite IH. reflexivity.
Qed.

Lemma Forall_zero_nonneg (hits : list (pyval * Z)) :
  Forall (fun kv : pyval * Z => snd kv = 0) hits ->
  Forall (fun kv : pyval * Z => 0 <= snd kv) hits.
Proof.
  intros H. eapply Forall_impl; [exact H|].
  intros kv Hkv. simpl in Hkv. rewrite Hkv. lia.
Qed.

(** A point or a cross that has just been built reports nothing. *)
Lemma lo_all_zero (weight at_least : Z) (hits : list (pyval * Z)) :
  Forall (fun kv : pyval * Z => snd kv = 0) hits ->
  (if 0 <? at_least
   then weight * (Z.of_nat (length hits) - unsat at_least hits) else 0) = 0.
Proof.
  intros Hz. destruct (Z.ltb_spec 0 at_least) as [Hpos|Hneg]; [|reflexivity].
  rewrite unsat_all_zero by assumption. lia.
Qed.

(** ** The registry after the constructors *)

Lemma no_descendant_after_init (db db1 : gmap string node) (name : string) :
  wf_db db -> db !! name = None ->
  (forall j, is_Some (db1 !! j) ->
             is_Some (db !! j) \/ j = name \/ j ∈ ancestors name) ->
  forall j, is_Some (db1 !! j) -> name ∉ ancestors j.
Proof.
  intros Hwf Hnew Hdom j Hj Hin.
  destruct (Hdom j Hj) as [Hj0|[->|Hanc]].
  - exact (wf_no_descendant db name Hwf Hnew j Hj0 Hin).
  - exact (not_own_ancestor _ Hin).
  - apply ancestors_shorter in Hin, Hanc. lia.
Qed.

(** The end of the three constructors: the object [name], registered
    without bins, gets its bins and its size, and the size goes up the
    hierarchy. *)
Lemma leaf_registered (db1 : gmap string node) (log : list callback)
    (name : string) (n n' : node) (sz : Z) :
  Inv db1 -> db1 !! name = Some n -> contains_dot name = true ->
  (forall j, is_Some (db1 !! j) -> name ∉ ancestors j) ->
  cap (_body n) = 0 -> lo (_body n) = 0 -> hi (_body n) = 0 ->
  _parent n' = _parent n -> _coverage n' = _coverage n -> _size n' = sz ->
  body_ok (_body n') ->
  cap (_body n') <= sz -> lo (_body n') = 0 -> hi (_body n') = 0 ->
  exists db3,
    parent_update_size n sz (mkState (<[name := n']> db1) log)
    = (Ret tt, mkState db3 log) /\
    Inv db3 /\ is_Some (db3 !! name).
Proof.
  intros Hinv Hn Hdot Hleaf Hc0 Hl0 Hh0 Hp Hc Hs Hok Hcap Hlo Hhi.
  pose proof (inv_wf _ Hinv) as Hwf.
  pose proof (Hwf name n Hn) as Hw. rewrite Hdot in Hw. destruct Hw as [Hpar Hq].
  set (q := parent_name name) in *.
  assert (Hne : name <> q).
  { intros E. pose proof (parent_name_shorter _ Hdot) as Hlt. fold q in Hlt.
    rewrite <- E in Hlt. lia. }
  exists (bump (add_size sz) (ancestors name) (<[name := n']> db1)).
  split; [|split].
  - unfold parent_update_size. rewrite Hpar.
    rewrite update_size_run; [|
      cbn [coverage_db]; eapply wf_db_links; [|exact Hwf];
      eapply fmap_insert_same; eassumption |
      cbn [coverage_db]; rewrite lookup_insert_ne by exact Hne; exact Hq | lia].
    cbn [coverage_db fired]. rewrite (ancestors_dot _ Hdot). reflexivity.
  - eapply Inv_leaf; eassumption.
  - rewrite lookup_bump by apply NoDup_ancestors.
    rewrite lookup_insert_eq. cbn. eauto.
Qed.

(** ** Cross-bins and ignore patterns of admissible length *)

Lemma product_length (ls : list (list pyval)) (t : list pyval) :
  In t (product ls) -> length t = length ls.
Proof.
  revert t. induction ls as [|l ls IH]; intros t; cbn [product].
  - intros [<-|[]]. reflexivity.
  - rewrite in_flat_map. intros (x & _ & Ht).
    apply in_map_iff in Ht as (t' & <- & Ht'). cbn [length].
    rewrite (IH _ Ht'). reflexivity.
Qed.

Lemma dset_keys {K V} (eqb : K -> K -> bool) (d : list (K * V)) (k0 k : K) (v : V) :
  In k (dkeys (dset eqb d k0 v)) -> In k (dkeys d) \/ k = k0.
Proof.
  unfold dkeys. induction d as [|[k' v'] d IH]; cbn [dset map fst In].
  - intros [<-|[]]. auto.
  - destruct (eqb k' k0); cbn [map fst In]; tauto.
Qed.

Lemma fold_dset_keys {K V} (eqb : K -> K -> bool) (ks : list K) (v : V)
    (d : list (K * V)) (k : K) :
  In k (dkeys (fold_left (fun d k => dset eqb d k v) ks d)) ->
  In k (dkeys d) \/ In k ks.
Proof.
  revert d. induction ks as [|k0 ks IH]; intros d; cbn [fold_left In]; [auto|].
  intros H. destruct (IH _ H) as [H'|H']; [|auto].
  apply dset_keys in H'. destruct H' as [?| ->]; auto.
Qed.

Lemma fromkeys_keys {K V} (eqb : K -> K -> bool) (ks : list K) (v : V) (k : K) :
  In k (dkeys (fromkeys eqb ks v)) -> In k ks.
Proof. intros H. apply fold_dset_keys in H as [[]|H]. exact H. Qed.

Lemma scan_pattern_returns (pat xs : list pyval) (remove : bool) :
  (length xs <= length pat)%nat -> exists r, scan_pattern pat xs remove = Ret r.
Proof.
  revert pat remove. induction xs as [|x xs IH]; intros pat remove Hlen;
    cbn [scan_pattern].
  - eauto.
  - destruct pat as [|i pat]; cbn [length] in Hlen; [lia|].
    apply IH. lia.
Qed.

Lemma ignore_one_no_stop (ign : list (list pyval)) (xs : list pyval)
    (hits : list (pyval * Z)) :
  (forall pat, In pat ign -> (length xs <= length pat)%nat) ->
  snd (ignore_one ign (PTuple xs) hits) = None.
Proof.
  revert hits. induction ign as [|pat ign IH]; intros hits Hlen;
    cbn [ignore_one]; [reflexivity|].
  destruct (scan_pattern_returns pat xs true (Hlen pat (or_introl eq_refl)))
    as [r ->].
  apply IH. intros p Hp. apply Hlen. right. exact Hp.
Qed.

Lemma ignore_loop_no_stop (ign : list (list pyval)) (keys : list pyval)
    (hits : list (pyval * Z)) :
  (forall k, In k keys ->
     exists xs, k = PTuple xs /\
                forall pat, In pat ign -> (length xs <= length pat)%nat) ->
  snd (ignore_loop ign keys hits) = None.
Proof.
  revert hits. induction keys as [|k keys IH]; intros hits Hkeys;
    cbn [ignore_loop]; [reflexivity|].
  destruct (Hkeys k (or_introl eq_refl)) as (xs & -> & Hlen).
  pose proof (ignore_one_no_stop ign xs hits Hlen) as Hone.
  destruct (ignore_one ign (PTuple xs) hits) as [h1 o]. cbn in Hone. subst o.
  apply IH. intros k Hk. apply Hkeys. right. exact Hk.
Qed.

Lemma ignore_loop_sublist (ign : list (list pyval)) (keys : list pyval)
    (hits hits' : list (pyval * Z)) (o : option exn) :
  ignore_loop ign keys hits = (hits', o) -> hits' `sublist_of` hits.
Proof.
  revert hits. induction keys as [|k keys IH]; intros hits H; cbn [ignore_loop] in H.
  - inversion H. reflexivity.
  - destruct (ignore_one ign k hits) as [h1 [e|]] eqn:Hone.
    + inversion H. subst. eapply ignore_one_sublist. exact Hone.
    + etransitivity; [apply IH; exact H|]. eapply ignore_one_sublist. exact Hone.
Qed.

Lemma Forall_sublist {A} (P : A -> Prop) (l1 l2 : list A) :
  l1 `sublist_of` l2 -> Forall P l2 -> Forall P l1.
Proof.
  induction 1 as [|x l1 l2 _ IH|x l1 l2 _ IH]; intros H.
  - constructor.
  - inversion H; subst. constructor; auto.
  - inversion H; subst. auto.
Qed.

Lemma bins_lists_length (db : gmap string node) (items : list string)
    (ls : list (list pyval)) :
  bins_lists db items = Ret ls -> length ls = length items.
Proof.
  revert ls. induction items as [|cp items IH]; intros ls; cbn [bins_lists].
  - intros [= <-]. reflexivity.
  - destruct (db !! cp) as [n|]; [|discriminate].
    destruct (detailed_coverage n); [|discriminate].
    destruct (bins_lists db items) as [ls'|]; [|discriminate].
    intros [= <-]. cbn [length]. rewrite (IH ls' eq_refl). reflexivity.
Qed.

(** The bins a cross starts with, and the loop that filters them. *)
Lemma cross_bins_filtered (ign_bins : list (list pyval)) (ls : list (list pyval))
    (n_items : nat) :
  length ls = n_items ->
  Forall (fun pat : list pyval => (n_items <= length pat)%nat) ign_bins ->
  let hits := fromkeys py_eqb (map PTuple (product ls)) 0 in
  exists hits',
    ignore_loop ign_bins (dkeys hits) hits = (hits', None) /\
    Forall (fun kv : pyval * Z => snd kv = 0) hits'.
Proof.
  intros Hlen Hpat hits.
  destruct (ignore_loop ign_bins (dkeys hits) hits) as [hits' o] eqn:Hloop.
  assert (Ho : snd (ignore_loop ign_bins (dkeys hits) hits) = None).
  { apply ignore_loop_no_stop. intros k Hk.
    apply fromkeys_keys in Hk. apply in_map_iff in Hk as (t & <- & Ht).
    exists t. split; [reflexivity|]. intros pat Hp.
    rewrite (product_length _ _ Ht), Hlen.
    rewrite Forall_forall in Hpat. apply Hpat. apply list_elem_of_In. exact Hp. }
  rewrite Hloop in Ho. cbn in Ho. subst o.
  exists hits'. split; [reflexivity|].
  eapply Forall_sublist; [eapply ignore_loop_sublist; exact Hloop|].
  apply fromkeys_Forall. reflexivity.
Qed.

(** ** The invariant after the constructors *)

Lemma exec_then_ret {A B} (m : M A) (b : B) (s : state) :
  exec (m ;; ret b) s = exec m s.
Proof. unfold exec, bind. destruct (m s) as [[a|e] s']; reflexivity. Qed.

Lemma exec_ret {A} (a : A) (s : state) : exec (ret a) s = s.
Proof. reflexivity. Qed.

Lemma exec_raise {A} (e : exn) (s : state) : exec (@raise A e) s = s.
Proof. reflexivity. Qed.

(** What [CoverItem.__init__] gives to the constructor of a primitive. *)
Lemma primitive_registered (c : leaf_class) (name : string) (s : state) :
  Inv (coverage_db s) -> coverage_db s !! name = None ->
  exists db1,
    CoverItem_init (String.length name) (Partial c) name s
    = (Ret tt, mkState db1 (fired s)) /\
    Inv db1 /\
    db1 !! name
    = Some (fresh_node name
              (if contains_dot name then Some (parent_name name) else None)
              (Partial c)) /\
    (forall j, is_Some (db1 !! j) -> name ∉ ancestors j).
Proof.
  intros Hinv Hnew.
  destruct (CoverItem_init_run (String.length name) (Partial c) name s)
    as (db1 & Hrun & Hinv1 & Hname & _ & Hdom);
    [assumption|assumption|lia|exact I|reflexivity..|].
  exists db1. split; [exact Hrun|]. split; [exact Hinv1|]. split; [exact Hname|].
  eapply no_descendant_after_init; [apply inv_wf; exact Hinv|exact Hnew|exact Hdom].
Qed.

Lemma CoverPoint_init_Inv (name : string) (rel : option (pyval -> pyval -> bool))
    (bins : list pyval) (weight at_least : Z) (inj : bool) (s : state) :
  0 <= weight -> Inv (coverage_db s) ->
  Inv (coverage_db (exec (CoverPoint_init name rel bins weight at_least inj) s)).
Proof.
  intros Hw Hinv. unfold CoverPoint_init.
  rewrite (exec_bind_Ret _ _ _ _ _ (get_db_run s)).
  destruct (coverage_db s !! name) as [n0|] eqn:Hnew; [exact Hinv|].
  destruct (primitive_registered PointC name s Hinv Hnew)
    as (db1 & Hrun & Hinv1 & Hname & Hleaf).
  rewrite (exec_bind_Ret _ _ _ _ _ Hrun).
  rewrite (exec_bind_Ret _ _ _ _ _
             (lookup_node_Some name (mkState db1 (fired s)) _ Hname)).
  cbn [_parent fresh_node].
  destruct (contains_dot name) eqn:Hdot; [|exact Hinv1].
  set (self := fresh_node name (Some (parent_name name)) (Partial PointC)) in *.
  assert (Hfin : forall sz hits,
    Forall (fun kv : pyval * Z => snd kv = 0) hits ->
    weight * Z.of_nat (length hits) <= sz ->
    Inv (coverage_db (exec
      (modify_node name
         (fun n => set_body
            (Point match rel with Some r => r | None => py_eqb end
                   weight at_least inj hits)
            (set_size (fun _ => sz) n)) ;;
       parent_update_size self sz ;;
       modify_node name (set_new_hits [])) (mkState db1 (fired s))))).
  { intros sz hits Hz Hcap.
    rewrite (exec_bind_Ret _ _ _ _ _
               (modify_node_Some _ _ (mkState db1 (fired s)) _ Hname)).
    cbn [coverage_db fired].
    match goal with
    | |- context [<[name := ?n']> db1] =>
        destruct (leaf_registered db1 (fired s) name self n' sz)
          as (db3 & Hrun3 & Hinv3 & [n3 Hn3]);
        try assumption; try reflexivity
    end.
    - cbn [body_ok _body set_body]. split; [exact Hw|].
      apply Forall_zero_nonneg. exact Hz.
    - cbn. apply lo_all_zero. exact Hz.
    - cbn. apply lo_all_zero. exact Hz.
    - rewrite (exec_bind_Ret _ _ _ _ _ Hrun3).
      unfold exec.
      rewrite (modify_node_Some _ _ (mkState db3 (fired s)) _ Hn3).
      cbn [snd coverage_db].
      apply (Inv_same_core _ _ n3); [exact Hn3|reflexivity|exact Hinv3]. }
  destruct (negb (length bins =? 0)%nat).
  - apply Hfin.
    + apply fromkeys_Forall. reflexivity.
    + pose proof (fromkeys_length py_eqb bins 0). nia.
  - apply Hfin.
    + apply fromkeys_Forall. reflexivity.
    + cbn. lia.
Qed.

Lemma CoverCheck_init_Inv (name : string) (f_fail : pyval -> bool)
    (f_pass : option (pyval -> bool)) (weight at_least : Z) (s : state) :
  0 <= weight -> 0 <= at_least -> Inv (coverage_db s) ->
  Inv (coverage_db (exec (CoverCheck_init name f_fail f_pass weight at_least) s)).
Proof.
  intros Hw Hal Hinv. unfold CoverCheck_init.
  rewrite (exec_bind_Ret _ _ _ _ _ (get_db_run s)).
  destruct (coverage_db s !! name) as [n0|] eqn:Hnew; [exact Hinv|].
  destruct (primitive_registered CheckC name s Hinv Hnew)
    as (db1 & Hrun & Hinv1 & Hname & Hleaf).
  rewrite (exec_bind_Ret _ _ _ _ _ Hrun).
  rewrite (exec_bind_Ret _ _ _ _ _
             (lookup_node_Some name (mkState db1 (fired s)) _ Hname)).
  cbn [_parent fresh_node].
  destruct (contains_dot name) eqn:Hdot; [|exact Hinv1].
  set (self := fresh_node name (Some (parent_name name)) (Partial CheckC)) in *.
  rewrite (exec_bind_Ret _ _ _ _ _
             (modify_node_Some _ _ (mkState db1 (fired s)) _ Hname)).
  cbn [coverage_db fired].
  assert (Hlo : check_coverage weight at_least (fromkeys py_eqb [PASS; FAIL] 0) = 0).
  { unfold check_coverage. cbn. destruct (0 >? at_least) eqn:E; [|reflexivity].
    apply Z.gtb_lt in E. lia. }
  match goal with
  | |- context [<[name := ?n']> db1] =>
      destruct (leaf_registered db1 (fired s) name self n' weight)
        as (db3 & Hrun3 & Hinv3 & _);
      try assumption; try reflexivity
  end.
  - cbn [body_ok _body set_body]. split; [exact Hw|]. split; [exact Hal|].
    exists 0, 0. split; [reflexivity|lia].
  - unfold exec. rewrite Hrun3. exact Hinv3.
Qed.

Lemma CoverCross_init_Inv (name : string) (items : list string)
    (ign_bins : list (list pyval)) (weight at_least : Z) (s : state) :
  0 <= weight ->
  Forall (fun pat : list pyval => (length items <= length pat)%nat) ign_bins ->
  Inv (coverage_db s) ->
  Inv (coverage_db (exec (CoverCross_init name items ign_bins weight at_least) s)).
Proof.
  intros Hw Hpat Hinv. unfold CoverCross_init.
  rewrite (exec_bind_Ret _ _ _ _ _ (get_db_run s)).
  destruct (coverage_db s !! name) as [n0|] eqn:Hnew; [exact Hinv|].
  destruct (primitive_registered CrossC name s Hinv Hnew)
    as (db1 & Hrun & Hinv1 & Hname & Hleaf).
  rewrite (exec_bind_Ret _ _ _ _ _ Hrun).
  rewrite (exec_bind_Ret _ _ _ _ _
             (lookup_node_Some name (mkState db1 (fired s)) _ Hname)).
  cbn [_parent fresh_node].
  destruct (contains_dot name) eqn:Hdot; [|exact Hinv1].
  set (self := fresh_node name (Some (parent_name name)) (Partial CrossC)) in *.
  rewrite (exec_bind_Ret _ _ _ _ _ (get_db_run (mkState db1 (fired s)))).
  cbn [coverage_db].
  destruct (bins_lists db1 items) as [ls|e] eqn:Hls.
  2:{ assert (Hl : lift (@Raise (list (list pyval)) e) (mkState db1 (fired s))
                   = (Raise e, mkState db1 (fired s))) by reflexivity.
      rewrite (exec_bind_Raise _ _ _ _ _ Hl). exact Hinv1. }
  assert (Hl : lift (Ret ls) (mkState db1 (fired s))
               = (Ret ls, mkState db1 (fired s))) by reflexivity.
  rewrite (exec_bind_Ret _ _ _ _ _ Hl).
  destruct (cross_bins_filtered ign_bins ls (length items)
              (bins_lists_length _ _ _ Hls) Hpat) as (hits' & -> & Hz).
  rewrite (exec_bind_Ret _ _ _ _ _
             (modify_node_Some _ _ (mkState db1 (fired s)) _ Hname)).
  erewrite exec_bind_Ret
    by (apply modify_node_Some; cbn [coverage_db]; apply lookup_insert_eq).
  cbn [coverage_db fired]. rewrite insert_insert_eq.
  match goal with
  | |- context [<[name := ?n']> db1] =>
      destruct (leaf_registered db1 (fired s) name self n'
                  (weight * Z.of_nat (length hits')))
        as (db3 & Hrun3 & Hinv3 & _);
      try assumption; try reflexivity
  end.
  - cbn [body_ok _body set_body]. split; [exact Hw|].
    apply Forall_zero_nonneg. exact Hz.
  - cbn. apply lo_all_zero. exact Hz.
  - cbn. apply lo_all_zero. exact Hz.
  - unfold exec. rewrite Hrun3. exact Hinv3.
Qed.

(** ** The registry after a sampling event *)

Lemma call_all_run (cbs : list callback) (s : state) :
  call_all cbs s = (Ret tt, mkState (coverage_db s) (fired s ++ cbs)).
Proof.
  revert s. induction cbs as [|cb cbs IH]; intros s; cbn [call_all].
  - unfold ret. rewrite app_nil_r, state_eta. reflexivity.
  - unfold bind, call. rewrite IH. cbn [coverage_db fired].
    rewrite <- app_assoc. reflexivity.
Qed.

Lemma bump_nil (f : node -> node) (db : gmap string node) : bump f [] db = db.
Proof. reflexivity. Qed.

(** The delta goes to every ancestor of the sampled object, and what
    follows the propagation does not touch the registry. *)
Lemma propagate_db (self' : node) (name : string) (s1 : state) (delta : Z)
    (k : M unit) :
  keeps_db k -> wf_db (coverage_db s1) -> coverage_db s1 !! name = Some self' ->
  coverage_db (exec (parent_update_coverage self' delta ;; k) s1)
  = bump (add_coverage delta) (ancestors name) (coverage_db s1).
Proof.
  intros Hk Hwf Hself. unfold parent_update_coverage.
  rewrite (wf_parent _ _ _ Hwf Hself).
  pose proof (Hwf name self' Hself) as Hw.
  destruct (contains_dot name) eqn:Hdot.
  - destruct Hw as [_ Hq]. rewrite (ancestors_dot _ Hdot).
    pose proof (update_coverage_db (String.length (parent_name name))
                  (parent_name name) delta s1 Hwf Hq (le_n _)) as Hup.
    unfold exec in *.
    destruct (_update_coverage _ _ delta s1) as [[[]|e] s2] eqn:Hrun;
      cbn [snd] in Hup.
    + rewrite (bind_Ret _ _ _ _ _ Hrun). rewrite <- Hup. apply Hk.
    + rewrite (bind_Raise _ _ _ _ _ Hrun). exact Hup.
  - rewrite (ancestors_no_dot _ Hdot). reflexivity.
Qed.

Lemma dincr_length (hits : list (pyval * Z)) (k : pyval) :
  length (dincr hits k) = length hits.
Proof.
  induction hits as [|[k' v] hits IH]; cbn [dincr length]; [reflexivity|].
  destruct (py_eqb k' k); cbn [length]; congruence.
Qed.

Lemma dincr_nonneg (hits : list (pyval * Z)) (k : pyval) :
  Forall (fun kv : pyval * Z => 0 <= snd kv) hits ->
  Forall (fun kv : pyval * Z => 0 <= snd kv) (dincr hits k).
Proof.
  induction 1 as [|[k' v] hits Hv Hrest IH]; cbn [dincr]; [constructor|].
  simpl in Hv. destruct (py_eqb k' k); constructor; simpl; auto; lia.
Qed.

Lemma match_bins_hits (relation : pyval -> pyval -> bool) (injection : bool)
    (bcb : list (pyval * callback)) (result : pyval) (keys : list pyval) :
  forall (hits : list (pyval * Z)) (nh : list pyval) (calls : list callback)
         (hits' : list (pyval * Z)) (nh' : list pyval) (calls' : list callback),
    match_bins relation injection bcb result keys hits nh calls
    = (hits', nh', calls') ->
    length hits' = length hits /\
    (Forall (fun kv : pyval * Z => 0 <= snd kv) hits ->
     Forall (fun kv : pyval * Z => 0 <= snd kv) hits').
Proof.
  induction keys as [|b keys IH]; intros hits nh calls hits' nh' calls' H;
    cbn [match_bins] in H.
  - injection H as <- _ _. auto.
  - destruct (relation result b).
    + destruct (negb injection).
      * injection H as <- _ _. split; [apply dincr_length|apply dincr_nonneg].
      * apply IH in H as [Hlen Hnn]. rewrite dincr_length in Hlen.
        split; [exact Hlen|]. intros Hh. apply Hnn, dincr_nonneg, Hh.
    + eapply IH. exact H.
Qed.

Lemma match_cross_hits (bcb : list (pyval * callback)) (x_hits : list pyval) :
  forall (hits : list (pyval * Z)) (calls : list callback)
         (hits' : list (pyval * Z)) (calls' : list callback),
    match_cross bcb x_hits hits calls = (hits', calls') ->
    length hits' = length hits /\
    (Forall (fun kv : pyval * Z => 0 <= snd kv) hits ->
     Forall (fun kv : pyval * Z => 0 <= snd kv) hits').
Proof.
  induction x_hits as [|x x_hits IH]; intros hits calls hits' calls' H;
    cbn [match_cross] in H.
  - injection H as <- _. auto.
  - destruct (dmem py_eqb hits x).
    + apply IH in H as [Hlen Hnn]. rewrite dincr_length in Hlen.
      split; [exact Hlen|]. intros Hh. apply Hnn, dincr_nonneg, Hh.
    + eapply IH. exact H.
Qed.

(** The step of the invariant for a point or a cross whose hit counts
    change from [hits] to [hits']. *)
Lemma weighted_delta (sz weight at_least : Z) (hits hits' : list (pyval * Z)) :
  length hits' = length hits ->
  Forall (fun kv : pyval * Z => 0 <= snd kv) hits ->
  Forall (fun kv : pyval * Z => 0 <= snd kv) hits' ->
  let lo_of h := if 0 <? at_least
                 then weight * (Z.of_nat (length h) - unsat at_least h) else 0 in
  weighted_coverage sz weight at_least hits'
  - weighted_coverage sz weight at_least hits
  = lo_of hits' - lo_of hits.
Proof.
  intros Hlen Hh Hh'. cbn zeta.
  rewrite !weighted_coverage_lo by assumption. rewrite Hlen.
  destruct (0 <? at_least); lia.
Qed.

Lemma CoverPoint_sample_Inv (name : string) (result : pyval) (s : state) :
  Inv (coverage_db s) ->
  Inv (coverage_db (exec (CoverPoint_sample name result) s)).
Proof.
  intros Hinv. unfold CoverPoint_sample.
  destruct (coverage_db s !! name) as [n|] eqn:Hn.
  2:{ rewrite (exec_bind_Raise _ _ _ _ _ (lookup_node_None _ _ Hn)). exact Hinv. }
  rewrite (exec_bind_Ret _ _ _ _ _ (lookup_node_Some _ _ _ Hn)).
  destruct (_body n) as [ |c|rel w al inj hits| |] eqn:Hb; try exact Hinv.
  pose proof (inv_body _ Hinv name n Hn) as Hok. rewrite Hb in Hok.
  destruct Hok as [Hw Hnn].
  assert (Hcur : lift (coverage n) s
                 = (Ret (weighted_coverage (_size n) w al hits), s)).
  { unfold coverage. rewrite Hb. reflexivity. }
  rewrite (exec_bind_Ret _ _ _ _ _ Hcur).
  destruct (match_bins rel inj (_bins_callbacks n) result (dkeys hits) hits [] [])
    as [[hits' nh] calls] eqn:Hmb.
  destruct (match_bins_hits _ _ _ _ _ _ _ _ _ _ _ Hmb) as [Hlen Hnn'].
  specialize (Hnn' Hnn).
  rewrite (exec_bind_Ret _ _ _ _ _ (modify_node_Some _ _ _ _ Hn)).
  rewrite (exec_bind_Ret _ _ _ _ _ (call_all_run _ _)).
  cbn [coverage_db fired].
  set (n1 := set_body (Point rel w al inj hits') (set_new_hits nh n)).
  set (s1 := mkState (<[name := n1]> (coverage_db s)) _).
  assert (Hn1 : coverage_db s1 !! name = Some n1) by apply lookup_insert_eq.
  rewrite (exec_bind_Ret _ _ _ _ _ (lookup_node_Some _ _ _ Hn1)).
  assert (Hnow : lift (coverage n1) s1
                 = (Ret (weighted_coverage (_size n) w al hits'), s1))
    by reflexivity.
  rewrite (exec_bind_Ret _ _ _ _ _ Hnow).
  rewrite (propagate_db n1 name s1); [|apply keeps_db_notify| |exact Hn1].
  2:{ unfold s1. cbn [coverage_db]. eapply wf_db_links; [|apply inv_wf, Hinv].
      eapply fmap_insert_same; [exact Hn|reflexivity]. }
  unfold s1. cbn [coverage_db].
  pose proof (weighted_delta (_size n) w al hits hits' Hlen Hnn Hnn') as Hd.
  cbn zeta in Hd.
  apply (Inv_sample _ _ n); try assumption; try reflexivity;
    unfold n1; cbn [_body set_body]; rewrite ?Hb; cbn [body_ok cap lo hi].
  - auto.
  - rewrite Hlen. reflexivity.
  - destruct (0 <? al); lia.
  - destruct (0 <? al); lia.
Qed.

Lemma CoverCross_sample_Inv (name : string) (s : state) :
  Inv (coverage_db s) ->
  Inv (coverage_db (exec (CoverCross_sample name) s)).
Proof.
  intros Hinv. unfold CoverCross_sample.
  destruct (coverage_db s !! name) as [n|] eqn:Hn.
  2:{ rewrite (exec_bind_Raise _ _ _ _ _ (lookup_node_None _ _ Hn)). exact Hinv. }
  rewrite (exec_bind_Ret _ _ _ _ _ (lookup_node_Some _ _ _ Hn)).
  destruct (_body n) as [ |c| |w al items hits|] eqn:Hb; try exact Hinv.
  pose proof (inv_body _ Hinv name n Hn) as Hok. rewrite Hb in Hok.
  destruct Hok as [Hw Hnn].
  assert (Hcur : lift (coverage n) s
                 = (Ret (weighted_coverage (_size n) w al hits), s)).
  { unfold coverage. rewrite Hb. reflexivity. }
  rewrite (exec_bind_Ret _ _ _ _ _ Hcur).
  rewrite (exec_bind_Ret _ _ _ _ _ (get_db_run s)).
  destruct (hit_lists (coverage_db s) items) as [ls|e] eqn:Hls.
  2:{ assert (Hl : lift (@Raise (list (list pyval)) e) s = (Raise e, s))
        by reflexivity.
      rewrite (exec_bind_Raise _ _ _ _ _ Hl). exact Hinv. }
  assert (Hl : lift (Ret ls) s = (Ret ls, s)) by reflexivity.
  rewrite (exec_bind_Ret _ _ _ _ _ Hl).
  destruct (match_cross (_bins_callbacks n) (map PTuple (product ls)) hits [])
    as [hits' calls] eqn:Hmc.
  destruct (match_cross_hits _ _ _ _ _ _ Hmc) as [Hlen Hnn'].
  specialize (Hnn' Hnn).
  rewrite (exec_bind_Ret _ _ _ _ _ (modify_node_Some _ _ _ _ Hn)).
  rewrite (exec_bind_Ret _ _ _ _ _ (call_all_run _ _)).
  cbn [coverage_db fired].
  set (n1 := set_body (Cross w al items hits') n).
  set (s1 := mkState (<[name := n1]> (coverage_db s)) _).
  assert (Hn1 : coverage_db s1 !! name = Some n1) by apply lookup_insert_eq.
  rewrite (exec_bind_Ret _ _ _ _ _ (lookup_node_Some _ _ _ Hn1)).
  assert (Hnow : lift (coverage n1) s1
                 = (Ret (weighted_coverage (_size n) w al hits'), s1))
    by reflexivity.
  rewrite (exec_bind_Ret _ _ _ _ _ Hnow).
  rewrite (propagate_db n1 name s1); [|apply keeps_db_notify| |exact Hn1].
  2:{ unfold s1. cbn [coverage_db]. eapply wf_db_links; [|apply inv_wf, Hinv].
      eapply fmap_insert_same; [exact Hn|reflexivity]. }
  unfold s1. cbn [coverage_db].
  pose proof (weighted_delta (_size n) w al hits hits' Hlen Hnn Hnn') as Hd.
  cbn zeta in Hd.
  apply (Inv_sample _ _ n); try assumption; try reflexivity;
    unfold n1; cbn [_body set_body]; rewrite ?Hb; cbn [body_ok cap lo hi].
  - auto.
  - rewrite Hlen. reflexivity.
  - destruct (0 <? al); lia.
  - destruct (0 <? al); lia.
Qed.

Lemma add_coverage_0 (n : node) : add_coverage 0 n = n.
Proof.
  destruct n. unfold add_coverage, set_coverage. simpl.
  rewrite Z.add_0_r. reflexivity.
Qed.

Lemma bump_add_coverage_0 (names : list string) (db : gmap string node) :
  bump (add_coverage 0) names db = db.
Proof.
  unfold bump. revert db. induction names as [|k names IH]; intros db;
    cbn [fold_left]; [reflexivity|].
  rewrite alter_id by (intros; apply add_coverage_0). apply IH.
Qed.

(** The coverage of a check whose counts are [p] passes and [f] failures. *)
Lemma check_coverage_counts (n : node) (weight at_least : Z)
    (f_pass : option (pyval -> bool)) (f_fail : pyval -> bool) (p f : Z) :
  _body n = Check weight at_least f_pass f_fail [(PASS, p); (FAIL, f)] ->
  coverage n
  = Ret (if f =? 0 then (if p >? at_least then weight else 0) else 0).
Proof.
  intros Hb. unfold coverage. rewrite Hb. cbn.
  destruct (f =? 0); reflexivity.
Qed.

Lemma check_lo_counts (weight at_least : Z) (f_pass : option (pyval -> bool))
    (f_fail : pyval -> bool) (p f : Z) :
  lo (Check weight at_least f_pass f_fail [(PASS, p); (FAIL, f)])
  = (if f =? 0 then (if p >? at_least then weight else 0) else 0).
Proof. cbn. unfold check_coverage. cbn. destruct (f =? 0); reflexivity. Qed.

Lemma check_hi_counts (weight at_least : Z) (f_pass : option (pyval -> bool))
    (f_fail : pyval -> bool) (p f : Z) :
  hi (Check weight at_least f_pass f_fail [(PASS, p); (FAIL, f)])
  = (if f =? 0 then (if p >? at_least then weight else 0) else weight).
Proof. cbn. unfold check_coverage. cbn. destruct f; reflexivity. Qed.

Lemma CoverCheck_sample_Inv (name : string) (args : pyval) (s : state) :
  Inv (coverage_db s) ->
  Inv (coverage_db (exec (CoverCheck_sample name args) s)).
Proof.
  intros Hinv. unfold CoverCheck_sample.
  destruct (coverage_db s !! name) as [n|] eqn:Hn.
  2:{ rewrite (exec_bind_Raise _ _ _ _ _ (lookup_node_None _ _ Hn)). exact Hinv. }
  rewrite (exec_bind_Ret _ _ _ _ _ (lookup_node_Some _ _ _ Hn)).
  destruct (_body n) as [ |c| | |w al fp0 ff hits] eqn:Hb; try exact Hinv.
  pose proof (inv_body _ Hinv name n Hn) as Hok. rewrite Hb in Hok.
  destruct Hok as (Hw & Hal & p & f & -> & Hp & Hf).
  set (fp := match fp0 with Some g => g | None => fun _ => true end).
  rewrite (exec_bind_Ret _ _ _ _ _ (modify_node_Some _ _ _ _ Hn)).
  set (n1 := set_body (Check w al (Some fp) ff [(PASS, p); (FAIL, f)]) n).
  erewrite exec_bind_Ret
    by (apply lookup_node_Some; cbn [coverage_db]; apply lookup_insert_eq).
  assert (Hcur : forall st, lift (coverage n1) st
            = (Ret (if f =? 0 then (if p >? al then w else 0) else 0), st)).
  { intros st. unfold lift. rewrite (check_coverage_counts n1 w al (Some fp) ff p f);
      reflexivity. }
  rewrite (exec_bind_Ret _ _ _ _ _ (Hcur _)).
  erewrite exec_bind_Ret
    by (apply modify_node_Some; cbn [coverage_db]; apply lookup_insert_eq).
  cbn [coverage_db fired]. rewrite insert_insert_eq.
  assert (Hwf1 : forall n2, _parent n2 = _parent n ->
            wf_db (<[name := n2]> (coverage_db s))).
  { intros n2 Hp2. eapply wf_db_links; [|apply inv_wf, Hinv].
    eapply fmap_insert_same; [exact Hn|exact Hp2]. }
  destruct (check_passed fp ff args) as [[|]|] eqn:Hpassed; cbn [truthy negb].
  - (* passed *)
    cbn [dincr py_eqb PASS FAIL String.eqb Ascii.eqb Bool.eqb].
    set (n2 := set_body (Check w al (Some fp) ff _) n1).
    set (s2 := mkState (<[name := n2]> (coverage_db s)) (fired s)).
    assert (Hn2 : coverage_db s2 !! name = Some n2) by apply lookup_insert_eq.
    rewrite (exec_bind_Ret _ _ _ _ _ (lookup_node_Some _ _ _ Hn2)).
    assert (Hnow : lift (coverage n2) s2
              = (Ret (if f =? 0 then (if p + 1 >? al then w else 0) else 0), s2)).
    { unfold lift. rewrite (check_coverage_counts n2 w al (Some fp) ff (p + 1) f);
        reflexivity. }
    rewrite (exec_bind_Ret _ _ _ _ _ Hnow).
    rewrite (propagate_db n2 name s2); [| |apply Hwf1; reflexivity|exact Hn2].
    2:{ apply keeps_db_bind; [apply keeps_db_notify|]. intros _.
        destruct (dmem py_eqb (_bins_callbacks n2) PASS && true).
        - destruct (dget py_eqb (_bins_callbacks n2) PASS);
            [apply keeps_db_call|apply keeps_db_raise].
        - destruct (dmem py_eqb (_bins_callbacks n2) FAIL && false);
            [|apply keeps_db_ret].
          destruct (dget py_eqb (_bins_callbacks n2) FAIL);
            [apply keeps_db_call|apply keeps_db_raise]. }
    unfold s2. cbn [coverage_db].
    apply (Inv_sample _ _ n); try assumption; try reflexivity;
      unfold n2, n1; cbn [_body set_body]; rewrite ?Hb;
      rewrite ?check_lo_counts, ?check_hi_counts.
    + split; [exact Hw|]. split; [exact Hal|].
      exists (p + 1), f. split; [reflexivity|lia].
    + reflexivity.
    + destruct (f =? 0), (p + 1 >? al), (p >? al); lia.
    + destruct (f =? 0), (p + 1 >? al), (p >? al); lia.
  - (* failed *)
    cbn [dincr py_eqb PASS FAIL String.eqb Ascii.eqb Bool.eqb].
    set (n2 := set_body (Check w al (Some fp) ff _) n1).
    set (s2 := mkState (<[name := n2]> (coverage_db s)) (fired s)).
    assert (Hn2 : coverage_db s2 !! name = Some n2) by apply lookup_insert_eq.
    rewrite (exec_bind_Ret _ _ _ _ _ (lookup_node_Some _ _ _ Hn2)).
    assert (Hnow : lift (coverage n2) s2
              = (Ret (if f + 1 =? 0 then (if p >? al then w else 0) else 0), s2)).
    { unfold lift. rewrite (check_coverage_counts n2 w al (Some fp) ff p (f + 1));
        reflexivity. }
    rewrite (exec_bind_Ret _ _ _ _ _ Hnow).
    rewrite (propagate_db n2 name s2); [| |apply Hwf1; reflexivity|exact Hn2].
    2:{ apply keeps_db_bind; [apply keeps_db_notify|]. intros _.
        destruct (dmem py_eqb (_bins_callbacks n2) PASS && false).
        - destruct (dget py_eqb (_bins_callbacks n2) PASS);
            [apply keeps_db_call|apply keeps_db_raise].
        - destruct (dmem py_eqb (_bins_callbacks n2) FAIL && true);
            [|apply keeps_db_ret].
          destruct (dget py_eqb (_bins_callbacks n2) FAIL);
            [apply keeps_db_call|apply keeps_db_raise]. }
    unfold s2. cbn [coverage_db].
    assert (Hf1 : (f + 1 =? 0) = false) by (apply Z.eqb_neq; lia).
    rewrite Hf1.
    apply (Inv_sample _ _ n); try assumption; try reflexivity;
      unfold n2, n1; cbn [_body set_body]; rewrite ?Hb;
      rewrite ?check_lo_counts, ?check_hi_counts, ?Hf1.
    + split; [exact Hw|]. split; [exact Hal|].
      exists p, (f + 1). split; [reflexivity|lia].
    + reflexivity.
    + destruct (f =? 0), (p >? al); lia.
    + destruct (f =? 0), (p >? al); lia.
  - (* undetermined: the FAIL count is incremented, nothing is propagated *)
    cbn [dincr py_eqb PASS FAIL String.eqb Ascii.eqb Bool.eqb].
    rewrite exec_ret. cbn [coverage_db].
    set (n2 := set_body (Check w al (Some fp) ff _) n1).
    rewrite <- (bump_add_coverage_0 (ancestors name) (<[name := n2]> (coverage_db s))).
    assert (Hf1 : (f + 1 =? 0) = false) by (apply Z.eqb_neq; lia).
    apply (Inv_sample _ _ n); try assumption; try reflexivity;
      unfold n2, n1; cbn [_body set_body]; rewrite ?Hb;
      rewrite ?check_lo_counts, ?check_hi_counts, ?Hf1.
    + split; [exact Hw|]. split; [exact Hal|].
      exists p, (f + 1). split; [reflexivity|lia].
    + reflexivity.
    + destruct (f =? 0), (p >? al); lia.
    + destruct (f =? 0), (p >? al); lia.
Qed.

Lemma sample_Inv (name : string) (v : pyval) (s : state) :
  Inv (coverage_db s) -> Inv (coverage_db (exec (sample name v) s)).
Proof.
  intros Hinv. unfold sample.
  destruct (coverage_db s !! name) as [n|] eqn:Hn.
  2:{ rewrite (exec_bind_Raise _ _ _ _ _ (lookup_node_None _ _ Hn)). exact Hinv. }
  rewrite (exec_bind_Ret _ _ _ _ _ (lookup_node_Some _ _ _ Hn)).
  destruct (_body n); try exact Hinv.
  - apply CoverPoint_sample_Inv, Hinv.
  - apply CoverCross_sample_Inv, Hinv.
  - apply CoverCheck_sample_Inv, Hinv.
Qed.

Lemma add_threshold_callback_Inv (name : string) (cb : callback) (threshold : Z)
    (s : state) :
  Inv (coverage_db s) ->
  Inv (coverage_db (exec (add_threshold_callback name cb threshold) s)).
Proof.
  intros Hinv. unfold add_threshold_callback.
  destruct (coverage_db s !! name) as [n|] eqn:Hn.
  2:{ rewrite (exec_bind_Raise _ _ _ _ _ (lookup_node_None _ _ Hn)). exact Hinv. }
  rewrite (exec_bind_Ret _ _ _ _ _ (lookup_node_Some _ _ _ Hn)).
  unfold exec. rewrite (modify_node_Some _ _ _ _ Hn). cbn [snd coverage_db].
  apply (Inv_same_core _ _ n); [exact Hn|reflexivity|exact Hinv].
Qed.

Lemma add_bins_callback_Inv (name : string) (cb : callback) (bins : pyval)
    (s : state) :
  Inv (coverage_db s) ->
  Inv (coverage_db (exec (add_bins_callback name cb bins) s)).
Proof.
  intros Hinv. unfold add_bins_callback.
  destruct (coverage_db s !! name) as [n|] eqn:Hn.
  2:{ rewrite (exec_bind_Raise _ _ _ _ _ (lookup_node_None _ _ Hn)). exact Hinv. }
  rewrite (exec_bind_Ret _ _ _ _ _ (lookup_node_Some _ _ _ Hn)).
  unfold exec. rewrite (modify_node_Some _ _ _ _ Hn). cbn [snd coverage_db].
  apply (Inv_same_core _ _ n); [exact Hn|reflexivity|exact Hinv].
Qed.

(** ** The invariant along a run *)

Lemma Inv_empty : Inv (coverage_db empty_state).
Proof.
  split; cbn [coverage_db empty_state]; intros k n Hk;
    rewrite lookup_empty in Hk; discriminate.
Qed.

Lemma run_op_Inv (o : op) (s : state) :
  admissible o -> Inv (coverage_db s) -> Inv (coverage_db (exec (run_op o) s)).
Proof.
  intros Hadm Hinv. destruct o; cbn [run_op admissible] in *.
  - rewrite exec_then_ret. unfold CoverPoint.
    rewrite (exec_bind_Ret _ _ _ _ _ (get_db_run s)).
    destruct (coverage_db s !! name); [exact Hinv|].
    rewrite exec_then_ret. apply CoverPoint_init_Inv; assumption.
  - destruct Hadm as [Hw Hpat]. rewrite exec_then_ret. unfold CoverCross.
    rewrite (exec_bind_Ret _ _ _ _ _ (get_db_run s)).
    destruct (coverage_db s !! name); [exact Hinv|].
    rewrite exec_then_ret. apply CoverCross_init_Inv; assumption.
  - destruct Hadm as [Hw Hal]. rewrite exec_then_ret. unfold CoverCheck.
    rewrite (exec_bind_Ret _ _ _ _ _ (get_db_run s)).
    destruct (coverage_db s !! name); [exact Hinv|].
    rewrite exec_then_ret. apply CoverCheck_init_Inv; assumption.
  - apply add_threshold_callback_Inv, Hinv.
  - apply add_bins_callback_Inv, Hinv.
  - apply sample_Inv, Hinv.
Qed.

Lemma run_ops_Inv (ops : list op) (s : state) :
  Forall admissible ops -> Inv (coverage_db s) ->
  Inv (coverage_db (run_ops ops s)).
Proof.
  unfold run_ops. intros Hadm. revert s.
  induction Hadm as [|o ops Ho _ IH]; intros s Hinv; cbn [fold_left].
  - exact Hinv.
  - apply IH. apply run_op_Inv; assumption.
Qed.

(** ** The bounds that follow from the invariant *)

Lemma Inv_bodies_bounds (db : gmap string node) (k : string) (b : body) :
  Inv db -> (_body <$> db) !! k = Some b ->
  0 <= lo b /\ lo b <= hi b /\ hi b <= cap b.
Proof.
  intros Hinv Hk. rewrite lookup_fmap in Hk.
  destruct (db !! k) as [n|] eqn:Hn; [|discriminate].
  cbn in Hk. injection Hk as <-. apply body_bounds.
  exact (inv_body _ Hinv k n Hn).
Qed.

Lemma Inv_coverage_bounds (db : gmap string node) (name : string) (n : node) (c : Z) :
  Inv db -> db !! name = Some n -> coverage n = Ret c -> 0 <= c <= _size n.
Proof.
  intros Hinv Hn Hc.
  pose proof (inv_body _ Hinv name n Hn) as Hok.
  pose proof (inv_size _ Hinv name n Hn) as Hsize.
  pose proof (inv_coverage _ Hinv name n Hn) as Hcov.
  assert (Hlo : 0 <= desc_sum lo (_body <$> db) name).
  { apply desc_sum_nonneg. intros k b Hk.
    apply (Inv_bodies_bounds db k b Hinv Hk). }
  assert (Hhi : desc_sum hi (_body <$> db) name <= desc_sum cap (_body <$> db) name).
  { apply desc_sum_le. intros k b Hk.
    apply (Inv_bodies_bounds db k b Hinv Hk). }
  assert (Hcap : 0 <= desc_sum cap (_body <$> db) name).
  { apply desc_sum_nonneg. intros k b Hk.
    pose proof (Inv_bodies_bounds db k b Hinv Hk). lia. }
  unfold coverage in Hc.
  destruct (_body n) as [ |cl|rel w al inj hits|w al items hits|w al fp ff hits]
    eqn:Hb; cbn [cap body_ok] in *.
  - injection Hc as <-. lia.
  - discriminate.
  - injection Hc as <-. destruct Hok as [Hw _].
    rewrite weighted_coverage_unsat. pose proof (unsat_bounds al hits). nia.
  - injection Hc as <-. destruct Hok as [Hw _].
    rewrite weighted_coverage_unsat. pose proof (unsat_bounds al hits). nia.
  - destruct Hok as (Hw & _ & p & f & -> & _ & _). cbn in Hc.
    destruct (f =? 0); [destruct (p >? al)|]; injection Hc as <-; lia.
Qed.

(** C4, as amended: when weights are not negative, the pass count required
    by a check is not negative and every ignore pattern has a position for
    every item of its cross, then after any sequence of constructions,
    callback registrations and sampling events, every registered object
    whose coverage can be read has [0 <= coverage <= size]. *)
Theorem C4_coverage_within_size (ops : list op) (name : string) (c : Z) :
  Forall admissible ops ->
  coverage_of (run_ops ops empty_state) name = Ret c ->
  exists sz, size_of (run_ops ops empty_state) name = Ret sz /\ 0 <= c <= sz.
Proof.
  intros Hadm. unfold coverage_of, size_of.
  pose proof (run_ops_Inv ops empty_state Hadm Inv_empty) as Hinv.
  destruct (coverage_db (run_ops ops empty_state) !! name) as [n|] eqn:Hn;
    [|discriminate].
  intros Hc. exists (size n). split; [reflexivity|].
  exact (Inv_coverage_bounds _ name n c Hinv Hn Hc).
Qed.

Lemma C4_coverage_within_size_witness :
  let ops := [NewPoint "top.g.p" None [PInt 1; PInt 2; PInt 2] 2 1 false;
              NewCheck "top.g.c" is_zero (Some below_five) 3 1;
              NewCross "top.x" ["top.g.p"; "top.g.c"] [[PNone; PStr "FAIL"]] 1 1;
              AddThreshold "top" 1%nat 50;
              Sample "top.g.p" (PInt 2); Sample "top.g.c" (PInt 3);
              Sample "top.g.c" (PInt 3); Sample "top.x" PNone;
              Sample "top.g.c" (PInt 7)] in
  Forall admissible ops /\
  coverage_of (run_ops ops empty_state) "top" = Ret 5 /\
  exists sz, size_of (run_ops ops empty_state) "top" = Ret sz /\ 0 <= 5 <= sz.
Proof.
  cbn zeta.
  match goal with
  | |- Forall admissible ?ops /\ _ =>
      assert (Hadm : Forall admissible ops)
        by (repeat match goal with
                   | |- Forall admissible _ => constructor
                   | |- admissible _ => cbn [admissible]
                   | |- True => exact I
                   | |- _ /\ _ => split
                   | |- _ <= _ => lia
                   | |- Forall _ [] => constructor
                   | |- Forall _ (_ :: _) => constructor; [cbn; lia|]
                   end);
      assert (Hc : coverage_of (run_ops ops empty_state) "top" = Ret 5)
        by (vm_compute; reflexivity)
  end.
  split; [exact Hadm|]. split; [exact Hc|].
  exact (C4_coverage_within_size _ "top" 5 Hadm Hc).
Defined.

(** C4 as stated does not hold: nothing keeps a weight, or the pass count
    required by a check, from being negative, and a cross whose ignore
    pattern is too short stays registered with bins and no size.
    - A point of weight [-1] with one bin has coverage 0 and size [-1].
    - A check built with [at_least = -1] is covered before any sample, which
      no ancestor has been told; its first failure takes its weight away
      from the coverage of the parent, which becomes [-1].
    - A cross of one point with two bins and the empty ignore pattern raises
      [IndexError]; it is left with two bins and size 0, coverage [-2]. *)
Lemma C4_coverage_within_size_counterexample :
  let s1 := run_ops [NewPoint "top.p" None [PInt 1] (-1) 1 false] empty_state in
  let s2 := run_ops [NewCheck "top.c" is_zero None 1 (-1);
                     Sample "top.c" (PInt 0)] empty_state in
  let s3 := run_ops [NewPoint "top.a" None [PInt 1; PInt 2] 1 1 false;
                     NewCross "top.x" ["top.a"] [[]] 1 1] empty_state in
  (coverage_of s1 "top.p" = Ret 0 /\ size_of s1 "top.p" = Ret (-1) /\
   ~ (0 <= 0 <= -1)) /\
  (coverage_of s2 "top" = Ret (-1) /\ size_of s2 "top" = Ret 1 /\
   ~ (0 <= -1 <= 1)) /\
  (coverage_of s3 "top.x" = Ret (-2) /\ size_of s3 "top.x" = Ret 0 /\
   ~ (0 <= -2 <= 0)).
Proof. vm_compute. repeat split; try reflexivity; intros [H1 H2]; auto. Qed.

(** ** What a sampling event changes *)

Lemma frames_bind {A B} (nm : option string) (m : M A) (k : A -> M B) :
  frames nm m -> (forall a, frames nm (k a)) -> frames nm (bind m k).
Proof.
  intros Hm Hk s j Hj. specialize (Hm s j Hj). unfold exec in *.
  unfold bind. destruct (m s) as [[a|e] s1]; cbn [snd] in *.
  - rewrite <- Hm. apply Hk. exact Hj.
  - exact Hm.
Qed.

Lemma frames_keeps_db {A} (nm : option string) (m : M A) :
  keeps_db m -> frames nm m.
Proof. intros Hm s j _. unfold body_of. rewrite Hm. reflexivity. Qed.

Lemma frames_modify_same (nm : option string) (q : string) (f : node -> node) :
  (forall n, _body (f n) = _body n) -> frames nm (modify_node q f).
Proof.
  intros Hf s j _. unfold body_of, exec.
  destruct (coverage_db s !! q) as [n|] eqn:Hq.
  - rewrite (modify_node_Some _ _ _ _ Hq). cbn [snd coverage_db].
    destruct (decide (q = j)) as [<-|Hne].
    + rewrite lookup_insert_eq, Hq. cbn. rewrite Hf. reflexivity.
    + rewrite lookup_insert_ne by exact Hne. reflexivity.
  - rewrite (modify_node_None _ _ _ Hq). reflexivity.
Qed.

Lemma frames_modify (q : string) (f : node -> node) :
  frames (Some q) (modify_node q f).
Proof.
  intros s j Hj. unfold body_of, exec.
  destruct (coverage_db s !! q) as [n|] eqn:Hq.
  - rewrite (modify_node_Some _ _ _ _ Hq). cbn [snd coverage_db].
    rewrite lookup_insert_ne; [reflexivity|]. intros ->. apply Hj. reflexivity.
  - rewrite (modify_node_None _ _ _ Hq). reflexivity.
Qed.

Lemma frames_update_coverage (nm : option string) (fuel : nat) :
  forall (p : string) (delta : Z), frames nm (_update_coverage fuel p delta).
Proof.
  induction fuel as [|fuel IH]; intros p delta; cbn [_update_coverage];
    (apply frames_bind; [apply frames_keeps_db, keeps_db_lookup_node|]);
    intros n;
    (apply frames_bind; [apply frames_modify_same; reflexivity|]); intros _;
    (apply frames_bind;
     [|intros _; apply frames_keeps_db, keeps_db_bind;
       [apply keeps_db_lookup_node|intros n'; apply keeps_db_notify]]);
    destruct (_parent n);
    first [apply IH | apply frames_keeps_db, keeps_db_raise
          | apply frames_keeps_db, keeps_db_ret].
Qed.

Lemma frames_parent_update_coverage (nm : option string) (self : node) (delta : Z) :
  frames nm (parent_update_coverage self delta).
Proof.
  unfold parent_update_coverage. destruct (_parent self).
  - apply frames_update_coverage.
  - apply frames_keeps_db, keeps_db_raise.
Qed.

Ltac frames_leaf :=
  first
    [ apply frames_parent_update_coverage
    | apply frames_modify
    | apply frames_keeps_db;
      first [ apply keeps_db_lookup_node | apply keeps_db_lift
            | apply keeps_db_call_all | apply keeps_db_notify
            | apply keeps_db_call | apply keeps_db_ret
            | apply keeps_db_raise
            | intros s0; reflexivity ] ].

Ltac frames_walk :=
  repeat first
    [ frames_leaf
    | apply frames_bind; [|intros ?]
    | match goal with
      | |- frames _ (match ?x with _ => _ end) => destruct x
      | |- frames _ (if ?x then _ else _) => destruct x
      | |- frames _ (let '(_, _) := ?x in _) => destruct x
      end ].

Lemma frames_CoverPoint_sample (name : string) (result : pyval) :
  frames (Some name) (CoverPoint_sample name result).
Proof. unfold CoverPoint_sample. frames_walk. Qed.

Lemma frames_CoverCross_sample (name : string) :
  frames (Some name) (CoverCross_sample name).
Proof. unfold CoverCross_sample. frames_walk. Qed.

Lemma frames_CoverCheck_sample (name : string) (args : pyval) :
  frames (Some name) (CoverCheck_sample name args).
Proof. unfold CoverCheck_sample. frames_walk. Qed.

(** A sampling event changes the body of the sampled object only. *)
Lemma frames_sample (name : string) (v : pyval) :
  frames (Some name) (sample name v).
Proof.
  unfold sample. apply frames_bind; [frames_leaf|]. intros self.
  destruct (_body self); first
    [ apply frames_CoverPoint_sample | apply frames_CoverCross_sample
    | apply frames_CoverCheck_sample | frames_leaf ].
Qed.

(** ** The counts of a check *)

(** What is observed of a check whose counts are [p] passes and [f]
    failures. *)
Lemma check_observed (s : state) (k : string) (w al : Z)
    (fp0 : option (pyval -> bool)) (ff : pyval -> bool) (p f : Z) :
  body_of s k = Some (Check w al fp0 ff [(PASS, p); (FAIL, f)]) ->
  coverage_of s k = Ret (if f =? 0 then (if p >? al then w else 0) else 0) /\
  hit_count s k PASS = Ret p /\
  hit_count s k FAIL = Ret f.
Proof.
  unfold body_of, coverage_of, hit_count, detailed_coverage_of. intros H.
  destruct (coverage_db s !! k) as [n|]; [|discriminate].
  cbn in H. injection H as Hb. split.
  - apply (check_coverage_counts n w al fp0 ff p f Hb).
  - unfold detailed_coverage. rewrite Hb. split; reflexivity.
Qed.

(** The sampling event of a check adds one to exactly one of its two
    counts: to [PASS] when the sample passed, to [FAIL] otherwise. *)
Lemma CoverCheck_sample_counts (s : state) (k : string) (w al : Z)
    (fp0 : option (pyval -> bool)) (ff : pyval -> bool) (p f : Z) (v : pyval) :
  body_of s k = Some (Check w al fp0 ff [(PASS, p); (FAIL, f)]) ->
  let fp := match fp0 with Some g => g | None => fun _ => true end in
  body_of (exec (sample k v) s) k
  = Some (Check w al (Some fp) ff
            (if truthy (check_passed fp ff v)
             then [(PASS, p + 1); (FAIL, f)] else [(PASS, p); (FAIL, f + 1)])).
Proof.
  intros H. cbv zeta.
  set (fp := match fp0 with Some g => g | None => fun _ => true end).
  unfold body_of in H.
  destruct (coverage_db s !! k) as [n|] eqn:Hn; [|discriminate].
  cbn in H. injection H as Hb.
  unfold sample.
  rewrite (exec_bind_Ret _ _ _ _ _ (lookup_node_Some _ _ _ Hn)). rewrite Hb.
  unfold CoverCheck_sample.
  rewrite (exec_bind_Ret _ _ _ _ _ (lookup_node_Some _ _ _ Hn)). rewrite Hb.
  fold fp.
  rewrite (exec_bind_Ret _ _ _ _ _ (modify_node_Some _ _ _ _ Hn)).
  set (n1 := set_body (Check w al (Some fp) ff [(PASS, p); (FAIL, f)]) n).
  erewrite exec_bind_Ret
    by (apply lookup_node_Some; cbn [coverage_db]; apply lookup_insert_eq).
  assert (Hcur : forall st, lift (coverage n1) st
            = (Ret (if f =? 0 then (if p >? al then w else 0) else 0), st)).
  { intros st. unfold lift. rewrite (check_coverage_counts n1 w al (Some fp) ff p f);
      reflexivity. }
  rewrite (exec_bind_Ret _ _ _ _ _ (Hcur _)).
  erewrite exec_bind_Ret
    by (apply modify_node_Some; cbn [coverage_db]; apply lookup_insert_eq).
  cbn [coverage_db fired]. rewrite insert_insert_eq.
  match goal with
  | |- body_of (exec ?m ?s2) k = _ =>
      transitivity (body_of s2 k);
      [assert (Hm : frames None m) by frames_walk; apply Hm; discriminate|]
  end.
  unfold body_of. cbn [coverage_db]. rewrite lookup_insert_eq.
  destruct (check_passed fp ff v) as [[|]|]; reflexivity.
Qed.

(** No sampling event, of any object, changes the weight, the threshold
    or the failure test of a check, or lowers one of its counts. *)
Lemma sample_check_monotone (s : state) (name : string) (v : pyval) (k : string)
    (w al : Z) (fp0 : option (pyval -> bool)) (ff : pyval -> bool) (p f : Z) :
  body_of s k = Some (Check w al fp0 ff [(PASS, p); (FAIL, f)]) ->
  exists fp0' p' f',
    body_of (exec (sample name v) s) k
    = Some (Check w al fp0' ff [(PASS, p'); (FAIL, f')]) /\
    p <= p' /\ f <= f'.
Proof.
  intros H. destruct (decide (name = k)) as [->|Hne].
  - rewrite (CoverCheck_sample_counts s k w al fp0 ff p f v H).
    destruct (truthy _); eexists _, _, _; (split; [reflexivity|lia]).
  - exists fp0, p, f. split; [|lia].
    rewrite (frames_sample name v s k); [exact H|]. congruence.
Qed.

Lemma sample_all_check_monotone (events : list (string * pyval)) :
  forall (s : state) (k : string) (w al : Z) (fp0 : option (pyval -> bool))
         (ff : pyval -> bool) (p f : Z),
    body_of s k = Some (Check w al fp0 ff [(PASS, p); (FAIL, f)]) ->
    exists fp0' p' f',
      body_of (sample_all events s) k
      = Some (Check w al fp0' ff [(PASS, p'); (FAIL, f')]) /\
      p <= p' /\ f <= f'.
Proof.
  induction events as [|[name v] events IH]; intros s k w al fp0 ff p f H.
  - exists fp0, p, f. split; [exact H|lia].
  - cbn [sample_all fold_left fst snd].
    destruct (sample_check_monotone s name v k w al fp0 ff p f H)
      as (fp1 & p1 & f1 & H1 & Hp1 & Hf1).
    destruct (IH _ k w al fp1 ff p1 f1 H1) as (fp2 & p2 & f2 & H2 & Hp2 & Hf2).
    exists fp2, p2, f2. split; [exact H2|lia].
Qed.

(** The check of the scenario, as registered. *)
Lemma CheckExample_registered_body (weight : Z) :
  body_of (CheckExample.registered weight) "top.check"
  = Some (Check weight 1 (Some below_five) is_zero [(PASS, 0); (FAIL, 0)]).
Proof. vm_compute. reflexivity. Qed.

(** C2. For the check with [f_fail = (x == 0)], [f_pass = (x < 5)] and
    [at_least = 1], of any weight: after the three samples 3, 3, 3 its
    coverage is its weight; after the further sample 0 its coverage is 0,
    and it is still 0 after any further sampling events, of this check or
    of any other object and with any values, although the count of [PASS]
    is then at least 3, hence at least [at_least]. *)
Theorem C2_failed_check_stays_uncovered (weight : Z)
    (events : list (string * pyval)) :
  let s3 := CheckExample.after weight [PInt 3; PInt 3; PInt 3] in
  let s4 := CheckExample.after weight [PInt 3; PInt 3; PInt 3; PInt 0] in
  let s' := sample_all events s4 in
  coverage_of s3 "top.check" = Ret weight /\
  coverage_of s4 "top.check" = Ret 0 /\
  hit_count s4 "top.check" PASS = Ret 3 /\
  coverage_of s' "top.check" = Ret 0 /\
  exists p, hit_count s' "top.check" PASS = Ret p /\ 3 <= p.
Proof.
  intros s3 s4 s'.
  pose proof (CheckExample_registered_body weight) as H0.
  pose proof (CoverCheck_sample_counts _ _ _ _ _ _ _ _ (PInt 3) H0) as H1.
  pose proof (CoverCheck_sample_counts _ _ _ _ _ _ _ _ (PInt 3) H1) as H2.
  pose proof (CoverCheck_sample_counts _ _ _ _ _ _ _ _ (PInt 3) H2) as H3.
  pose proof (CoverCheck_sample_counts _ _ _ _ _ _ _ _ (PInt 0) H3) as H4.
  cbn in H3, H4.
  change (body_of s3 "top.check" = Some
            (Check weight 1 (Some below_five) is_zero [(PASS, 3); (FAIL, 0)]))
    in H3.
  change (body_of s4 "top.check" = Some
            (Check weight 1 (Some below_five) is_zero [(PASS, 3); (FAIL, 1)]))
    in H4.
  destruct (check_observed _ _ _ _ _ _ _ _ H3) as (Hc3 & _ & _).
  destruct (check_observed _ _ _ _ _ _ _ _ H4) as (Hc4 & Hp4 & _).
  destruct (sample_all_check_monotone events _ _ _ _ _ _ _ _ H4)
    as (fp' & p' & f' & H' & Hp' & Hf').
  destruct (check_observed _ _ _ _ _ _ _ _ H') as (Hc' & Hpass' & _).
  fold s' in Hc', Hpass'.
  split; [exact Hc3|]. split; [exact Hc4|]. split; [exact Hp4|].
  split.
  - rewrite Hc'. destruct (f' =? 0) eqn:E; [lia|reflexivity].
  - exists p'. split; [exact Hpass'|lia].
Qed.

(** ** Attributes the operations leave alone *)

Lemma preserves_bind {A B C} (proj : node -> C) (nm : option string)
    (m : M A) (k : A -> M B) :
  preserves proj nm m -> (forall a, preserves proj nm (k a)) ->
  preserves proj nm (bind m k).
Proof.
  intros Hm Hk s j v Hj Hv. specialize (Hm s j v Hj Hv). unfold exec in *.
  unfold bind. destruct (m s) as [[a|e] s1]; cbn [snd] in *.
  - apply Hk; assumption.
  - exact Hm.
Qed.

Lemma preserves_keeps_db {A C} (proj : node -> C) (nm : option string) (m : M A) :
  keeps_db m -> preserves proj nm m.
Proof. intros Hm s j v _ Hv. unfold attr_of. rewrite Hm. exact Hv. Qed.

Lemma preserves_modify_same {C} (proj : node -> C) (nm : option string)
    (q : string) (f : node -> node) :
  (forall n, proj (f n) = proj n) -> preserves proj nm (modify_node q f).
Proof.
  intros Hf s j v _. unfold attr_of, exec.
  destruct (coverage_db s !! q) as [n|] eqn:Hq.
  - rewrite (modify_node_Some _ _ _ _ Hq). cbn [snd coverage_db].
    destruct (decide (q = j)) as [<-|Hne].
    + rewrite lookup_insert_eq, Hq. cbn. rewrite Hf. auto.
    + rewrite lookup_insert_ne by exact Hne. auto.
  - rewrite (modify_node_None _ _ _ Hq). auto.
Qed.

Lemma preserves_modify {C} (proj : node -> C) (q : string) (f : node -> node) :
  preserves proj (Some q) (modify_node q f).
Proof.
  intros s j v Hj. unfold attr_of, exec.
  destruct (coverage_db s !! q) as [n|] eqn:Hq.
  - rewrite (modify_node_Some _ _ _ _ Hq). cbn [snd coverage_db].
    rewrite lookup_insert_ne; [auto|]. intros ->. apply Hj. reflexivity.
  - rewrite (modify_node_None _ _ _ Hq). auto.
Qed.

Lemma preserves_update_coverage {C} (proj : node -> C) (nm : option string)
    (fuel : nat) :
  (forall f n, proj (set_coverage f n) = proj n) ->
  forall (p : string) (delta : Z), preserves proj nm (_update_coverage fuel p delta).
Proof.
  intros Hproj.
  induction fuel as [|fuel IH]; intros p delta; cbn [_update_coverage];
    (apply preserves_bind; [apply preserves_keeps_db, keeps_db_lookup_node|]);
    intros n;
    (apply preserves_bind; [apply preserves_modify_same; intros; apply Hproj|]);
    intros _;
    (apply preserves_bind;
     [|intros _; apply preserves_keeps_db, keeps_db_bind;
       [apply keeps_db_lookup_node|intros n'; apply keeps_db_notify]]);
    destruct (_parent n);
    first [apply IH | apply preserves_keeps_db, keeps_db_raise
          | apply preserves_keeps_db, keeps_db_ret].
Qed.

Lemma preserves_parent_update_coverage {C} (proj : node -> C) (nm : option string)
    (self : node) (delta : Z) :
  (forall f n, proj (set_coverage f n) = proj n) ->
  preserves proj nm (parent_update_coverage self delta).
Proof.
  intros Hproj. unfold parent_update_coverage. destruct (_parent self).
  - apply preserves_update_coverage, Hproj.
  - apply preserves_keeps_db, keeps_db_raise.
Qed.

Lemma preserves_update_size {C} (proj : node -> C) (nm : option string)
    (fuel : nat) :
  (forall f n, proj (set_size f n) = proj n) ->
  forall (p : string) (sz : Z), preserves proj nm (_update_size fuel p sz).
Proof.
  intros Hproj.
  induction fuel as [|fuel IH]; intros p sz; cbn [_update_size];
    (apply preserves_bind; [apply preserves_modify_same; intros; apply Hproj|]);
    intros _;
    (apply preserves_bind; [apply preserves_keeps_db, keeps_db_lookup_node|]);
    intros n; destruct (_parent n);
    first [apply IH | apply preserves_keeps_db, keeps_db_raise
          | apply preserves_keeps_db, keeps_db_ret].
Qed.

Lemma preserves_parent_update_size {C} (proj : node -> C) (nm : option string)
    (self : node) (sz : Z) :
  (forall f n, proj (set_size f n) = proj n) ->
  preserves proj nm (parent_update_size self sz).
Proof.
  intros Hproj. unfold parent_update_size. destruct (_parent self).
  - apply preserves_update_size, Hproj.
  - apply preserves_keeps_db, keeps_db_raise.
Qed.

(** The tail of the three sampling events, and of the constructors: leaves
    of the computation that keep [proj], given what [proj] ignores. *)
Ltac preserves_leaf Hcov Hsize :=
  first
    [ apply preserves_parent_update_coverage; exact Hcov
    | apply preserves_parent_update_size; exact Hsize
    | apply preserves_modify_same; intros; reflexivity
    | apply preserves_modify
    | apply preserves_keeps_db;
      first [ apply keeps_db_lookup_node | apply keeps_db_lift
            | apply keeps_db_call_all | apply keeps_db_notify
            | apply keeps_db_call | apply keeps_db_ret
            | apply keeps_db_raise
            | intro; reflexivity ] ].

Ltac preserves_walk Hcov Hsize :=
  repeat first
    [ preserves_leaf Hcov Hsize
    | apply preserves_bind; [|intros ?]
    | match goal with
      | |- preserves _ _ (match ?x with _ => _ end) => destruct x
      | |- preserves _ _ (if ?x then _ else _) => destruct x
      | |- preserves _ _ (let '(_, _) := ?x in _) => destruct x
      | |- preserves _ _ (let _ := _ in _) => cbv zeta
      end ].

Section PreservedBySampling.
Context {C : Type} (proj : node -> C).
Hypothesis Hcov : forall f n, proj (set_coverage f n) = proj n.

Lemma preserves_CoverPoint_sample (name : string) (result : pyval) :
  preserves proj (Some name) (CoverPoint_sample name result).
Proof. unfold CoverPoint_sample. preserves_walk Hcov I. Qed.

Lemma preserves_CoverCross_sample (name : string) :
  preserves proj (Some name) (CoverCross_sample name).
Proof. unfold CoverCross_sample. preserves_walk Hcov I. Qed.

Lemma preserves_CoverCheck_sample (name : string) (args : pyval) :
  preserves proj (Some name) (CoverCheck_sample name args).
Proof. unfold CoverCheck_sample. preserves_walk Hcov I. Qed.

(** A sampling event changes, besides the [_coverage] attributes, the
    sampled object only. *)
Lemma preserves_sample (name : string) (v : pyval) :
  preserves proj (Some name) (sample name v).
Proof.
  unfold sample. apply preserves_bind; [preserves_leaf Hcov I|].
  intros self.
  destruct (_body self); first
    [ apply preserves_CoverPoint_sample | apply preserves_CoverCross_sample
    | apply preserves_CoverCheck_sample | preserves_leaf Hcov I ].
Qed.
End PreservedBySampling.

(** ** The bins hit by a sampling event of a point *)

(** The loop over the bins in closed form: the bins hit are the bins that
    match (the first of them only, unless the point is injective); each is
    counted once, and its callback, when it has one, is called. *)
Lemma match_bins_spec (rel : pyval -> pyval -> bool) (inj : bool)
    (bcb : list (pyval * callback)) (v : pyval) (keys : list pyval) :
  forall (hits : hits_dict) (nh : list pyval) (calls : list callback),
    let hit := if inj then List.filter (rel v) keys
               else firstn 1 (List.filter (rel v) keys) in
    match_bins rel inj bcb v keys hits nh calls
    = (fold_left dincr hit hits, nh ++ hit, calls ++ omap (dget py_eqb bcb) hit).
Proof.
  induction keys as [|a keys IH]; intros hits nh calls; cbn zeta.
  - destruct inj; cbn; rewrite !app_nil_r; reflexivity.
  - cbn [match_bins List.filter]. destruct (rel v a) eqn:Ha.
    + destruct inj; cbn [negb].
      * rewrite IH. cbn [fold_left omap]. unfold mbind, option_bind.
        f_equal; [f_equal|].
        -- rewrite <- app_assoc. reflexivity.
        -- cbn. destruct (dget py_eqb bcb a); cbn; rewrite <- ?app_assoc; reflexivity.
      * cbn. destruct (dget py_eqb bcb a); cbn; rewrite ?app_nil_r; reflexivity.
    + rewrite IH. destruct inj; reflexivity.
Qed.

Lemma dincr_keys (d : hits_dict) (k : pyval) : dkeys (dincr d k) = dkeys d.
Proof.
  induction d as [|[k' c] d IH]; [reflexivity|].
  cbn [dincr]. destruct (py_eqb k' k); cbn; [reflexivity|].
  unfold dkeys in IH. rewrite IH. reflexivity.
Qed.

Lemma fold_dincr_keys (ks : list pyval) (d : hits_dict) :
  dkeys (fold_left dincr ks d) = dkeys d.
Proof.
  revert d. induction ks as [|k ks IH]; intros d; [reflexivity|].
  cbn [fold_left]. rewrite IH. apply dincr_keys.
Qed.

(** Counting a bin adds one to the count read under that bin. *)
Lemma dget_dincr_same (d : hits_dict) (k : pyval) (c : Z) :
  dget py_eqb d k = Some c -> dget py_eqb (dincr d k) k = Some (c + 1).
Proof.
  induction d as [|[k' c'] d IH]; [discriminate|].
  cbn [dget dincr]. destruct (py_eqb k' k) eqn:E; cbn [dget]; rewrite E.
  - intros [= ->]. reflexivity.
  - exact IH.
Qed.

Lemma distinct_keys_head (k0 k : pyval) (rest : list pyval) :
  distinct_keys (k0 :: rest) -> In k (k0 :: rest) -> py_eqb k0 k = true -> k = k0.
Proof.
  intros [Hhd _] [->|Hin] E; [reflexivity|].
  rewrite Forall_forall in Hhd. apply list_elem_of_In in Hin.
  rewrite (Hhd _ Hin) in E. discriminate.
Qed.

(** With pairwise different keys, counting one key leaves the count read
    under every other key. *)
Lemma dget_dincr_other (d : hits_dict) (k b : pyval) :
  distinct_keys (dkeys d) -> In k (dkeys d) -> In b (dkeys d) -> b <> k ->
  dget py_eqb (dincr d k) b = dget py_eqb d b.
Proof.
  induction d as [|[k0 c0] d IH]; [reflexivity|].
  cbn [dkeys map fst]. intros Hd Hk Hb Hne.
  cbn [dincr dget]. destruct (py_eqb k0 k) eqn:Ek.
  - cbn [dget]. destruct (py_eqb k0 b) eqn:Eb; [|reflexivity].
    pose proof (distinct_keys_head _ _ _ Hd Hk Ek) as ->.
    pose proof (distinct_keys_head _ _ _ Hd Hb Eb) as ->.
    contradiction.
  - cbn [dget]. destruct (py_eqb k0 b) eqn:Eb; [reflexivity|].
    destruct Hk as [->|Hk]; [rewrite py_eqb_refl in Ek; discriminate|].
    destruct Hb as [->|Hb]; [rewrite py_eqb_refl in Eb; discriminate|].
    apply IH; [apply Hd|exact Hk|exact Hb|exact Hne].
Qed.

Lemma distinct_keys_NoDup (ks : list pyval) : distinct_keys ks -> List.NoDup ks.
Proof.
  induction ks as [|k ks IH]; [constructor|].
  intros [Hhd Htl]. constructor; [|apply IH, Htl].
  intros Hin. rewrite Forall_forall in Hhd. apply list_elem_of_In in Hin.
  specialize (Hhd _ Hin). rewrite py_eqb_refl in Hhd. discriminate.
Qed.

Lemma dget_key (d : hits_dict) (b : pyval) :
  In b (dkeys d) -> exists c, dget py_eqb d b = Some c.
Proof.
  induction d as [|[k0 c0] d IH]; [intros []|].
  cbn [dkeys map fst dget]. intros [->|Hin].
  - rewrite py_eqb_refl. eauto.
  - destruct (py_eqb k0 b); [eauto|apply IH, Hin].
Qed.

(** The counts after the bins of [hit] were counted, one after the other. *)
Lemma dget_fold_dincr (hit : list pyval) :
  forall (d : hits_dict) (b : pyval) (c : Z),
    distinct_keys (dkeys d) -> (forall k, In k hit -> In k (dkeys d)) ->
    List.NoDup hit -> In b (dkeys d) -> dget py_eqb d b = Some c ->
    (In b hit -> dget py_eqb (fold_left dincr hit d) b = Some (c + 1)) /\
    (~ In b hit -> dget py_eqb (fold_left dincr hit d) b = Some c).
Proof.
  induction hit as [|k hit IH]; intros d b c Hd Hsub Hnd Hb Hc.
  - split; [intros []|intros _; exact Hc].
  - cbn [fold_left]. inversion Hnd as [|? ? Hk Hnd']; subst.
    assert (Hd' : distinct_keys (dkeys (dincr d k))) by (rewrite dincr_keys; exact Hd).
    assert (Hsub' : forall k', In k' hit -> In k' (dkeys (dincr d k))).
    { intros k' Hk'. rewrite dincr_keys. apply Hsub. right. exact Hk'. }
    assert (Hb' : In b (dkeys (dincr d k))) by (rewrite dincr_keys; exact Hb).
    split.
    + intros [->|Hin].
      * apply (IH (dincr d b) b (c + 1) Hd' Hsub' Hnd' Hb'); [|exact Hk].
        apply dget_dincr_same, Hc.
      * apply (IH (dincr d k) b c Hd' Hsub' Hnd' Hb'); [|exact Hin].
        rewrite dget_dincr_other; [exact Hc|exact Hd| |exact Hb|].
        -- apply Hsub. left. reflexivity.
        -- intros ->. contradiction.
    + intros Hnot.
      apply (IH (dincr d k) b c Hd' Hsub' Hnd' Hb').
      * rewrite dget_dincr_other; [exact Hc|exact Hd| |exact Hb|].
        -- apply Hsub. left. reflexivity.
        -- intros ->. apply Hnot. left. reflexivity.
      * intros Hin. apply Hnot. right. exact Hin.
Qed.

Lemma hit_bins_sub (rel : pyval -> pyval -> bool) (inj : bool) (v : pyval)
    (keys : list pyval) :
  let hit := if inj then List.filter (rel v) keys
             else firstn 1 (List.filter (rel v) keys) in
  (forall k, In k hit -> In k keys /\ rel v k = true) /\
  (List.NoDup keys -> List.NoDup hit).
Proof.
  cbn zeta. split.
  - intros k Hk. apply filter_In. destruct inj; [exact Hk|].
    destruct (List.filter (rel v) keys) as [|a l]; [destruct Hk|].
    destruct Hk as [->|[]]. left. reflexivity.
  - intros Hnd. pose proof (List.NoDup_filter (rel v) Hnd) as Hf.
    destruct inj; [exact Hf|].
    destruct (List.filter (rel v) keys) as [|a l]; cbn; [constructor|].
    constructor; [intros []|constructor].
Qed.

(** The sampled point after the event: its counts and the bins hit. *)
Lemma CoverPoint_sample_body (s : state) (name : string) (n : node)
    (rel : pyval -> pyval -> bool) (w al : Z) (inj : bool) (hits : hits_dict)
    (v : pyval) :
  coverage_db s !! name = Some n ->
  _body n = Point rel w al inj hits ->
  let hit := if inj then List.filter (rel v) (dkeys hits)
             else firstn 1 (List.filter (rel v) (dkeys hits)) in
  attr_of (fun n => (_body n, _new_hits n)) (exec (sample name v) s) name
  = Some (Point rel w al inj (fold_left dincr hit hits), hit).
Proof.
  intros Hn Hb hit. unfold sample.
  rewrite (exec_bind_Ret _ _ _ _ _ (lookup_node_Some _ _ _ Hn)). rewrite Hb.
  unfold CoverPoint_sample.
  rewrite (exec_bind_Ret _ _ _ _ _ (lookup_node_Some _ _ _ Hn)). rewrite Hb.
  assert (Hcur : forall st, lift (coverage n) st
            = (Ret (weighted_coverage (_size n) w al hits), st)).
  { intros st. unfold lift, coverage. rewrite Hb. reflexivity. }
  rewrite (exec_bind_Ret _ _ _ _ _ (Hcur _)).
  rewrite match_bins_spec. cbn zeta. fold hit. cbn [app].
  rewrite (exec_bind_Ret _ _ _ _ _ (modify_node_Some _ _ _ _ Hn)).
  match goal with
  | |- attr_of ?proj (exec ?m ?s2) name = _ =>
      assert (Hm : preserves proj None m)
  end.
  { assert (Hcov : forall f n0,
              (fun n1 => (_body n1, _new_hits n1)) (set_coverage f n0)
              = (fun n1 => (_body n1, _new_hits n1)) n0) by reflexivity.
    preserves_walk Hcov I. }
  apply Hm; [discriminate|].
  unfold attr_of. cbn [coverage_db]. rewrite lookup_insert_eq. reflexivity.
Qed.

(** X1. The bins hit at a sampling event of a point are the bins that the
    sampled value matches, in the order of the bins; only the first of
    them when the point is not injective.  The bins themselves are kept. *)
Theorem CoverPoint_sample_new_hits (s : state) (name : string)
    (rel : pyval -> pyval -> bool) (w al : Z) (inj : bool) (hits : hits_dict)
    (v : pyval) :
  body_of s name = Some (Point rel w al inj hits) ->
  let matching := List.filter (rel v) (dkeys hits) in
  let s' := exec (sample name v) s in
  new_hits_of s' name = Some (if inj then matching else firstn 1 matching) /\
  bins_of s' name = Ret (dkeys hits).
Proof.
  unfold body_of. intros H.
  destruct (coverage_db s !! name) as [n|] eqn:Hn; [|discriminate].
  cbn in H. injection H as Hb. cbn zeta.
  pose proof (CoverPoint_sample_body s name n rel w al inj hits v Hn Hb) as Hs.
  cbn zeta in Hs. unfold attr_of in Hs.
  unfold new_hits_of, bins_of, detailed_coverage_of.
  destruct (coverage_db (exec (sample name v) s) !! name) as [n'|]; [|discriminate].
  cbn in Hs. injection Hs as Hb' Hnh. cbn. rewrite Hnh.
  split; [reflexivity|].
  unfold detailed_coverage. rewrite Hb'. rewrite fold_dincr_keys. reflexivity.
Qed.

Lemma CoverPoint_sample_new_hits_witness :
  let t := RelationExample.registered in
  new_hits_of (exec (sample "top.q" (PInt 3)) t) "top.q" = Some [PInt 5; PInt 9] /\
  new_hits_of (exec (sample "top.r" (PInt 3)) t) "top.r" = Some [PInt 5] /\
  bins_of (exec (sample "top.r" (PInt 3)) t) "top.r" = Ret [PInt 1; PInt 5; PInt 9].
Proof.
  cbn zeta.
  assert (Hq : body_of RelationExample.registered "top.q"
               = Some (Point less_than 1 1 true
                         [(PInt 1, 0); (PInt 5, 0); (PInt 9, 0)]))
    by (vm_compute; reflexivity).
  assert (Hr : body_of RelationExample.registered "top.r"
               = Some (Point less_than 1 1 false
                         [(PInt 1, 0); (PInt 5, 0); (PInt 9, 0)]))
    by (vm_compute; reflexivity).
  split.
  - exact (proj1 (CoverPoint_sample_new_hits _ "top.q" less_than 1 1 true _
                    (PInt 3) Hq)).
  - exact (CoverPoint_sample_new_hits _ "top.r" less_than 1 1 false _ (PInt 3) Hr).
Defined.

(** X2. A sampling event of a point whose bins are pairwise different adds one
    to the count of each bin hit and leaves the count of every other bin. *)
Theorem CoverPoint_sample_counts (s : state) (name : string)
    (rel : pyval -> pyval -> bool) (w al : Z) (inj : bool) (hits : hits_dict)
    (v b : pyval) :
  body_of s name = Some (Point rel w al inj hits) ->
  distinct_keys (dkeys hits) ->
  In b (dkeys hits) ->
  let s' := exec (sample name v) s in
  exists c hit,
    hit_count s name b = Ret c /\
    new_hits_of s' name = Some hit /\
    (In b hit -> hit_count s' name b = Ret (c + 1)) /\
    (~ In b hit -> hit_count s' name b = Ret c).
Proof.
  unfold body_of. intros H Hd Hin.
  destruct (coverage_db s !! name) as [n|] eqn:Hn; [|discriminate].
  cbn in H. injection H as Hb. cbn zeta.
  pose proof (CoverPoint_sample_body s name n rel w al inj hits v Hn Hb) as Hs.
  cbn zeta in Hs. unfold attr_of in Hs.
  destruct (dget_key hits b Hin) as [c Hc].
  set (hit := if inj then List.filter (rel v) (dkeys hits)
              else firstn 1 (List.filter (rel v) (dkeys hits))) in *.
  destruct (hit_bins_sub rel inj v (dkeys hits)) as [Hsub Hnd]. fold hit in Hsub, Hnd.
  destruct (dget_fold_dincr hit hits b c Hd (fun k Hk => proj1 (Hsub k Hk))
              (Hnd (distinct_keys_NoDup _ Hd)) Hin Hc) as [Hyes Hno].
  exists c, hit.
  unfold hit_count, new_hits_of, detailed_coverage_of. rewrite Hn.
  destruct (coverage_db (exec (sample name v) s) !! name) as [n'|]; [|discriminate].
  cbn in Hs. injection Hs as Hb' Hnh.
  unfold detailed_coverage. rewrite Hb, Hb'. unfold hits_at. rewrite Hc.
  split; [reflexivity|]. split; [cbn; rewrite Hnh; reflexivity|].
  split; intros Hb0.
  - rewrite (Hyes Hb0). reflexivity.
  - rewrite (Hno Hb0). reflexivity.
Qed.

Lemma CoverPoint_sample_counts_witness :
  let s := PointExample.after [PInt 2] in
  let s' := exec (sample "top.p" (PInt 2)) s in
  exists c hit,
    hit_count s "top.p" (PInt 2) = Ret c /\
    new_hits_of s' "top.p" = Some hit /\
    (In (PInt 2) hit -> hit_count s' "top.p" (PInt 2) = Ret (c + 1)) /\
    (~ In (PInt 2) hit -> hit_count s' "top.p" (PInt 2) = Ret c).
Proof.
  cbn zeta.
  assert (Hb : body_of (PointExample.after [PInt 2]) "top.p"
               = Some (Point py_eqb 1 1 false
                         [(PInt 1, 0); (PInt 2, 1); (PInt 3, 0); (PInt 4, 0)]))
    by (vm_compute; reflexivity).
  assert (Hd : distinct_keys
                 (dkeys [(PInt 1, 0); (PInt 2, 1); (PInt 3, 0); (PInt 4, 0)])).
  { cbn. repeat split; repeat constructor. }
  assert (Hin : In (PInt 2)
                  (dkeys [(PInt 1, 0); (PInt 2, 1); (PInt 3, 0); (PInt 4, 0)]))
    by (cbn; auto).
  exact (CoverPoint_sample_counts _ "top.p" py_eqb 1 1 false _ (PInt 2) (PInt 2)
           Hb Hd Hin).
Defined.

(** ** Hit counts never decrease *)

Lemma hits_le_refl (h : hits_dict) : hits_le h h.
Proof. induction h; constructor; [split; [reflexivity|lia]|assumption]. Qed.

Lemma hits_le_trans (h1 h2 h3 : hits_dict) :
  hits_le h1 h2 -> hits_le h2 h3 -> hits_le h1 h3.
Proof.
  intros H12. revert h3. induction H12 as [|a b l1 l2 [Hk Hc] _ IH]; intros h3 H23.
  - exact H23.
  - inversion H23 as [|? c ? l3 [Hk' Hc'] Hrest]; subst.
    constructor; [split; [congruence|lia]|apply IH, Hrest].
Qed.

Lemma body_le_refl (b : body) : body_le b b.
Proof. destruct b; cbn; repeat split; auto using hits_le_refl. Qed.

Lemma body_le_trans (b1 b2 b3 : body) :
  body_le b1 b2 -> body_le b2 b3 -> body_le b1 b3.
Proof.
  destruct b1, b2; cbn; try contradiction; destruct b3; cbn; try contradiction;
    try congruence; intros H12 H23;
    repeat match goal with H : _ /\ _ |- _ => destruct H end; subst;
    repeat split; eauto using hits_le_trans.
Qed.

Lemma dincr_le (d : hits_dict) (k : pyval) : hits_le d (dincr d k).
Proof.
  induction d as [|[k' c] d IH]; [constructor|].
  cbn [dincr]. destruct (py_eqb k' k).
  - constructor; [cbn; split; [reflexivity|lia]|apply hits_le_refl].
  - constructor; [cbn; split; [reflexivity|lia]|exact IH].
Qed.

Lemma fold_dincr_le (ks : list pyval) (d : hits_dict) :
  hits_le d (fold_left dincr ks d).
Proof.
  revert d. induction ks as [|k ks IH]; intros d; [apply hits_le_refl|].
  cbn [fold_left]. eapply hits_le_trans; [apply dincr_le|apply IH].
Qed.

Lemma match_cross_le (bcb : list (pyval * callback)) (x_hits : list pyval) :
  forall (hits : hits_dict) (calls : list callback),
    hits_le hits (fst (match_cross bcb x_hits hits calls)).
Proof.
  induction x_hits as [|x xs IH]; intros hits calls; cbn [match_cross].
  - apply hits_le_refl.
  - destruct (dmem py_eqb hits x).
    + eapply hits_le_trans; [apply dincr_le|apply IH].
    + apply IH.
Qed.

(** Reading a count in a dictionary with counts that are not lower. *)
Lemma hits_le_dget (h h' : hits_dict) (bin : pyval) (c : Z) :
  hits_le h h' -> dget py_eqb h bin = Some c ->
  exists c', dget py_eqb h' bin = Some c' /\ c <= c'.
Proof.
  intros Hle. induction Hle as [|[k a] [k' a'] l l' [Hk Hc] _ IH]; [discriminate|].
  cbn in Hk, Hc. subst k'. cbn [dget].
  destruct (py_eqb k bin).
  - intros [= <-]. eauto.
  - exact IH.
Qed.

Lemma hits_le_keys (h h' : hits_dict) : hits_le h h' -> dkeys h' = dkeys h.
Proof.
  intros Hle. induction Hle as [|a b l l' [Hk _] _ IH]; [reflexivity|].
  cbn. unfold dkeys in IH. rewrite IH, Hk. reflexivity.
Qed.

Lemma hits_le_length (h h' : hits_dict) : hits_le h h' -> length h' = length h.
Proof. intros Hle. symmetry. apply (Forall2_length _ _ _ Hle). Qed.

(** Fewer bins are short of [at_least] hits when no count is lower. *)
Lemma hits_le_unsat (at_least : Z) (h h' : hits_dict) :
  hits_le h h' -> unsat at_least h' <= unsat at_least h.
Proof.
  unfold unsat. intros Hle.
  induction Hle as [|a b l l' [_ Hc] _ IH]; [reflexivity|].
  rewrite !filter_cons. repeat case_decide; cbn [length]; lia.
Qed.

(** The sampled object after a sampling event. *)
Lemma sample_self_le (s : state) (name : string) (v : pyval) (b : body) :
  body_of s name = Some b ->
  exists b', body_of (exec (sample name v) s) name = Some b' /\ body_le b b'.
Proof.
  intros H. pose proof H as H0. unfold body_of in H.
  destruct (coverage_db s !! name) as [n|] eqn:Hn; [|discriminate].
  cbn in H. injection H as Hb.
  destruct b as [ |c|rel w al inj hits|w al items hits|w al fp0 ff hits].
  - exists Item. split; [|exact I]. unfold sample.
    rewrite (exec_bind_Ret _ _ _ _ _ (lookup_node_Some _ _ _ Hn)), Hb. exact H0.
  - exists (Partial c). split; [|reflexivity]. unfold sample.
    rewrite (exec_bind_Ret _ _ _ _ _ (lookup_node_Some _ _ _ Hn)), Hb. exact H0.
  - pose proof (CoverPoint_sample_body s name n rel w al inj hits v Hn Hb) as Hs.
    cbn zeta in Hs. unfold attr_of in Hs. unfold body_of.
    destruct (coverage_db (exec (sample name v) s) !! name) as [n'|]; [|discriminate].
    cbn in Hs. injection Hs as Hb' _. cbn. rewrite Hb'.
    eexists. split; [reflexivity|]. cbn. repeat split. apply fold_dincr_le.
  - unfold sample.
    rewrite (exec_bind_Ret _ _ _ _ _ (lookup_node_Some _ _ _ Hn)), Hb.
    unfold CoverCross_sample.
    rewrite (exec_bind_Ret _ _ _ _ _ (lookup_node_Some _ _ _ Hn)), Hb.
    assert (Hcur : forall st, lift (coverage n) st
              = (Ret (weighted_coverage (_size n) w al hits), st)).
    { intros st. unfold lift, coverage. rewrite Hb. reflexivity. }
    rewrite (exec_bind_Ret _ _ _ _ _ (Hcur _)).
    rewrite (exec_bind_Ret _ _ _ _ _ (get_db_run s)).
    destruct (hit_lists (coverage_db s) items) as [ls|e] eqn:Hls.
    2:{ erewrite exec_bind_Raise by reflexivity.
        exists (Cross w al items hits). split; [exact H0|apply body_le_refl]. }
    erewrite exec_bind_Ret by reflexivity.
    pose proof (match_cross_le (_bins_callbacks n) (map PTuple (product ls)) hits [])
      as Hle.
    destruct (match_cross _ _ hits []) as [hits' calls]. cbn [fst] in Hle.
    rewrite (exec_bind_Ret _ _ _ _ _ (modify_node_Some _ _ _ _ Hn)).
    exists (Cross w al items hits'). split; [|cbn; auto].
    match goal with
    | |- body_of (exec ?m ?s2) name = _ =>
        assert (Hm : preserves _body None m)
    end.
    { assert (Hcov : forall f n0, _body (set_coverage f n0) = _body n0)
        by reflexivity.
      preserves_walk Hcov I. }
    apply Hm; [discriminate|].
    unfold attr_of. cbn [coverage_db]. rewrite lookup_insert_eq. reflexivity.
  - unfold sample.
    rewrite (exec_bind_Ret _ _ _ _ _ (lookup_node_Some _ _ _ Hn)), Hb.
    unfold CoverCheck_sample.
    rewrite (exec_bind_Ret _ _ _ _ _ (lookup_node_Some _ _ _ Hn)), Hb.
    set (fp := match fp0 with Some g => g | None => fun _ => true end).
    rewrite (exec_bind_Ret _ _ _ _ _ (modify_node_Some _ _ _ _ Hn)).
    erewrite exec_bind_Ret
      by (apply lookup_node_Some; cbn [coverage_db]; apply lookup_insert_eq).
    destruct (coverage (set_body (Check w al (Some fp) ff hits) n)) as [cur|e] eqn:Hcur.
    2:{ erewrite exec_bind_Raise by reflexivity.
        exists (Check w al (Some fp) ff hits).
        split; [|cbn; auto using hits_le_refl].
        unfold body_of. cbn [coverage_db]. rewrite lookup_insert_eq. reflexivity. }
    erewrite exec_bind_Ret by reflexivity.
    erewrite exec_bind_Ret
      by (apply modify_node_Some; cbn [coverage_db]; apply lookup_insert_eq).
    cbn [coverage_db fired]. rewrite insert_insert_eq.
    eexists. split.
    + match goal with
      | |- body_of (exec ?m ?s2) name = _ =>
          assert (Hm : preserves _body None m)
      end.
      { assert (Hcov : forall f n0, _body (set_coverage f n0) = _body n0)
          by reflexivity.
        preserves_walk Hcov I. }
      apply Hm; [discriminate|].
      unfold attr_of. cbn [coverage_db]. rewrite lookup_insert_eq. reflexivity.
    + cbn. repeat split.
      destruct (truthy (check_passed fp ff v)); cbn [negb]; apply dincr_le.
Qed.

(** A sampling event lowers no hit count, of any object. *)
Lemma sample_body_le (s : state) (name : string) (v : pyval) (k : string) (b : body) :
  body_of s k = Some b ->
  exists b', body_of (exec (sample name v) s) k = Some b' /\ body_le b b'.
Proof.
  intros H. destruct (decide (name = k)) as [->|Hne].
  - apply sample_self_le, H.
  - exists b. split; [|apply body_le_refl].
    apply (preserves_sample _body (fun _ _ => eq_refl) name v s k b); [congruence|].
    exact H.
Qed.

(** ** What the constructors leave alone *)

Lemma attr_after {A B C} (proj : node -> C) (nm : option string) (m : M A)
    (rest : A -> M B) (s : state) (k : string) (v : C) :
  attr_of proj (exec m s) k = Some v ->
  (forall a, preserves proj nm (rest a)) -> Some k <> nm ->
  attr_of proj (exec (bind m rest) s) k = Some v.
Proof.
  unfold exec, bind. intros Hm Hrest Hk.
  destruct (m s) as [[a|e] s1]; cbn [snd] in *; [|exact Hm].
  apply Hrest; assumption.
Qed.

Lemma preserves_insert {C} (proj : node -> C) (name : string) (n : node) :
  preserves proj (Some name) (db <- get_db ;; put_db (<[name := n]> db)).
Proof.
  intros s k v Hk Hv. unfold attr_of, exec, bind, get_db, put_db in *.
  cbn [snd coverage_db]. rewrite lookup_insert_ne; [exact Hv|].
  intros ->. apply Hk. reflexivity.
Qed.

(** [CoverItem.__init__] for a name that is not registered keeps what is
    registered, up to the lists of children. *)
Lemma CoverItem_init_attr {C} (proj : node -> C) :
  (forall f n, proj (set_children f n) = proj n) ->
  forall (fuel : nat) (b : body) (name : string) (s : state) (k : string) (v : C),
    coverage_db s !! name = None ->
    attr_of proj s k = Some v ->
    attr_of proj (exec (CoverItem_init fuel b name) s) k = Some v.
Proof.
  intros Hch. induction fuel as [|fuel IH]; intros b name s k v Hnone Hv.
  - assert (Hk : Some k <> Some name).
    { intros [= ->]. unfold attr_of in Hv. rewrite Hnone in Hv. discriminate. }
    cbn [CoverItem_init]. destruct (contains_dot name).
    + rewrite (exec_bind_Ret _ _ _ _ _ (get_db_run s)).
      apply (attr_after proj (Some name)); [| |exact Hk].
      * destruct (coverage_db s !! parent_name name); exact Hv.
      * intros _. apply preserves_bind;
          [apply preserves_modify_same; intros; apply Hch|].
        intros _. apply preserves_insert.
    + apply preserves_insert; assumption.
  - assert (Hk : Some k <> Some name).
    { intros [= ->]. unfold attr_of in Hv. rewrite Hnone in Hv. discriminate. }
    cbn [CoverItem_init]. destruct (contains_dot name).
    + rewrite (exec_bind_Ret _ _ _ _ _ (get_db_run s)).
      apply (attr_after proj (Some name)); [| |exact Hk].
      * destruct (coverage_db s !! parent_name name) eqn:Hp; [exact Hv|].
        apply IH; assumption.
      * intros _. apply preserves_bind;
          [apply preserves_modify_same; intros; apply Hch|].
        intros _. apply preserves_insert.
    + apply preserves_insert; assumption.
Qed.

Section PreservedByConstructors.
Context {C : Type} (proj : node -> C).
Hypothesis Hch : forall f n, proj (set_children f n) = proj n.
Hypothesis Hsize : forall f n, proj (set_size f n) = proj n.

Lemma CoverPoint_attr (name : string) (rel : option (pyval -> pyval -> bool))
    (bins : list pyval) (weight at_least : Z) (inj : bool) (s : state)
    (k : string) (v : C) :
  attr_of proj s k = Some v ->
  attr_of proj (exec (CoverPoint name rel bins weight at_least inj) s) k = Some v.
Proof.
  intros Hv. unfold CoverPoint.
  rewrite (exec_bind_Ret _ _ _ _ _ (get_db_run s)).
  destruct (coverage_db s !! name) eqn:Hnone; [exact Hv|].
  rewrite exec_then_ret. unfold CoverPoint_init.
  rewrite (exec_bind_Ret _ _ _ _ _ (get_db_run s)). rewrite Hnone.
  assert (Hk : Some k <> Some name).
  { intros [= ->]. unfold attr_of in Hv. rewrite Hnone in Hv. discriminate. }
  apply (attr_after proj (Some name)); [| |exact Hk].
  - apply CoverItem_init_attr; assumption.
  - intros _. preserves_walk I Hsize.
Qed.

Lemma CoverCross_attr (name : string) (items : list string)
    (ign_bins : list (list pyval)) (weight at_least : Z) (s : state)
    (k : string) (v : C) :
  attr_of proj s k = Some v ->
  attr_of proj (exec (CoverCross name items ign_bins weight at_least) s) k = Some v.
Proof.
  intros Hv. unfold CoverCross.
  rewrite (exec_bind_Ret _ _ _ _ _ (get_db_run s)).
  destruct (coverage_db s !! name) eqn:Hnone; [exact Hv|].
  rewrite exec_then_ret. unfold CoverCross_init.
  rewrite (exec_bind_Ret _ _ _ _ _ (get_db_run s)). rewrite Hnone.
  assert (Hk : Some k <> Some name).
  { intros [= ->]. unfold attr_of in Hv. rewrite Hnone in Hv. discriminate. }
  apply (attr_after proj (Some name)); [| |exact Hk].
  - apply CoverItem_init_attr; assumption.
  - intros _. preserves_walk I Hsize.
Qed.

Lemma CoverCheck_attr (name : string) (f_fail : pyval -> bool)
    (f_pass : option (pyval -> bool)) (weight at_least : Z) (s : state)
    (k : string) (v : C) :
  attr_of proj s k = Some v ->
  attr_of proj (exec (CoverCheck name f_fail f_pass weight at_least) s) k = Some v.
Proof.
  intros Hv. unfold CoverCheck.
  rewrite (exec_bind_Ret _ _ _ _ _ (get_db_run s)).
  destruct (coverage_db s !! name) eqn:Hnone; [exact Hv|].
  rewrite exec_then_ret. unfold CoverCheck_init.
  rewrite (exec_bind_Ret _ _ _ _ _ (get_db_run s)). rewrite Hnone.
  assert (Hk : Some k <> Some name).
  { intros [= ->]. unfold attr_of in Hv. rewrite Hnone in Hv. discriminate. }
  apply (attr_after proj (Some name)); [| |exact Hk].
  - apply CoverItem_init_attr; assumption.
  - intros _. preserves_walk I Hsize.
Qed.
End PreservedByConstructors.

(** No operation lowers a hit count, removes a bin or changes the class or
    the parameters of a registered object. *)
Lemma run_op_body_le (o : op) (s : state) (k : string) (b : body) :
  body_of s k = Some b ->
  exists b', body_of (exec (run_op o) s) k = Some b' /\ body_le b b'.
Proof.
  intros H.
  destruct o as [name rel bins w al inj|name items ign w al|name ff fp w al
                |name cb th|name cb bins|name v]; cbn [run_op].
  1-5: exists b; split; [|apply body_le_refl].
  - rewrite exec_then_ret.
    apply (CoverPoint_attr _body (fun _ _ => eq_refl) (fun _ _ => eq_refl)), H.
  - rewrite exec_then_ret.
    apply (CoverCross_attr _body (fun _ _ => eq_refl) (fun _ _ => eq_refl)), H.
  - rewrite exec_then_ret.
    apply (CoverCheck_attr _body (fun _ _ => eq_refl) (fun _ _ => eq_refl)), H.
  - unfold add_threshold_callback.
    assert (Hm : preserves _body None
                   (n <- lookup_node name ;;
                    modify_node name
                      (set_threshold_callbacks
                         (dset Z.eqb (_threshold_callbacks n) th cb))))
      by preserves_walk I I.
    apply Hm; [discriminate|exact H].
  - unfold add_bins_callback.
    assert (Hm : preserves _body None
                   (n <- lookup_node name ;;
                    modify_node name
                      (set_bins_callbacks
                         (dset py_eqb (_bins_callbacks n) bins cb))))
      by preserves_walk I I.
    apply Hm; [discriminate|exact H].
  - apply sample_body_le, H.
Qed.

Lemma run_ops_body_le (ops : list op) :
  forall (s : state) (k : string) (b : body),
    body_of s k = Some b ->
    exists b', body_of (run_ops ops s) k = Some b' /\ body_le b b'.
Proof.
  induction ops as [|o ops IH]; intros s k b H.
  - exists b. split; [exact H|apply body_le_refl].
  - cbn [run_ops fold_left].
    destruct (run_op_body_le o s k b H) as (b1 & H1 & Hle1).
    destruct (IH _ k b1 H1) as (b2 & H2 & Hle2).
    exists b2. split; [exact H2|]. eapply body_le_trans; eassumption.
Qed.

(** The hits dictionary read through [detailed_coverage] when a count can
    be read in it. *)
Lemma hit_count_body (s : state) (k : string) (bin : pyval) (c : Z) :
  hit_count s k bin = Ret c ->
  exists b hits,
    body_of s k = Some b /\ dget py_eqb hits bin = Some c /\
    (forall b', body_le b b' ->
       exists hits', hits_le hits hits' /\
         forall n', _body n' = b' -> detailed_coverage n' = Ret hits').
Proof.
  unfold hit_count, detailed_coverage_of, body_of.
  destruct (coverage_db s !! k) as [n|]; [|discriminate].
  unfold detailed_coverage.
  destruct (_body n) as [ |cl|rel w al inj hits|w al items hits|w al fp ff hits]
    eqn:Hb; cbn [fmap option_fmap option_map].
  - destruct (_children n) as [|c0 cs] eqn:Hc.
    + cbn. discriminate.
    + pose proof (detailed_coverage_item_raises n Hb) as Hr.
      unfold detailed_coverage in Hr. rewrite Hb in Hr. rewrite Hc in *.
      rewrite Hr by discriminate. discriminate.
  - discriminate.
  - unfold hits_at. destruct (dget py_eqb hits bin) as [c0|] eqn:Hg; [|discriminate].
    intros [= ->]. exists (Point rel w al inj hits), hits.
    split; [rewrite Hb; reflexivity|]. split; [exact Hg|].
    intros b' Hle. destruct b'; cbn in Hle; try contradiction.
    destruct Hle as (_ & _ & _ & _ & Hle). eexists. split; [exact Hle|].
    intros n' ->. reflexivity.
  - unfold hits_at. destruct (dget py_eqb hits bin) as [c0|] eqn:Hg; [|discriminate].
    intros [= ->]. exists (Cross w al items hits), hits.
    split; [rewrite Hb; reflexivity|]. split; [exact Hg|].
    intros b' Hle. destruct b'; cbn in Hle; try contradiction.
    destruct Hle as (_ & _ & _ & Hle). eexists. split; [exact Hle|].
    intros n' ->. reflexivity.
  - unfold hits_at. destruct (dget py_eqb hits bin) as [c0|] eqn:Hg; [|discriminate].
    intros [= ->]. exists (Check w al fp ff hits), hits.
    split; [rewrite Hb; reflexivity|]. split; [exact Hg|].
    intros b' Hle. destruct b'; cbn in Hle; try contradiction.
    destruct Hle as (_ & _ & _ & Hle). eexists. split; [exact Hle|].
    intros n' ->. reflexivity.
Qed.

(** X3. Whatever operations follow (constructions, callback registrations,
    sampling events, also those that raise), a bin whose hit count can be
    read keeps a readable count, which is never lower than before. *)
Theorem hit_counts_never_decrease (ops : list op) (s : state) (name : string)
    (bin : pyval) (c : Z) :
  hit_count s name bin = Ret c ->
  exists c', hit_count (run_ops ops s) name bin = Ret c' /\ c <= c'.
Proof.
  intros H. destruct (hit_count_body s name bin c H) as (b & hits & Hb & Hg & Hnext).
  destruct (run_ops_body_le ops s name b Hb) as (b' & Hb' & Hle).
  destruct (Hnext b' Hle) as (hits' & Hhits & Hread).
  destruct (hits_le_dget hits hits' bin c Hhits Hg) as (c' & Hg' & Hc).
  exists c'. split; [|exact Hc].
  unfold hit_count, detailed_coverage_of. unfold body_of in Hb'.
  destruct (coverage_db (run_ops ops s) !! name) as [n'|]; [|discriminate].
  cbn in Hb'. injection Hb' as Hb'. rewrite (Hread n' Hb').
  unfold hits_at. rewrite Hg'. reflexivity.
Qed.

Lemma hit_counts_never_decrease_witness :
  let s := CheckExample.after 1 [PInt 3; PInt 3] in
  let ops := [Sample "top.check" (PInt 0); NewCheck "top.check" is_zero None 5 7;
              NewPoint "top.check.sub" None [PInt 1] (-2) 1 false;
              Sample "top.check" (PInt 4); AddBins "top.check" 9%nat PASS] in
  hit_count s "top.check" PASS = Ret 2 /\
  exists c', hit_count (run_ops ops s) "top.check" PASS = Ret c' /\ 2 <= c'.
Proof.
  cbn zeta.
  assert (H : hit_count (CheckExample.after 1 [PInt 3; PInt 3]) "top.check" PASS
              = Ret 2) by (vm_compute; reflexivity).
  split; [exact H|].
  exact (hit_counts_never_decrease _ _ "top.check" PASS 2 H).
Defined.

(** ** The coverage of a point or a cross under sampling *)

(** A sampling event changes no size. *)
Lemma sample_keeps_size (name : string) (v : pyval) :
  preserves _size None (sample name v).
Proof.
  assert (Hcov : forall f n, _size (set_coverage f n) = _size n) by reflexivity.
  unfold sample. apply preserves_bind; [preserves_leaf Hcov I|]. intros self.
  destruct (_body self);
    [ preserves_leaf Hcov I | preserves_leaf Hcov I
    | unfold CoverPoint_sample | unfold CoverCross_sample
    | unfold CoverCheck_sample ];
    preserves_walk Hcov I.
Qed.

Lemma sample_all_body_le (events : list (string * pyval)) :
  forall (s : state) (k : string) (b : body),
    body_of s k = Some b ->
    exists b', body_of (sample_all events s) k = Some b' /\ body_le b b'.
Proof.
  induction events as [|[name v] events IH]; intros s k b H.
  - exists b. split; [exact H|apply body_le_refl].
  - cbn [sample_all fold_left fst snd].
    destruct (sample_body_le s name v k b H) as (b1 & H1 & Hle1).
    destruct (IH _ k b1 H1) as (b2 & H2 & Hle2).
    exists b2. split; [exact H2|]. eapply body_le_trans; eassumption.
Qed.

Lemma sample_all_size (events : list (string * pyval)) :
  forall (s : state) (k : string) (z : Z),
    attr_of _size s k = Some z -> attr_of _size (sample_all events s) k = Some z.
Proof.
  induction events as [|[name v] events IH]; intros s k z H; [exact H|].
  cbn [sample_all fold_left fst snd]. apply IH.
  apply sample_keeps_size; [discriminate|exact H].
Qed.

(** X4. The coverage of a point or of a cross of weight [w >= 0] is never
    lowered by sampling events, of this object or of any other. *)
Theorem bins_coverage_never_decreases (events : list (string * pyval))
    (s : state) (name : string) (w c : Z) :
  (exists rel al inj hits, body_of s name = Some (Point rel w al inj hits)) \/
  (exists al items hits, body_of s name = Some (Cross w al items hits)) ->
  0 <= w ->
  coverage_of s name = Ret c ->
  exists c', coverage_of (sample_all events s) name = Ret c' /\ c <= c'.
Proof.
  intros Hclass Hw Hc.
  assert (Hex : exists b al hits,
             body_of s name = Some b /\
             (forall n, _body n = b ->
                coverage n = Ret (weighted_coverage (_size n) w al hits)) /\
             (forall b', body_le b b' ->
                exists hits', hits_le hits hits' /\
                  forall n, _body n = b' ->
                    coverage n = Ret (weighted_coverage (_size n) w al hits'))).
  { destruct Hclass as [(rel & al & inj & hits & Hb)|(al & items & hits & Hb)].
    - exists (Point rel w al inj hits), al, hits. split; [exact Hb|]. split.
      + intros n Hn. unfold coverage. rewrite Hn. reflexivity.
      + intros b' Hle. destruct b'; cbn in Hle; try contradiction.
        destruct Hle as (_ & <- & <- & _ & Hle). eexists. split; [exact Hle|].
        intros n Hn. unfold coverage. rewrite Hn. reflexivity.
    - exists (Cross w al items hits), al, hits. split; [exact Hb|]. split.
      + intros n Hn. unfold coverage. rewrite Hn. reflexivity.
      + intros b' Hle. destruct b'; cbn in Hle; try contradiction.
        destruct Hle as (<- & <- & _ & Hle). eexists. split; [exact Hle|].
        intros n Hn. unfold coverage. rewrite Hn. reflexivity. }
  destruct Hex as (b & al & hits & Hb & Hcov & Hnext).
  destruct (sample_all_body_le events s name b Hb) as (b' & Hb' & Hle).
  destruct (Hnext b' Hle) as (hits' & Hhits & Hcov').
  unfold coverage_of in *. unfold body_of in Hb, Hb'.
  destruct (coverage_db s !! name) as [n|] eqn:Hn; [|discriminate].
  cbn in Hb. injection Hb as Hb.
  pose proof (sample_all_size events s name (_size n)) as Hsz.
  unfold attr_of in Hsz. rewrite Hn in Hsz. specialize (Hsz eq_refl).
  destruct (coverage_db (sample_all events s) !! name) as [n'|]; [|discriminate].
  cbn in Hb', Hsz. injection Hb' as Hb'. injection Hsz as Hsz.
  rewrite (Hcov n Hb) in Hc. injection Hc as <-.
  rewrite (Hcov' n' Hb'). eexists. split; [reflexivity|].
  rewrite !weighted_coverage_unsat, Hsz.
  pose proof (hits_le_unsat al hits hits' Hhits). nia.
Qed.

Lemma bins_coverage_never_decreases_witness :
  let s := PointExample.after [PInt 1] in
  let events := [("top.p", PInt 3); ("top", PInt 1); ("top.p", PInt 7);
                 ("top.p", PInt 1)] in
  coverage_of s "top.p" = Ret 1 /\
  exists c', coverage_of (sample_all events s) "top.p" = Ret c' /\ 1 <= c'.
Proof.
  cbn zeta.
  assert (Hb : body_of (PointExample.after [PInt 1]) "top.p"
               = Some (Point py_eqb 1 1 false
                         [(PInt 1, 1); (PInt 2, 0); (PInt 3, 0); (PInt 4, 0)]))
    by (vm_compute; reflexivity).
  assert (Hc : coverage_of (PointExample.after [PInt 1]) "top.p" = Ret 1)
    by (vm_compute; reflexivity).
  split; [exact Hc|].
  apply (bins_coverage_never_decreases _ _ "top.p" 1 1); [|lia|exact Hc].
  left. eexists _, _, _, _. exact Hb.
Defined.

(** ** Threshold callbacks *)

(** *** The rounded quotient *)

(** The quotients of some divisions, as Python computes them: an exact
    quotient; a quotient rounded to 53 bits; a quotient next to 50 that is
    rounded to 50; the tie at [2 ^ 53 + 1], which goes to the even
    mantissa; the largest double and the first overflow; the tie between 0
    and the smallest double, and the smallest double; the signs. *)
Example true_div_examples :
  quotient_is 300 4 (inject_Z 75) /\
  quotient_is 1 3 (6004799503160661 # 18014398509481984) /\
  quotient_is (100 * (5 * 10 ^ 17 - 1)) (10 ^ 18) (inject_Z 50) /\
  quotient_is (2 ^ 53 + 1) 1 (inject_Z (2 ^ 53)) /\
  quotient_is (2 ^ 53 + 3) 1 (inject_Z (2 ^ 53 + 4)) /\
  quotient_is (2 ^ 1024 - 2 ^ 970 - 1) 1 (inject_Z (2 ^ 1024 - 2 ^ 971)) /\
  true_div (2 ^ 1024 - 2 ^ 970) 1 = Raise OverflowError /\
  quotient_is 1 (2 ^ 1075) (inject_Z 0) /\
  quotient_is 3 (2 ^ 1076) (/ inject_Z (2 ^ 1074)) /\
  quotient_is (-7) 2 (- (7 # 2)) /\
  quotient_is 7 (-2) (- (7 # 2)) /\
  true_div 7 0 = Raise ZeroDivisionError.
Proof.
  repeat split;
    try (eexists; split; [vm_compute; reflexivity|vm_compute; reflexivity]);
    vm_compute; reflexivity.
Qed.

Lemma round_half_even_ge (n d M : Z) :
  0 < d -> M * d <= n -> M <= round_half_even n d.
Proof.
  intros Hd H. unfold round_half_even.
  pose proof (Z.div_mod n d ltac:(lia)) as Hdm.
  pose proof (Z.mod_pos_bound n d Hd) as Hr.
  assert (M <= n / d) by nia.
  destruct (2 * (n mod d) ?= d); [destruct (Z.even (n / d))|..]; lia.
Qed.

Lemma round_half_even_le (n d M : Z) :
  0 < d -> n <= M * d -> round_half_even n d <= M.
Proof.
  intros Hd H. unfold round_half_even.
  pose proof (Z.div_mod n d ltac:(lia)) as Hdm.
  pose proof (Z.mod_pos_bound n d Hd) as Hr.
  assert (n / d <= M) by nia.
  assert (0 < n mod d -> n / d + 1 <= M) by nia.
  destruct (2 * (n mod d) ?= d) eqn:E;
    [apply Z.compare_eq in E|rewrite Z.compare_lt_iff in E
    |rewrite Z.compare_gt_iff in E];
    [destruct (Z.even (n / d))|..]; lia.
Qed.

Lemma round_half_even_lt (n d M : Z) :
  0 < d -> 2 * n < (2 * M - 1) * d -> round_half_even n d < M.
Proof.
  intros Hd H. unfold round_half_even.
  pose proof (Z.div_mod n d ltac:(lia)) as Hdm.
  pose proof (Z.mod_pos_bound n d Hd) as Hr.
  assert (n / d < M) by nia.
  destruct (2 * (n mod d) ?= d) eqn:E;
    [apply Z.compare_eq in E|rewrite Z.compare_lt_iff in E
    |rewrite Z.compare_gt_iff in E];
    [destruct (Z.even (n / d))|..]; nia.
Qed.

Lemma round_half_even_gt (n d M : Z) :
  0 < d -> (2 * M + 1) * d < 2 * n -> M < round_half_even n d.
Proof.
  intros Hd H. unfold round_half_even.
  pose proof (Z.div_mod n d ltac:(lia)) as Hdm.
  pose proof (Z.mod_pos_bound n d Hd) as Hr.
  assert (M <= n / d) by nia.
  destruct (2 * (n mod d) ?= d) eqn:E;
    [apply Z.compare_eq in E|rewrite Z.compare_lt_iff in E
    |rewrite Z.compare_gt_iff in E];
    [destruct (Z.even (n / d))|..]; nia.
Qed.

Lemma pow2_pos (k : Z) : 0 < pow2 k.
Proof. unfold pow2. apply Z.pow_pos_nonneg; lia. Qed.

Lemma pow2_nonpos (k : Z) : k <= 0 -> pow2 k = 1.
Proof. intros H. unfold pow2. rewrite Z.max_l by lia. reflexivity. Qed.

Lemma pow2_nonneg (k : Z) : 0 <= k -> pow2 k = 2 ^ k.
Proof. intros H. unfold pow2. rewrite Z.max_r by lia. reflexivity. Qed.

(** The binade is not above the quotient. *)
Lemma binade_spec (n d : Z) :
  0 < n -> 0 < d ->
  d * pow2 (binade n d) <= n * pow2 (- binade n d) /\
  Z.log2 n - Z.log2 d - 1 <= binade n d.
Proof.
  intros Hn Hd. unfold binade.
  set (g := Z.log2 n - Z.log2 d).
  destruct (n * pow2 (- g) <? d * pow2 g) eqn:E; [|split; lia].
  split; [|lia].
  pose proof (Z.log2_spec n Hn) as [Hn1 _].
  pose proof (Z.log2_spec d Hd) as [_ Hd2].
  pose proof (Z.log2_nonneg n) as Hln. pose proof (Z.log2_nonneg d) as Hld.
  destruct (Z_le_gt_dec 1 g) as [Hg|Hg].
  - rewrite (pow2_nonneg (g - 1)), (pow2_nonpos (- (g - 1))) by lia.
    assert (Hp : 2 ^ Z.log2 n = 2 ^ Z.succ (Z.log2 d) * 2 ^ (g - 1)).
    { rewrite <- Z.pow_add_r by lia. f_equal. unfold g. lia. }
    pose proof (Z.pow_pos_nonneg 2 (g - 1) ltac:(lia) ltac:(lia)). nia.
  - rewrite (pow2_nonpos (g - 1)), (pow2_nonneg (- (g - 1))) by lia.
    assert (Hp : 2 ^ Z.succ (Z.log2 d) = 2 ^ Z.log2 n * 2 ^ (- (g - 1))).
    { rewrite <- Z.pow_add_r by lia. f_equal. unfold g. lia. }
    pose proof (Z.pow_pos_nonneg 2 (- (g - 1)) ltac:(lia) ltac:(lia)). nia.
Qed.

(** The scale of a quotient whose divisor is below [2 ^ 53]: with
    [e] the exponent [true_div] rounds at, [S = 2 ^ -e] or [P = 2 ^ e]
    is 1, the scaled quotient has at least [2 ^ 52] units, and a positive
    integer [T] with [T * d < 2 ^ 53] is a multiple of the unit, next to
    which no quotient of divisor [d] is rounded. *)
Lemma true_div_scale (n d : Z) :
  0 < n -> 0 < d < 2 ^ 53 ->
  let e := Z.max (binade n d - 52) (-1074) in
  let S := pow2 (- e) in
  let P := pow2 e in
  0 < S /\ 0 < P /\
  2 ^ 52 * (d * P) <= n * S /\
  ((P = 1 /\ forall T, 0 < T -> T * d < 2 ^ 53 -> d < 2 * S \/ T * S < 2 ^ 52) \/
   (S = 1 /\ 2 <= P)).
Proof.
  intros Hn Hd e S P.
  destruct (binade_spec n d Hn ltac:(lia)) as [HB HE].
  pose proof (Z.log2_nonneg n) as Hln.
  assert (Hld : Z.log2 d < 53) by (apply Z.log2_lt_pow2; lia).
  set (E := binade n d) in *.
  assert (He : e = E - 52) by (unfold e; lia).
  split; [apply pow2_pos|]. split; [apply pow2_pos|].
  unfold S, P. rewrite He.
  destruct (Z_le_gt_dec 53 E) as [H53|H53].
  - (* the quotient is at least 2^53 *)
    rewrite (pow2_nonneg E), (pow2_nonpos (- E)) in HB by lia.
    rewrite (pow2_nonneg (E - 52)), (pow2_nonpos (- (E - 52))) by lia.
    assert (Hp : 2 ^ E = 2 ^ 52 * 2 ^ (E - 52)).
    { rewrite <- Z.pow_add_r by lia. f_equal. lia. }
    split; [nia|]. right. split; [reflexivity|].
    change 2 with (2 ^ 1) at 1. apply Z.pow_le_mono_r; lia.
  - rewrite (pow2_nonpos (E - 52)), (pow2_nonneg (- (E - 52))) by lia.
    destruct (Z_le_gt_dec 0 E) as [H0|H0].
    + rewrite (pow2_nonneg E), (pow2_nonpos (- E)) in HB by lia.
      assert (Hp : 2 ^ 52 = 2 ^ E * 2 ^ (- (E - 52))).
      { rewrite <- Z.pow_add_r by lia. f_equal. lia. }
      pose proof (Z.pow_pos_nonneg 2 E ltac:(lia) H0) as HpE.
      pose proof (Z.pow_pos_nonneg 2 (- (E - 52)) ltac:(lia) ltac:(lia)) as HpS.
      split; [nia|]. left. split; [reflexivity|].
      intros T HT HTd.
      destruct (Z_lt_le_dec T (2 ^ E)) as [Hlt|Hge]; [right; nia|left].
      change (2 ^ 53) with (2 * 2 ^ 52) in HTd. nia.
    + rewrite (pow2_nonpos E), (pow2_nonneg (- E)) in HB by lia.
      assert (Hp : 2 ^ (- (E - 52)) = 2 ^ 52 * 2 ^ (- E)).
      { rewrite <- Z.pow_add_r by lia. f_equal. lia. }
      pose proof (Z.pow_pos_nonneg 2 (- E) ltac:(lia) ltac:(lia)) as HpS.
      split; [nia|]. left. split; [reflexivity|].
      intros T HT HTd. left.
      change (2 ^ 53) with (2 * 2 ^ 52) in Hd. nia.
Qed.

(** Under these bounds the division raises nothing, and its rounded
    quotient compares with an integer [t] as the exact quotient does. *)
Lemma true_div_compare (t a b : Z) :
  0 < b < 2 ^ 53 -> Z.abs t * b < 2 ^ 53 -> Z.abs a < 2 ^ 1023 ->
  exists q, true_div a b = Ret q /\ Qle_bool (inject_Z t) q = (t * b <=? a).
Proof.
  intros Hb Ht Ha. unfold true_div.
  destruct (b =? 0) eqn:Eb; [lia|].
  destruct (a =? 0) eqn:Ea.
  { exists (inject_Z 0). split; [reflexivity|].
    apply Z.eqb_eq in Ea. subst a.
    apply eq_true_iff_eq. unfold Qle_bool. cbn. rewrite !Z.leb_le. nia. }
  apply Z.eqb_neq in Ea.
  rewrite (Z.abs_eq b) by lia. rewrite (Z.sgn_pos b) by lia.
  destruct (true_div_scale (Z.abs a) b ltac:(lia) Hb) as (HS & HP & H52 & Hcase).
  set (e := Z.max (binade (Z.abs a) b - 52) (-1074)) in *.
  set (S := pow2 (- e)) in *. set (P := pow2 e) in *.
  set (m := round_half_even (Z.abs a * S) (b * P)).
  assert (HD : 0 < b * P) by nia.
  pose proof (fun M => round_half_even_ge (Z.abs a * S) (b * P) M HD) as Rge.
  pose proof (fun M => round_half_even_le (Z.abs a * S) (b * P) M HD) as Rle.
  pose proof (fun M => round_half_even_lt (Z.abs a * S) (b * P) M HD) as Rlt.
  pose proof (fun M => round_half_even_gt (Z.abs a * S) (b * P) M HD) as Rgt.
  fold m in Rge, Rle, Rlt, Rgt.
  assert (Hsgn : (a < 0 /\ Z.abs a = - a /\ Z.sgn a = -1) \/
                 (0 < a /\ Z.abs a = a /\ Z.sgn a = 1)).
  { destruct (Z.lt_trichotomy a 0) as [?|[?|?]]; [left|lia|right].
    - rewrite Z.abs_neq, Z.sgn_neg by lia. lia.
    - rewrite Z.abs_eq, Z.sgn_pos by lia. lia. }
  assert (Hn : 0 < Z.abs a) by lia.
  assert (Hdiv : exists k, Z.abs a < (k + 1) * P /\ k * P <= Z.abs a).
  { exists (Z.abs a / P).
    pose proof (Z.div_mod (Z.abs a) P ltac:(lia)).
    pose proof (Z.mod_pos_bound (Z.abs a) P HP). nia. }
  clearbody m. generalize dependent (Z.abs a). intros n. intros.
  clearbody S P. clear e.
  change (2 ^ 53) with (2 * 2 ^ 52) in *.
  change (2 ^ 1024) with (2 * 2 ^ 1023).
  generalize dependent (2 ^ 52). intros X. intros.
  generalize dependent (2 ^ 1023). intros Y. intros.
  assert (Hm52 : X <= m) by (apply Rge; lia).
  assert (Hfin : (2 * Y * S <=? m * P) = false).
  { apply Z.leb_gt.
    destruct Hcase as [[HP1 _]|[HS1 HP2]].
    - subst P. assert (m <= n * S) by (apply Rle; nia). nia.
    - subst S. destruct Hdiv as (k & Hk1 & Hk2).
      assert (m <= k + 1) by (apply Rle; nia). nia. }
  rewrite Hfin. eexists. split; [reflexivity|].
  apply eq_true_iff_eq. unfold Qle_bool. cbn [Qnum Qden inject_Z].
  rewrite Z2Pos.id by exact HS. rewrite !Z.leb_le, Z.mul_1_r.
  clear Hfin Hdiv.
  destruct Hsgn as [(Hneg & -> & ->)|(Hpos & -> & ->)].
  - (* the quotient is negative *)
    destruct (Z.lt_trichotomy t 0) as [Htn|[->|Htp]].
    + rewrite (Z.abs_neq t) in Ht by lia.
      destruct Hcase as [[HP1 Hnear]|[HS1 HP2]].
      * subst P. rewrite Z.mul_1_r in *. split; intros H.
        -- destruct (Z_le_gt_dec (t * b) a) as [?|Hgt]; [assumption|exfalso].
           destruct (Hnear (- t) ltac:(lia) Ht) as [Hd|Hbig]; [|nia].
           assert (- t * S < m) by (apply Rgt; nia).
           nia.
        -- assert (m <= - t * S) by (apply Rle; nia).
           nia.
      * subst S. split; intros H; nia.
    + split; intros H; nia.
    + split; intros H; nia.
  - (* the quotient is positive *)
    destruct (Z.lt_trichotomy t 0) as [Htn|[->|Htp]].
    + split; intros H; nia.
    + split; intros H; nia.
    + rewrite (Z.abs_eq t) in Ht by lia.
      destruct Hcase as [[HP1 Hnear]|[HS1 HP2]].
      * subst P. rewrite Z.mul_1_r in *. split; intros H.
        -- destruct (Z_le_gt_dec (t * b) a) as [?|Hgt]; [assumption|exfalso].
           destruct (Hnear t Htp Ht) as [Hd|Hbig]; [|nia].
           assert (m < t * S) by (apply Rlt; nia).
           nia.
        -- assert (t * S <= m) by (apply Rge; nia).
           nia.
      * subst S. split; intros H; nia.
Qed.

(** *** The loop over the thresholds *)

(** The callbacks called by the loop over the thresholds of an object
    whose coverage went from [cur] to [now], when the size, the thresholds
    and the coverages are within the bounds of [true_div_compare]. *)
Lemma notify_thresholds_run (cbs : list (Z * callback)) (cur size now : Z)
    (s : state) :
  0 < size < 2 ^ 53 ->
  Forall (fun tc : Z * callback => Z.abs (fst tc) * size < 2 ^ 53) cbs ->
  Z.abs (100 * cur) < 2 ^ 1023 -> Z.abs (100 * now) < 2 ^ 1023 ->
  notify_thresholds cbs cur size (true_div (100 * now) size) s
  = (Ret tt,
     mkState (coverage_db s)
       (fired s ++
        map snd (List.filter
                   (fun tc : Z * callback =>
                      (100 * cur <? fst tc * size) && (fst tc * size <=? 100 * now))
                   cbs))).
Proof.
  intros Hsz Hcbs Hcur Hnow.
  destruct (true_div_compare 0 (100 * cur) size Hsz ltac:(lia) Hcur)
    as (q1 & Hq1 & _).
  destruct (true_div_compare 0 (100 * now) size Hsz ltac:(lia) Hnow)
    as (q2 & Hq2 & _).
  assert (Hcmp : Forall (fun tc : Z * callback =>
            Qlt_bool q1 (inject_Z (fst tc)) = (100 * cur <? fst tc * size) /\
            Qle_bool (inject_Z (fst tc)) q2 = (fst tc * size <=? 100 * now)) cbs).
  { eapply Forall_impl; [exact Hcbs|]. intros [t cb] Ht. cbn [fst] in *.
    destruct (true_div_compare t (100 * cur) size Hsz Ht Hcur) as (q & Hq & Hc).
    rewrite Hq1 in Hq. injection Hq as <-.
    destruct (true_div_compare t (100 * now) size Hsz Ht Hnow) as (q & Hq & Hc').
    rewrite Hq2 in Hq. injection Hq as <-.
    split; [|exact Hc']. unfold Qlt_bool. rewrite Hc. symmetry. apply Z.ltb_antisym. }
  rewrite Hq2. clear Hcbs Hq2. revert s.
  induction cbs as [|[t cb] cbs IH]; intros s.
  - cbn. rewrite app_nil_r. destruct s; reflexivity.
  - apply Forall_cons in Hcmp as [[H1 H2] Hcmp]. cbn [fst] in H1, H2.
    cbn [notify_thresholds List.filter fst]. rewrite Hq1.
    unfold bind at 1, lift at 1. unfold bind at 1.
    rewrite H1.
    destruct (100 * cur <? t * size); cbn [andb].
    + unfold bind at 1, lift at 1. rewrite H2.
      destruct (t * size <=? 100 * now).
      * unfold call. rewrite (IH Hcmp). cbn [coverage_db fired map snd].
        rewrite <- app_assoc. reflexivity.
      * unfold ret. rewrite (IH Hcmp). reflexivity.
    + unfold ret. rewrite (IH Hcmp). reflexivity.
Qed.

(** X5. For an object of size [0 < size < 2 ^ 53] whose thresholds [t] have
    [|t| * size < 2 ^ 53], and whose coverage went from [cur] to [now],
    both with [|100 * c| < 2 ^ 1023], the loop over its threshold callbacks
    raises nothing, leaves the registry alone and calls, in the order of
    registration, exactly the callbacks whose threshold [t] has
    [100 * cur < t * size <= 100 * now]; none when the coverage did not
    grow.  Within these bounds the doubles the loop computes compare with
    the thresholds as the exact quotients do. *)
Theorem threshold_callbacks_called (cbs : list (Z * callback)) (cur size now : Z)
    (s : state) :
  0 < size < 2 ^ 53 ->
  Forall (fun tc : Z * callback => Z.abs (fst tc) * size < 2 ^ 53) cbs ->
  Z.abs (100 * cur) < 2 ^ 1023 -> Z.abs (100 * now) < 2 ^ 1023 ->
  let crossed := fun tc : Z * callback =>
    (100 * cur <? fst tc * size) && (fst tc * size <=? 100 * now) in
  let m := notify_thresholds cbs cur size (true_div (100 * now) size) in
  result m s = Ret tt /\
  coverage_db (exec m s) = coverage_db s /\
  fired (exec m s) = fired s ++ map snd (List.filter crossed cbs) /\
  (now <= cur -> fired (exec m s) = fired s).
Proof.
  intros Hsz Hcbs Hcur Hnow crossed m. unfold result, exec, m.
  rewrite (notify_thresholds_run cbs cur size now s Hsz Hcbs Hcur Hnow).
  cbn [fst snd coverage_db fired].
  split; [reflexivity|]. split; [reflexivity|]. split; [reflexivity|].
  intros Hle.
  assert (Hnone : List.filter
            (fun tc : Z * callback =>
               (100 * cur <? fst tc * size) && (fst tc * size <=? 100 * now)) cbs
          = []).
  { clear Hcbs. induction cbs as [|[t cb] cbs IH]; [reflexivity|].
    cbn [List.filter fst].
    destruct (100 * cur <? t * size) eqn:E1; cbn [andb]; [|exact IH].
    destruct (t * size <=? 100 * now) eqn:E2; [lia|exact IH]. }
  rewrite Hnone. cbn. apply app_nil_r.
Qed.

Lemma threshold_callbacks_called_witness :
  let cbs := [(34, 1%nat); (0, 2%nat); (33, 3%nat); (67, 4%nat); (-5, 5%nat)] in
  let m := notify_thresholds cbs 0 3 (true_div (100 * 2) 3) in
  0 < 3 < 2 ^ 53 /\
  Forall (fun tc : Z * callback => Z.abs (fst tc) * 3 < 2 ^ 53) cbs /\
  Z.abs (100 * 0) < 2 ^ 1023 /\ Z.abs (100 * 2) < 2 ^ 1023 /\
  result m empty_state = Ret tt /\
  fired (exec m empty_state) = [1%nat; 3%nat].
Proof.
  cbn zeta.
  assert (H1 : 0 < 3 < 2 ^ 53) by (split; reflexivity).
  assert (H2 : Forall (fun tc : Z * callback => Z.abs (fst tc) * 3 < 2 ^ 53)
                 [(34, 1%nat); (0, 2%nat); (33, 3%nat); (67, 4%nat); (-5, 5%nat)])
    by (repeat constructor).
  assert (H3 : Z.abs (100 * 0) < 2 ^ 1023) by reflexivity.
  assert (H4 : Z.abs (100 * 2) < 2 ^ 1023) by reflexivity.
  split; [exact H1|]. split; [exact H2|]. split; [exact H3|]. split; [exact H4|].
  pose proof (threshold_callbacks_called
                [(34, 1%nat); (0, 2%nat); (33, 3%nat); (67, 4%nat); (-5, 5%nat)]
                0 3 2 empty_state H1 H2 H3 H4) as H.
  cbn zeta in H. destruct H as (Hr & _ & Hf & _).
  split; [exact Hr|exact Hf].
Defined.

(** ** Objects of size 0 *)

Lemma result_bind_Ret {A B} (m : M A) (k : A -> M B) (s s' : state) (a : A) :
  m s = (Ret a, s') -> result (bind m k) s = result (k a) s'.
Proof. intros H. unfold result. rewrite (bind_Ret _ _ _ _ _ H). reflexivity. Qed.

(** With a threshold registered and size 0, the loop over the thresholds
    raises at its first division. *)
Lemma notify_thresholds_zero (cbs : list (Z * callback)) (cur : Z)
    (now : outcome Q) (s : state) :
  cbs <> [] ->
  notify_thresholds cbs cur 0 now s = (Raise ZeroDivisionError, s).
Proof. destruct cbs as [|[t cb] cbs]; [congruence|]. reflexivity. Qed.

Lemma raises_after {A} (m k : M A) (s : state) :
  (forall s1, exists e, result k s1 = Raise e) ->
  exists e, result (m ;; k) s = Raise e.
Proof.
  intros Hk. unfold result, bind. destruct (m s) as [[a|e] s1]; [|eauto].
  apply Hk.
Qed.

(** X6. A point or a cross of size 0 on which a threshold callback is
    registered cannot be sampled without an exception: every sampling
    event of it raises. *)
Theorem sampling_size_zero_raises (s : state) (name : string) (n : node)
    (v : pyval) :
  coverage_db s !! name = Some n ->
  (exists rel w al inj hits, _body n = Point rel w al inj hits) \/
  (exists w al items hits, _body n = Cross w al items hits) ->
  _size n = 0 ->
  _threshold_callbacks n <> [] ->
  exists e, result (sample name v) s = Raise e.
Proof.
  intros Hn Hclass Hsz Hcb. unfold sample.
  rewrite (result_bind_Ret _ _ _ _ _ (lookup_node_Some _ _ _ Hn)).
  destruct Hclass as [(rel & w & al & inj & hits & Hb)|(w & al & items & hits & Hb)];
    rewrite Hb.
  - unfold CoverPoint_sample.
    rewrite (result_bind_Ret _ _ _ _ _ (lookup_node_Some _ _ _ Hn)). rewrite Hb.
    assert (Hcur : forall st, lift (coverage n) st
              = (Ret (weighted_coverage (_size n) w al hits), st)).
    { intros st. unfold lift, coverage. rewrite Hb. reflexivity. }
    rewrite (result_bind_Ret _ _ _ _ _ (Hcur _)).
    destruct (match_bins _ _ _ _ _ _ _ _) as [[hits' nh] calls].
    rewrite (result_bind_Ret _ _ _ _ _ (modify_node_Some _ _ _ _ Hn)).
    rewrite (result_bind_Ret _ _ _ _ _ (call_all_run _ _)).
    erewrite result_bind_Ret
      by (apply lookup_node_Some; cbn [coverage_db]; apply lookup_insert_eq).
    set (n' := set_body _ _).
    assert (Hnow : exists c, coverage n' = Ret c).
    { unfold coverage, n'. cbn. eauto. }
    destruct Hnow as [c Hnow].
    erewrite result_bind_Ret by (unfold lift; rewrite Hnow; reflexivity).
    apply raises_after. intros s1. exists ZeroDivisionError.
    unfold result. change (size n') with (_size n). rewrite Hsz.
    rewrite notify_thresholds_zero; [reflexivity|exact Hcb].
  - unfold CoverCross_sample.
    rewrite (result_bind_Ret _ _ _ _ _ (lookup_node_Some _ _ _ Hn)). rewrite Hb.
    assert (Hcur : forall st, lift (coverage n) st
              = (Ret (weighted_coverage (_size n) w al hits), st)).
    { intros st. unfold lift, coverage. rewrite Hb. reflexivity. }
    rewrite (result_bind_Ret _ _ _ _ _ (Hcur _)).
    rewrite (result_bind_Ret _ _ _ _ _ (get_db_run s)).
    destruct (hit_lists (coverage_db s) items) as [ls|e] eqn:Hls.
    2:{ exists e. unfold result. erewrite bind_Raise by reflexivity. reflexivity. }
    erewrite result_bind_Ret by reflexivity.
    destruct (match_cross _ _ _ _) as [hits' calls].
    rewrite (result_bind_Ret _ _ _ _ _ (modify_node_Some _ _ _ _ Hn)).
    rewrite (result_bind_Ret _ _ _ _ _ (call_all_run _ _)).
    erewrite result_bind_Ret
      by (apply lookup_node_Some; cbn [coverage_db]; apply lookup_insert_eq).
    set (n' := set_body _ _).
    assert (Hnow : exists c, coverage n' = Ret c).
    { unfold coverage, n'. cbn. eauto. }
    destruct Hnow as [c Hnow].
    erewrite result_bind_Ret by (unfold lift; rewrite Hnow; reflexivity).
    apply raises_after. intros s1. exists ZeroDivisionError.
    unfold result. change (size n') with (_size n). rewrite Hsz.
    rewrite notify_thresholds_zero; [reflexivity|exact Hcb].
Qed.

Lemma sampling_size_zero_raises_witness :
  let s := EmptyCrossExample.registered in
  size_of s "top.x" = Ret 0 /\
  exists e, result (sample "top.x" PNone) s = Raise e.
Proof.
  cbn zeta. split; [vm_compute; reflexivity|].
  assert (Hn : coverage_db EmptyCrossExample.registered !! "top.x"
               = Some (mkNode "top.x" 0 0 (Some "top") [] [] [(50, 1%nat)] []
                         (Cross 1 1 ["top.a"] [])))
    by (vm_compute; reflexivity).
  apply (sampling_size_zero_raises _ "top.x" _ PNone Hn).
  - right. cbn. eauto.
  - reflexivity.
  - cbn. discriminate.
Defined.

(** ** Sections of coverage items *)

Lemma bind_ext {A B} (m : M A) (k k' : A -> M B) (s : state) :
  (forall a s1, k a s1 = k' a s1) -> bind m k s = bind m k' s.
Proof. intros H. unfold bind. destruct (m s) as [[a|e] s1]; [apply H|reflexivity]. Qed.

Lemma decorate_run {A} (name : string) (f : pyval -> M A) (s : state) (n : node) :
  coverage_db s !! name = Some n -> _body n <> Item ->
  decorate name f s = (Ret (fun args => sample name args ;; f args), s).
Proof.
  intros Hn Hb. unfold decorate.
  rewrite (bind_Ret _ _ _ _ _ (lookup_node_Some _ _ _ Hn)).
  destruct (_body n); [congruence| | | |]; reflexivity.
Qed.

Lemma decorate_Item {A} (name : string) (f : pyval -> M A) (s : state) (n : node) :
  coverage_db s !! name = Some n -> _body n = Item ->
  decorate name f s = (Raise TypeError, s).
Proof.
  intros Hn Hb. unfold decorate.
  rewrite (bind_Ret _ _ _ _ _ (lookup_node_Some _ _ _ Hn)). rewrite Hb. reflexivity.
Qed.

Lemma apply_decorators_run {A} (decorators : list string) (s : state) :
  Forall (fun name => exists n, coverage_db s !! name = Some n /\ _body n <> Item)
         decorators ->
  forall f : pyval -> M A,
    exists g, apply_decorators decorators f s = (Ret g, s) /\
      forall args s',
        g args s'
        = fold_left (fun k name => sample name args ;; k) decorators (f args) s'.
Proof.
  induction 1 as [|dec rest (n & Hn & Hb) _ IH]; intros f.
  - exists f. split; reflexivity.
  - cbn [apply_decorators fold_left].
    rewrite (bind_Ret _ _ _ _ _ (decorate_run dec f s n Hn Hb)).
    destruct (IH (fun args => sample dec args ;; f args)) as (g & Hg & Heq).
    exists g. split; [exact Hg|exact Heq].
Qed.

Lemma apply_decorators_Item {A} (decorators : list string) (s : state) :
  Forall (fun name => is_Some (coverage_db s !! name)) decorators ->
  Exists (fun name => exists n, coverage_db s !! name = Some n /\ _body n = Item)
         decorators ->
  forall f : pyval -> M A, apply_decorators decorators f s = (Raise TypeError, s).
Proof.
  induction 1 as [|dec rest [n Hn] Hall IH]; intros Hex f.
  - inversion Hex.
  - cbn [apply_decorators].
    destruct (_body n) eqn:Hb.
    1:{ rewrite (bind_Raise _ _ _ _ _ (decorate_Item dec f s n Hn Hb)). reflexivity. }
    all: rewrite (bind_Ret _ _ _ _ _
                    (decorate_run dec f s n Hn ltac:(rewrite Hb; discriminate)));
      apply IH; inversion Hex as [? ? (n' & Hn' & Hb')|]; subst;
      [rewrite Hn in Hn'; injection Hn' as <-; congruence|assumption].
Qed.

(** X7. [coverageSection(c1, ..., ck)] applied to [f] builds, without touching
    the registry, a function that samples [c1], then [c2], ..., then [ck]
    with its arguments and then calls [f], stopping at the first exception;
    when one of the items is a plain [CoverItem], building it raises
    [TypeError]. *)
Theorem coverageSection_samples_in_order {A} (coverItems : list string)
    (f : pyval -> M A) (s : state) :
  Forall (fun name => is_Some (coverage_db s !! name)) coverItems ->
  (Forall (fun name => exists n, coverage_db s !! name = Some n /\ _body n <> Item)
          coverItems ->
   exists g, coverageSection coverItems f s = (Ret g, s) /\
     forall args s',
       g args s'
       = fold_right (fun name k => sample name args ;; k) (f args) coverItems s') /\
  (Exists (fun name => exists n, coverage_db s !! name = Some n /\ _body n = Item)
          coverItems ->
   coverageSection coverItems f s = (Raise TypeError, s)).
Proof.
  intros Hreg. unfold coverageSection. split.
  - intros Hok.
    destruct (apply_decorators_run (rev coverItems) s
                ltac:(apply Forall_rev; exact Hok) f) as (g & Hg & Heq).
    exists g. split; [exact Hg|]. intros args s'. rewrite Heq.
    rewrite <- (rev_involutive coverItems) at 2.
    rewrite fold_left_rev_right. reflexivity.
  - intros Hex. apply apply_decorators_Item.
    + apply Forall_rev. exact Hreg.
    + apply Exists_exists in Hex. destruct Hex as (x & Hin & Hx).
      apply Exists_exists. exists x. split; [|exact Hx].
      apply list_elem_of_In. apply (proj1 (in_rev _ _)).
      apply list_elem_of_In. exact Hin.
Qed.

Lemma coverageSection_samples_in_order_witness :
  let s := CrossExample.registered 1 1 in
  let items := ["top.a"; "top.b"; "top.x"] in
  let f := fun _ : pyval => call 9%nat in
  exists g, coverageSection items f s = (Ret g, s) /\
    hit_count (exec (g (PInt 2)) s) "top.x" (PTuple [PInt 2; PInt 2]) = Ret 1 /\
    fired (exec (g (PInt 2)) s) = [9%nat].
Proof.
  cbn zeta.
  assert (Hreg : Forall (fun name =>
                           is_Some (coverage_db (CrossExample.registered 1 1) !! name))
                        ["top.a"; "top.b"; "top.x"]).
  { repeat constructor; vm_compute; eauto. }
  assert (Hok : Forall (fun name => exists n,
                          coverage_db (CrossExample.registered 1 1) !! name = Some n /\
                          _body n <> Item)
                       ["top.a"; "top.b"; "top.x"]).
  { repeat constructor; eexists; (split; [vm_compute; reflexivity|discriminate]). }
  destruct (proj1 (coverageSection_samples_in_order ["top.a"; "top.b"; "top.x"]
                     (fun _ : pyval => call 9%nat) _ Hreg) Hok) as (g & Hg & Heq).
  exists g. split; [exact Hg|].
  unfold exec. rewrite Heq. split; vm_compute; reflexivity.
Defined.

(** ** Names and parents *)

Lemma split_dot_nonempty (s : string) : split_dot s <> [].
Proof.
  destruct s as [|a s]; cbn; [discriminate|].
  destruct (Ascii.eqb a dot); [discriminate|].
  destruct (split_dot s); discriminate.
Qed.

Lemma join_dot_String (a : ascii) (seg : string) (segs : list string) :
  join_dot (String a seg :: segs) = String a (join_dot (seg :: segs)).
Proof. destruct segs; reflexivity. Qed.

(** Joining the segments of a name with dots gives the name back. *)
Lemma join_split_dot (s : string) : join_dot (split_dot s) = s.
Proof.
  induction s as [|a s IH]; [reflexivity|].
  cbn [split_dot]. revert IH. destruct (Ascii.eqb a dot) eqn:E; intros IH.
  - apply Ascii.eqb_eq in E. subst a.
    revert IH.
    destruct (split_dot s) as [|seg segs] eqn:Hs; [destruct (split_dot_nonempty s Hs)|].
    intros IH. rewrite join_dot_cons2. cbn [String.append]. rewrite IH. reflexivity.
  - revert IH.
    destruct (split_dot s) as [|seg segs] eqn:Hs; [destruct (split_dot_nonempty s Hs)|].
    intros IH. rewrite join_dot_String, IH. reflexivity.
Qed.

Lemma split_dot_app (p q : string) :
  split_dot (p ++ String dot q)%string = split_dot p ++ split_dot q.
Proof.
  induction p as [|a p IH].
  - cbn. reflexivity.
  - change (String a p ++ String dot q)%string
      with (String a (p ++ String dot q))%string.
    cbn [split_dot]. rewrite IH.
    destruct (Ascii.eqb a dot); [reflexivity|].
    destruct (split_dot p) as [|seg segs] eqn:Hs; [destruct (split_dot_nonempty p Hs)|].
    reflexivity.
Qed.

Lemma contains_dot_app (p q : string) :
  contains_dot (p ++ String dot q)%string = true.
Proof.
  induction p as [|a p IH].
  - reflexivity.
  - change (String a p ++ String dot q)%string
      with (String a (p ++ String dot q))%string.
    cbn [contains_dot]. rewrite IH. apply orb_true_r.
Qed.

(** X8. The parent of the name [p.seg], where [seg] has no dot, is [p]: the
    name computed by joining all the segments but the last is the name up
    to its last dot. *)
Theorem parent_name_of_child (p seg : string) :
  contains_dot seg = false ->
  contains_dot (p ++ String dot seg)%string = true /\
  parent_name (p ++ String dot seg)%string = p.
Proof.
  intros Hseg. split; [apply contains_dot_app|].
  unfold parent_name. rewrite split_dot_app, (split_dot_no_dot seg Hseg).
  rewrite removelast_last. apply join_split_dot.
Qed.

Lemma parent_name_of_child_witness :
  contains_dot "coverpoint1" = false /\
  parent_name "top.parent.coverpoint1" = "top.parent" /\
  parent_name ".x" = "" /\
  parent_name "a..b" = "a.".
Proof.
  split; [reflexivity|].
  split; [exact (proj2 (parent_name_of_child "top.parent" "coverpoint1" eq_refl))|].
  split; [exact (proj2 (parent_name_of_child "" "x" eq_refl))|].
  exact (proj2 (parent_name_of_child "a." "b" eq_refl)).
Defined.

(** ** Objects whose constructor failed *)

Lemma constructor_without_parent (o : op) (name : string) (s : state) :
  constructs o name -> contains_dot name = false ->
  coverage_db s !! name = None ->
  exists c,
    run_op o s
    = (Raise MissingParent,
       mkState (<[name := fresh_node name None (Partial c)]> (coverage_db s))
               (fired s)).
Proof.
  intros Ho Hdot Hnew.
  assert (Hinit : forall c,
    CoverItem_init (String.length name) (Partial c) name s
    = (Ret tt, mkState (<[name := fresh_node name None (Partial c)]> (coverage_db s))
                       (fired s))).
  { intros c. destruct (String.length name); simpl; rewrite Hdot; reflexivity. }
  assert (Hself : forall c,
    lookup_node name
      (mkState (<[name := fresh_node name None (Partial c)]> (coverage_db s)) (fired s))
    = (Ret (fresh_node name None (Partial c)),
       mkState (<[name := fresh_node name None (Partial c)]> (coverage_db s)) (fired s))).
  { intros c. apply lookup_node_Some. simpl. apply lookup_insert_eq. }
  destruct o; cbn in Ho; try contradiction; subst name0; cbn [run_op].
  - exists PointC. apply bind_Raise. unfold CoverPoint.
    rewrite (bind_Ret _ _ _ _ _ (get_db_run s)), Hnew.
    apply bind_Raise. unfold CoverPoint_init.
    rewrite (bind_Ret _ _ _ _ _ (get_db_run s)), Hnew.
    rewrite (bind_Ret _ _ _ _ _ (Hinit _)), (bind_Ret _ _ _ _ _ (Hself _)).
    reflexivity.
  - exists CrossC. apply bind_Raise. unfold CoverCross.
    rewrite (bind_Ret _ _ _ _ _ (get_db_run s)), Hnew.
    apply bind_Raise. unfold CoverCross_init.
    rewrite (bind_Ret _ _ _ _ _ (get_db_run s)), Hnew.
    rewrite (bind_Ret _ _ _ _ _ (Hinit _)), (bind_Ret _ _ _ _ _ (Hself _)).
    reflexivity.
  - exists CheckC. apply bind_Raise. unfold CoverCheck.
    rewrite (bind_Ret _ _ _ _ _ (get_db_run s)), Hnew.
    apply bind_Raise. unfold CoverCheck_init.
    rewrite (bind_Ret _ _ _ _ _ (get_db_run s)), Hnew.
    rewrite (bind_Ret _ _ _ _ _ (Hinit _)), (bind_Ret _ _ _ _ _ (Hself _)).
    reflexivity.
Qed.

Lemma constructor_registered (o : op) (name : string) (s : state) :
  constructs o name -> is_Some (coverage_db s !! name) ->
  run_op o s = (Ret tt, s).
Proof.
  intros Ho [n Hn].
  destruct o; cbn in Ho; try contradiction; subst name0; cbn [run_op].
  - unfold CoverPoint. unfold bind at 1.
    rewrite (bind_Ret _ _ _ _ _ (get_db_run s)), Hn. reflexivity.
  - unfold CoverCross. unfold bind at 1.
    rewrite (bind_Ret _ _ _ _ _ (get_db_run s)), Hn. reflexivity.
  - unfold CoverCheck. unfold bind at 1.
    rewrite (bind_Ret _ _ _ _ _ (get_db_run s)), Hn. reflexivity.
Qed.

(** X9. The constructor of a primitive whose name has no parent segment
    raises, and leaves under that name an object that stays unusable
    whatever follows: constructing a primitive under the name again
    returns that object without an exception and without initialising it,
    sampling it raises [AttributeError], and so does reading its coverage. *)
Theorem failed_constructor_leaves_unusable_object (o : op) (name : string)
    (s : state) (ops : list op) :
  constructs o name ->
  contains_dot name = false ->
  coverage_db s !! name = None ->
  let s' := run_ops (o :: ops) s in
  result (run_op o) s = Raise MissingParent /\
  (forall o', constructs o' name -> run_op o' s' = (Ret tt, s')) /\
  (forall v, sample name v s' = (Raise AttributeError, s')) /\
  coverage_of s' name = Raise AttributeError /\
  detailed_coverage_of s' name = Raise AttributeError.
Proof.
  intros Ho Hdot Hnew s'.
  destruct (constructor_without_parent o name s Ho Hdot Hnew) as [c Hrun].
  split; [unfold result; rewrite Hrun; reflexivity|].
  assert (Hb : body_of s' name = Some (Partial c)).
  { unfold s'. cbn [run_ops fold_left]. unfold exec at 2. rewrite Hrun. cbn [snd].
    match goal with
    | |- body_of (fold_left _ ops ?s1) name = _ =>
        assert (H1 : body_of s1 name = Some (Partial c))
          by (unfold body_of; cbn [coverage_db]; rewrite lookup_insert_eq;
              reflexivity);
        destruct (run_ops_body_le ops s1 name (Partial c) H1) as (b' & Hb' & Hle)
    end.
    unfold run_ops in Hb'. rewrite Hb'. f_equal.
    destruct b'; cbn in Hle; try contradiction. subst. reflexivity. }
  clearbody s'. unfold body_of in Hb.
  destruct (coverage_db s' !! name) as [n|] eqn:Hn; [|discriminate].
  cbn in Hb. injection Hb as Hb.
  split; [|split; [|split]].
  - intros o' Ho'. apply (constructor_registered o' name); [exact Ho'|]. rewrite Hn. eauto.
  - intros v. unfold sample.
    rewrite (bind_Ret _ _ _ _ _ (lookup_node_Some _ _ _ Hn)), Hb. reflexivity.
  - unfold coverage_of. rewrite Hn. unfold coverage. rewrite Hb. reflexivity.
  - unfold detailed_coverage_of. rewrite Hn. unfold detailed_coverage.
    rewrite Hb. reflexivity.
Qed.

Lemma failed_constructor_leaves_unusable_object_witness :
  let o := NewCheck "check" is_zero None 1 1 in
  let ops := [NewPoint "check.p" None [PInt 1] 1 1 false; Sample "check.p" (PInt 1);
              NewPoint "check" None [PInt 1] 1 1 false] in
  let s' := run_ops (o :: ops) empty_state in
  result (run_op o) empty_state = Raise MissingParent /\
  run_op (NewCross "check" [] [] 1 1) s' = (Ret tt, s') /\
  sample "check" (PInt 3) s' = (Raise AttributeError, s') /\
  coverage_of s' "check" = Raise AttributeError.
Proof.
  cbn zeta.
  destruct (failed_constructor_leaves_unusable_object
              (NewCheck "check" is_zero None 1 1) "check" empty_state
              [NewPoint "check.p" None [PInt 1] 1 1 false; Sample "check.p" (PInt 1);
               NewPoint "check" None [PInt 1] 1 1 false]
              eq_refl eq_refl eq_refl) as (H1 & H2 & H3 & H4 & _).
  split; [exact H1|]. split; [exact (H2 (NewCross "check" [] [] 1 1) eq_refl)|]. split; [exact (H3 _)|exact H4].
Defined.

(** ** The chain of the ancestors of a name *)

Lemma ancestors_parent (k : string) :
  contains_dot k = true -> parent_name k ∈ ancestors k.
Proof. intros Hdot. rewrite (ancestors_dot _ Hdot). left. Qed.

(** The names on the path from a name to its root are totally ordered by
    ancestry. *)
Lemma chain_total (name c1 c2 : string) :
  c1 ∈ name :: ancestors name -> c2 ∈ name :: ancestors name ->
  c1 = c2 \/ c1 ∈ ancestors c2 \/ c2 ∈ ancestors c1.
Proof.
  remember (String.length name) as len eqn:Hlen.
  revert name Hlen c1 c2.
  induction len as [len IH] using lt_wf_ind. intros name Hlen c1 c2 H1 H2.
  apply elem_of_cons in H1. apply elem_of_cons in H2.
  destruct H1 as [->|H1], H2 as [->|H2]; auto.
  destruct (contains_dot name) eqn:Hdot.
  - rewrite (ancestors_dot _ Hdot) in H1, H2.
    pose proof (parent_name_shorter _ Hdot) as Hlt.
    apply (IH (String.length (parent_name name)) ltac:(lia) (parent_name name) eq_refl);
      assumption.
  - rewrite (ancestors_no_dot _ Hdot) in H1. inversion H1.
Qed.

(** Two names on the path with the same parent are the same name. *)
Lemma path_child_unique (name c1 c2 : string) :
  c1 ∈ name :: ancestors name -> c2 ∈ name :: ancestors name ->
  contains_dot c1 = true -> contains_dot c2 = true ->
  parent_name c1 = parent_name c2 -> c1 = c2.
Proof.
  intros H1 H2 Hd1 Hd2 Hp.
  assert (Hcase : forall a b, contains_dot a = true -> contains_dot b = true ->
            parent_name a = parent_name b -> a ∈ ancestors b -> False).
  { intros a b Hda Hdb Hpab Hin.
    rewrite (ancestors_dot _ Hdb) in Hin. apply elem_of_cons in Hin.
    pose proof (ancestors_parent a Hda) as Hpa.
    destruct Hin as [Ha|Hin].
    - rewrite Hpab, <- Ha in Hpa. exact (not_own_ancestor _ Hpa).
    - rewrite <- Hpab in Hin.
      exact (not_own_ancestor _ (ancestors_trans _ _ _ Hpa Hin)). }
  destruct (chain_total name c1 c2 H1 H2) as [E|[Hin|Hin]]; [exact E| |].
  - destruct (Hcase c1 c2 Hd1 Hd2 Hp Hin).
  - destruct (Hcase c2 c1 Hd2 Hd1 (eq_sym Hp) Hin).
Qed.

(** Every ancestor of a name is the parent of a name on the path. *)
Lemma path_child_exists (name g : string) :
  g ∈ ancestors name ->
  exists c, c ∈ name :: ancestors name /\ contains_dot c = true /\ parent_name c = g.
Proof.
  remember (String.length name) as len eqn:Hlen.
  revert name Hlen.
  induction len as [len IH] using lt_wf_ind. intros name Hlen Hg.
  destruct (contains_dot name) eqn:Hdot.
  - pose proof (parent_name_shorter _ Hdot) as Hlt.
    rewrite (ancestors_dot _ Hdot) in Hg. apply elem_of_cons in Hg.
    destruct Hg as [->|Hg].
    + exists name. split; [left|]. split; [exact Hdot|reflexivity].
    + destruct (IH (String.length (parent_name name)) ltac:(lia) (parent_name name)
                  eq_refl Hg) as (c & Hc & Hdc & Hpc).
      exists c. split; [|split; assumption].
      right. rewrite (ancestors_dot _ Hdot). exact Hc.
  - rewrite (ancestors_no_dot _ Hdot) in Hg. inversion Hg.
Qed.

(** The parent of a name on the path is an ancestor of the name. *)
Lemma path_parent (name c : string) :
  c ∈ name :: ancestors name -> contains_dot c = true ->
  parent_name c ∈ ancestors name.
Proof.
  intros Hc Hdot. apply elem_of_cons in Hc. destruct Hc as [->|Hc].
  - apply ancestors_parent, Hdot.
  - eapply ancestors_trans; [apply ancestors_parent, Hdot|exact Hc].
Qed.

(** ** Sums over the children *)

Lemma child_sum_ext (db db' : gmap string node) (cs : list string) :
  (forall c, c ∈ cs -> size_in db' c = size_in db c) ->
  child_sum db' cs = child_sum db cs.
Proof.
  induction cs as [|c cs IH]; intros H; [reflexivity|].
  unfold child_sum in *. cbn [fold_right]. rewrite (H c) by left.
  rewrite IH; [reflexivity|].
  intros c' Hc'. apply H. right. exact Hc'.
Qed.

Lemma child_sum_app (db : gmap string node) (cs cs' : list string) :
  child_sum db (cs ++ cs') = child_sum db cs + child_sum db cs'.
Proof.
  induction cs as [|c cs IH]; [reflexivity|].
  unfold child_sum in *. cbn [app fold_right]. rewrite IH. lia.
Qed.

(** The sum when the sizes on the path [P] grow by [sz] and exactly one
    of the children is on the path. *)
Lemma child_sum_one (db db' : gmap string node) (P : string -> Prop) (sz : Z)
    (cs : list string) (c0 : string) :
  NoDup cs -> c0 ∈ cs -> P c0 ->
  (forall c, c ∈ cs -> P c -> c = c0) ->
  size_in db' c0 = size_in db c0 + sz ->
  (forall c, c ∈ cs -> c <> c0 -> size_in db' c = size_in db c) ->
  child_sum db' cs = child_sum db cs + sz.
Proof.
  intros Hnd Hin HP Huniq H0 Hother.
  induction Hnd as [|c cs Hc Hnd IH]; [inversion Hin|].
  cbn [child_sum fold_right]. fold (child_sum db' cs). fold (child_sum db cs).
  destruct (decide (c = c0)) as [->|Hne].
  - rewrite H0. rewrite (child_sum_ext db db' cs); [lia|].
    intros c' Hc'. apply Hother; [right; exact Hc'|].
    intros ->. contradiction.
  - rewrite (Hother c) by (auto; left).
    rewrite IH; [lia| | |].
    + apply elem_of_cons in Hin. destruct Hin as [E|Hin]; [congruence|exact Hin].
    + intros c' Hc' HP'. apply Huniq; [right; exact Hc'|exact HP'].
    + intros c' Hc' Hne'. apply Hother; [right; exact Hc'|exact Hne'].
Qed.

(** ** The tree invariant *)

Lemma Tree_empty : Tree ∅.
Proof.
  split; intros ? ? H; rewrite lookup_empty in H; discriminate.
Qed.

Lemma shape_lookup (db db' : gmap string node) (k : string) (n' : node) :
  shape <$> db' !! k = shape <$> db !! k -> db' !! k = Some n' ->
  exists n, db !! k = Some n /\ shape n = shape n'.
Proof.
  intros H Hk. rewrite Hk in H. destruct (db !! k) as [n|]; [|discriminate].
  change (Some (shape n') = Some (shape n)) in H.
  exists n. split; [reflexivity|]. symmetry. exact (Some_inj _ _ H).
Qed.

Lemma shape_is_Some (db db' : gmap string node) (k : string) :
  shape <$> db' !! k = shape <$> db !! k -> is_Some (db' !! k) <-> is_Some (db !! k).
Proof.
  intros H. destruct (db' !! k), (db !! k); cbn in H; try discriminate;
    split; intros [? ?]; eauto; discriminate.
Qed.

Lemma shape_size_in (db db' : gmap string node) (k : string) :
  shape <$> db' !! k = shape <$> db !! k -> size_in db' k = size_in db k.
Proof.
  intros H. unfold size_in. destruct (db' !! k), (db !! k); cbn in H;
    try discriminate; [|reflexivity].
  unfold shape in H. congruence.
Qed.

(** The invariant reads the shapes, and which objects are plain
    [CoverItem]s. *)
Lemma Tree_same_shape (db db' : gmap string node) :
  (forall k, shape <$> db' !! k = shape <$> db !! k) ->
  (forall k n n', db !! k = Some n -> db' !! k = Some n' ->
                  _body n' = Item -> _body n = Item) ->
  Tree db -> Tree db'.
Proof.
  intros Hshape Hitem HT.
  assert (Hchild : forall g k, is_child db' g k <-> is_child db g k).
  { intros g k. unfold is_child. rewrite (shape_is_Some db db' k (Hshape k)).
    reflexivity. }
  split.
  - intros k n' Hk.
    destruct (shape_lookup db db' k n' (Hshape k) Hk) as (n & Hn & Hs).
    pose proof (tree_wf _ HT k n Hn) as Hwf.
    assert (Hp : _parent n' = _parent n) by (unfold shape in Hs; congruence).
    rewrite Hp. destruct (contains_dot k); [|exact Hwf].
    destruct Hwf as [Hpar Hreg]. split; [exact Hpar|].
    apply (shape_is_Some db db' _ (Hshape _)). exact Hreg.
  - intros k n' Hk.
    destruct (shape_lookup db db' k n' (Hshape k) Hk) as (n & Hn & Hs).
    rewrite <- (tree_name _ HT k n Hn). unfold shape in Hs. congruence.
  - intros g n' Hg.
    destruct (shape_lookup db db' g n' (Hshape g) Hg) as (n & Hn & Hs).
    assert (Hc : _children n' = _children n) by (unfold shape in Hs; congruence).
    rewrite Hc. destruct (tree_children _ HT g n Hn) as [Hnd Hmem].
    split; [exact Hnd|]. intros k. rewrite Hmem, Hchild. reflexivity.
  - intros g n' Hg Hb.
    destruct (shape_lookup db db' g n' (Hshape g) Hg) as (n & Hn & Hs).
    assert (Hc : _children n' = _children n) by (unfold shape in Hs; congruence).
    assert (Hz : _size n' = _size n) by (unfold shape in Hs; congruence).
    rewrite Hc, Hz, (tree_size _ HT g n Hn (Hitem g n n' Hn Hg Hb)).
    symmetry. apply child_sum_ext. intros c _. apply shape_size_in, Hshape.
Qed.

(** In a tree, nothing registered has an unregistered name as parent. *)
Lemma Tree_no_child (db : gmap string node) (k k0 : string) :
  Tree db -> db !! k = None -> ~ is_child db k k0.
Proof.
  intros HT Hk ([n0 Hn0] & Hdot & Hp).
  pose proof (tree_wf _ HT k0 n0 Hn0) as Hwf. rewrite Hdot in Hwf.
  destruct Hwf as [_ [x Hx]]. rewrite Hp in Hx. congruence.
Qed.

Lemma Tree_children_registered (db : gmap string node) (g c : string) (n : node) :
  Tree db -> db !! g = Some n -> c ∈ _children n -> is_child db g c.
Proof. intros HT Hg Hc. apply (tree_children _ HT g n Hg). exact Hc. Qed.

(** Registering an object without a parent. *)
Lemma Tree_fresh_root (db : gmap string node) (k : string) (b : body) :
  Tree db -> db !! k = None -> contains_dot k = false ->
  Tree (<[k := fresh_node k None b]> db).
Proof.
  intros HT Hk Hdot.
  assert (Hchild : forall g k0, is_child (<[k := fresh_node k None b]> db) g k0
                                <-> is_child db g k0).
  { intros g k0. unfold is_child. destruct (decide (k0 = k)) as [->|Hne].
    - rewrite Hdot. split; intros (_ & H & _); discriminate.
    - rewrite lookup_insert_ne by congruence. reflexivity. }
  split.
  - intros j n Hj. destruct (decide (j = k)) as [->|Hne].
    + rewrite lookup_insert_eq in Hj. injection Hj as <-. rewrite Hdot. reflexivity.
    + rewrite lookup_insert_ne in Hj by congruence.
      pose proof (tree_wf _ HT j n Hj) as Hwf.
      destruct (contains_dot j); [|exact Hwf].
      destruct Hwf as [Hp Hreg]. split; [exact Hp|].
      destruct (decide (parent_name j = k)) as [->|Hne'].
      * rewrite lookup_insert_eq. eauto.
      * rewrite lookup_insert_ne by congruence. exact Hreg.
  - intros j n Hj. destruct (decide (j = k)) as [->|Hne].
    + rewrite lookup_insert_eq in Hj. injection Hj as <-. reflexivity.
    + rewrite lookup_insert_ne in Hj by congruence. apply (tree_name _ HT j n Hj).
  - intros g n Hg. destruct (decide (g = k)) as [->|Hne].
    + rewrite lookup_insert_eq in Hg. injection Hg as <-. cbn [_children fresh_node].
      split; [constructor|]. intros k0. rewrite Hchild. split.
      * intros H. inversion H.
      * intros H. destruct (Tree_no_child db k k0 HT Hk H).
    + rewrite lookup_insert_ne in Hg by congruence.
      destruct (tree_children _ HT g n Hg) as [Hnd Hmem].
      split; [exact Hnd|]. intros k0. rewrite Hmem, Hchild. reflexivity.
  - intros g n Hg Hb. destruct (decide (g = k)) as [->|Hne].
    + rewrite lookup_insert_eq in Hg. injection Hg as <-. reflexivity.
    + rewrite lookup_insert_ne in Hg by congruence.
      rewrite (tree_size _ HT g n Hg Hb). symmetry. apply child_sum_ext.
      intros c Hc. unfold size_in.
      destruct (Tree_children_registered db g c n HT Hg Hc) as ([x Hx] & _ & _).
      rewrite lookup_insert_ne; [reflexivity|]. intros <-. congruence.
Qed.

(** Registering an object below its registered parent. *)
Lemma Tree_fresh_child (db : gmap string node) (k : string) (b : body) (np : node) :
  Tree db -> db !! k = None -> contains_dot k = true ->
  db !! parent_name k = Some np ->
  Tree (<[k := fresh_node k (Some (parent_name k)) b]>
          (<[parent_name k := set_children (fun c => c ++ [k]) np]> db)).
Proof.
  intros HT Hk Hdot Hp.
  set (p := parent_name k) in *.
  set (np' := set_children (fun c => c ++ [k]) np).
  set (db' := <[k := fresh_node k (Some p) b]> (<[p := np']> db)).
  assert (Hpk : p <> k) by (intros E; rewrite E in Hp; congruence).
  assert (Hlk : db' !! k = Some (fresh_node k (Some p) b))
    by (unfold db'; apply lookup_insert_eq).
  assert (Hlp : db' !! p = Some np').
  { unfold db'. rewrite lookup_insert_ne by congruence. apply lookup_insert_eq. }
  assert (Hlo : forall j, j <> k -> j <> p -> db' !! j = db !! j).
  { intros j H1 H2. unfold db'. rewrite !lookup_insert_ne by congruence. reflexivity. }
  assert (Hreg : forall j, is_Some (db' !! j) <-> is_Some (db !! j) \/ j = k).
  { intros j. destruct (decide (j = k)) as [->|H1].
    - rewrite Hlk. split; eauto.
    - destruct (decide (j = p)) as [->|H2].
      + rewrite Hlp, Hp. split; eauto.
      + rewrite (Hlo j H1 H2). split; [auto|]. intros [?|?]; [assumption|contradiction]. }
  assert (Hsz : forall c, c <> k -> size_in db' c = size_in db c).
  { intros c H1. unfold size_in. destruct (decide (c = p)) as [->|H2].
    - rewrite Hlp, Hp. reflexivity.
    - rewrite (Hlo c H1 H2). reflexivity. }
  assert (Hchild : forall g k0, is_child db' g k0
                                <-> is_child db g k0 \/ (k0 = k /\ g = p)).
  { intros g k0. unfold is_child. rewrite Hreg. split.
    - intros ([H| ->] & Hd & Hpar); [left; auto|right; auto].
    - intros [(H & Hd & Hpar)|[-> ->]]; [auto|]. split; [auto|]. split; [exact Hdot|reflexivity]. }
  split.
  - intros j n Hj. destruct (decide (j = k)) as [->|H1].
    + rewrite Hlk in Hj. injection Hj as <-. rewrite Hdot.
      split; [reflexivity|]. fold p. rewrite Hlp. eauto.
    + assert (Hwf : exists n0, db !! j = Some n0 /\ _parent n = _parent n0).
      { destruct (decide (j = p)) as [->|H2].
        - rewrite Hlp in Hj. injection Hj as <-. eauto.
        - rewrite (Hlo j H1 H2) in Hj. eauto. }
      destruct Hwf as (n0 & Hn0 & ->).
      pose proof (tree_wf _ HT j n0 Hn0) as Hwf.
      destruct (contains_dot j); [|exact Hwf].
      destruct Hwf as [Hpar Hr]. split; [exact Hpar|]. apply Hreg. left. exact Hr.
  - intros j n Hj. destruct (decide (j = k)) as [->|H1].
    + rewrite Hlk in Hj. injection Hj as <-. reflexivity.
    + destruct (decide (j = p)) as [->|H2].
      * rewrite Hlp in Hj. injection Hj as <-. apply (tree_name _ HT p np Hp).
      * rewrite (Hlo j H1 H2) in Hj. apply (tree_name _ HT j n Hj).
  - intros g n Hg. destruct (decide (g = k)) as [->|H1].
    + rewrite Hlk in Hg. injection Hg as <-. cbn [_children fresh_node].
      split; [constructor|]. intros k0. rewrite Hchild. split.
      * intros H. inversion H.
      * intros [H|[_ E]]; [destruct (Tree_no_child db k k0 HT Hk H)|congruence].
    + destruct (decide (g = p)) as [->|H2].
      * rewrite Hlp in Hg. injection Hg as <-. cbn [_children set_children np'].
        destruct (tree_children _ HT p np Hp) as [Hnd Hmem].
        assert (Hnotin : k ∉ _children np).
        { intros Hin. apply Hmem in Hin. destruct Hin as ([x Hx] & _). congruence. }
        split.
        -- apply NoDup_app. split; [exact Hnd|]. split.
           ++ intros x Hx Hx'. apply list_elem_of_singleton in Hx'. subst x.
              contradiction.
           ++ apply NoDup_singleton.
        -- intros k0. rewrite elem_of_app, list_elem_of_singleton, Hmem, Hchild.
           split; intros [H|H]; auto. destruct H; auto.
      * rewrite (Hlo g H1 H2) in Hg.
        destruct (tree_children _ HT g n Hg) as [Hnd Hmem].
        split; [exact Hnd|]. intros k0. rewrite Hmem, Hchild.
        split; [auto|]. intros [H|[_ E]]; [exact H|congruence].
  - intros g n Hg Hb. destruct (decide (g = k)) as [->|H1].
    + rewrite Hlk in Hg. injection Hg as <-. reflexivity.
    + assert (Hold : forall n0, db !! g = Some n0 ->
                child_sum db' (_children n0) = child_sum db (_children n0)).
      { intros n0 Hn0. apply child_sum_ext. intros c Hc. apply Hsz.
        intros ->.
        destruct (Tree_children_registered db g k n0 HT Hn0 Hc) as ([x Hx] & _).
        congruence. }
      destruct (decide (g = p)) as [->|H2].
      * rewrite Hlp in Hg. injection Hg as <-. cbn [_children _size set_children np'].
        rewrite child_sum_app, (Hold np Hp).
        rewrite (tree_size _ HT p np Hp Hb).
        unfold child_sum at 3. cbn [fold_right]. unfold size_in. rewrite Hlk.
        cbn. lia.
      * rewrite (Hlo g H1 H2) in Hg. rewrite (Hold n Hg).
        apply (tree_size _ HT g n Hg Hb).
Qed.

(** Giving a registered object that is not a plain [CoverItem] the size
    [sz] more, and adding [sz] to the size of each of its ancestors. *)
Lemma Tree_resize (db : gmap string node) (name : string) (n n' : node) (sz : Z) :
  Tree db -> db !! name = Some n ->
  _name n' = _name n -> _parent n' = _parent n -> _children n' = _children n ->
  _size n' = _size n + sz -> _body n' <> Item ->
  Tree (bump (add_size sz) (ancestors name) (<[name := n']> db)).
Proof.
  intros HT Hn Hname Hpar Hch Hsz Hbody.
  set (A := ancestors name).
  set (db3 := bump (add_size sz) A (<[name := n']> db)).
  assert (Hnotin : name ∉ A) by apply not_own_ancestor.
  assert (Hl : forall k, db3 !! k
             = (if bool_decide (k ∈ A) then add_size sz else id)
                 <$> (<[name := n']> db) !! k).
  { intros k. apply lookup_bump, NoDup_ancestors. }
  assert (Hl3 : forall k n3, db3 !! k = Some n3 ->
            exists n0, db !! k = Some n0 /\
              _name n3 = _name n0 /\ _parent n3 = _parent n0 /\
              _children n3 = _children n0 /\
              _size n3 = _size n0 + (if bool_decide (k ∈ name :: A) then sz else 0) /\
              (k <> name -> _body n3 = _body n0) /\ (k = name -> _body n3 = _body n')).
  { intros k n3 Hk. rewrite Hl in Hk.
    destruct (decide (k = name)) as [->|Hne].
    - rewrite lookup_insert_eq in Hk. rewrite bool_decide_eq_false_2 in Hk by exact Hnotin.
      cbn in Hk. injection Hk as <-. exists n.
      rewrite bool_decide_eq_true_2 by left. repeat split; auto; contradiction.
    - rewrite lookup_insert_ne in Hk by congruence.
      destruct (db !! k) as [n0|] eqn:Hn0; [|discriminate]. cbn in Hk.
      exists n0. split; [reflexivity|].
      destruct (bool_decide (k ∈ A)) eqn:E.
      + injection Hk as <-. rewrite bool_decide_eq_true_2.
        2:{ right. apply bool_decide_eq_true_1 in E. exact E. }
        cbn. repeat split; auto; contradiction.
      + injection Hk as <-. rewrite bool_decide_eq_false_2.
        2:{ intros H. apply elem_of_cons in H. destruct H as [?|H]; [contradiction|].
            apply bool_decide_eq_false_1 in E. contradiction. }
        cbn. repeat split; auto; try lia; contradiction. }
  assert (Hreg : forall k, is_Some (db3 !! k) <-> is_Some (db !! k)).
  { intros k. rewrite Hl. rewrite fmap_is_Some.
    destruct (decide (k = name)) as [->|Hne].
    - rewrite lookup_insert_eq, Hn. split; eauto.
    - rewrite lookup_insert_ne by congruence. reflexivity. }
  assert (Hsize : forall k, is_Some (db !! k) ->
            size_in db3 k = size_in db k
                            + (if bool_decide (k ∈ name :: A) then sz else 0)).
  { intros k Hk. apply Hreg in Hk. destruct Hk as [n3 Hn3].
    destruct (Hl3 k n3 Hn3) as (n0 & Hn0 & _ & _ & _ & Hs & _).
    unfold size_in. rewrite Hn3, Hn0. exact Hs. }
  assert (Hchild : forall g k, is_child db3 g k <-> is_child db g k).
  { intros g k. unfold is_child. rewrite Hreg. reflexivity. }
  split.
  - unfold db3, A. eapply wf_db_links; [|apply (tree_wf _ HT)].
    rewrite fmap_bump by reflexivity.
    eapply fmap_insert_same; [exact Hn|exact Hpar].
  - intros k n3 Hk. destruct (Hl3 k n3 Hk) as (n0 & Hn0 & -> & _).
    apply (tree_name _ HT k n0 Hn0).
  - intros g n3 Hg. destruct (Hl3 g n3 Hg) as (n0 & Hn0 & _ & _ & -> & _).
    destruct (tree_children _ HT g n0 Hn0) as [Hnd Hmem].
    split; [exact Hnd|]. intros k. rewrite Hmem, Hchild. reflexivity.
  - intros g n3 Hg Hb.
    destruct (Hl3 g n3 Hg) as (n0 & Hn0 & _ & _ & Hc & Hs & Hb1 & Hb2).
    assert (Hgn : g <> name).
    { intros E. apply Hbody. rewrite <- (Hb2 E). exact Hb. }
    rewrite (Hb1 Hgn) in Hb. rewrite Hc, Hs.
    rewrite (tree_size _ HT g n0 Hn0 Hb).
    destruct (tree_children _ HT g n0 Hn0) as [Hnd Hmem].
    destruct (bool_decide (g ∈ name :: A)) eqn:E.
    + apply bool_decide_eq_true_1 in E. apply elem_of_cons in E.
      destruct E as [E|E]; [contradiction|].
      destruct (path_child_exists name g E) as (c0 & Hc0 & Hd0 & Hp0).
      assert (Hc0reg : is_Some (db !! c0)).
      { apply elem_of_cons in Hc0. destruct Hc0 as [->|Hc0]; [eauto|].
        apply (wf_ancestor_registered db name c0 (tree_wf _ HT)); [eauto|exact Hc0]. }
      symmetry.
      apply (child_sum_one db db3 (fun c => c ∈ name :: A) sz (_children n0) c0).
      * exact Hnd.
      * apply Hmem. split; [exact Hc0reg|]. split; assumption.
      * exact Hc0.
      * intros c Hc' HP. apply Hmem in Hc'. destruct Hc' as (_ & Hdc & Hpc).
        apply (path_child_unique name c c0 HP Hc0 Hdc Hd0). congruence.
      * rewrite (Hsize c0 Hc0reg). rewrite bool_decide_eq_true_2 by exact Hc0.
        reflexivity.
      * intros c Hc' Hne. pose proof Hc' as Hc''.
        apply Hmem in Hc'. destruct Hc' as (Hcr & Hdc & Hpc).
        rewrite (Hsize c Hcr). rewrite bool_decide_eq_false_2; [lia|].
        intros HP. apply Hne.
        apply (path_child_unique name c c0 HP Hc0 Hdc Hd0). congruence.
    + rewrite Z.add_0_r. symmetry. apply child_sum_ext. intros c Hc'.
      apply Hmem in Hc'. destruct Hc' as (Hcr & Hdc & Hpc).
      rewrite (Hsize c Hcr). rewrite bool_decide_eq_false_2; [lia|].
      intros HP. apply bool_decide_eq_false_1 in E. apply E. right.
      rewrite <- Hpc. apply path_parent; assumption.
Qed.

Lemma Tree_insert_same (db : gmap string node) (k : string) (n n' : node) :
  Tree db -> db !! k = Some n -> shape n' = shape n ->
  (_body n' = Item -> _body n = Item) ->
  Tree (<[k := n']> db).
Proof.
  intros HT Hk Hs Hb. apply (Tree_same_shape db); [| |exact HT].
  - intros j. destruct (decide (k = j)) as [<-|Hne].
    + rewrite lookup_insert_eq, Hk. cbn. rewrite Hs. reflexivity.
    + rewrite lookup_insert_ne by exact Hne. reflexivity.
  - intros j m m' Hm Hm'. destruct (decide (k = j)) as [<-|Hne].
    + rewrite lookup_insert_eq in Hm'. injection Hm' as <-.
      rewrite Hk in Hm. injection Hm as <-. exact Hb.
    + rewrite lookup_insert_ne in Hm' by exact Hne. congruence.
Qed.

(** ** The registry after [CoverItem.__init__], for every registry *)

Lemma size_in_insert_ne (db : gmap string node) (k j : string) (n : node) :
  k <> j -> size_in (<[k := n]> db) j = size_in db j.
Proof. intros H. unfold size_in. rewrite lookup_insert_ne by exact H. reflexivity. Qed.

Lemma size_in_insert_eq (db : gmap string node) (k : string) (n : node) :
  size_in (<[k := n]> db) k = _size n.
Proof. unfold size_in. rewrite lookup_insert_eq. reflexivity. Qed.

Lemma CoverItem_init_Tree (fuel : nat) :
  forall (b : body) (name : string) (s : state),
    Tree (coverage_db s) -> coverage_db s !! name = None ->
    (String.length name <= fuel)%nat ->
    exists db',
      CoverItem_init fuel b name s = (Ret tt, mkState db' (fired s)) /\
      Tree db' /\
      db' !! name
      = Some (fresh_node name
                (if contains_dot name then Some (parent_name name) else None) b) /\
      (forall j, is_Some (db' !! j) ->
                 is_Some (coverage_db s !! j) \/ j = name \/ j ∈ ancestors name) /\
      (forall j, is_Some (coverage_db s !! j) -> is_Some (db' !! j)) /\
      (forall j, size_in db' j = size_in (coverage_db s) j).
Proof.
  induction fuel as [fuel IH] using lt_wf_ind.
  intros b name s HT Hnew Hlen.
  destruct (contains_dot name) eqn:Hdot.
  - pose proof (parent_name_shorter _ Hdot) as Hlt.
    assert (Hens : exists db0,
      (match coverage_db s !! parent_name name with
       | Some _ => ret tt
       | None => match fuel with
                 | O => raise FuelExhausted
                 | S fuel' => CoverItem_init fuel' Item (parent_name name)
                 end
       end) s = (Ret tt, mkState db0 (fired s)) /\
      Tree db0 /\ db0 !! name = None /\ is_Some (db0 !! parent_name name) /\
      (forall j, is_Some (db0 !! j) ->
                 is_Some (coverage_db s !! j) \/ j ∈ ancestors name) /\
      (forall j, is_Some (coverage_db s !! j) -> is_Some (db0 !! j)) /\
      (forall j, size_in db0 j = size_in (coverage_db s) j)).
    { destruct (coverage_db s !! parent_name name) as [mq|] eqn:Hq.
      - exists (coverage_db s). rewrite state_eta.
        split; [reflexivity|]. split; [exact HT|]. split; [exact Hnew|].
        split; [rewrite Hq; eauto|]. auto.
      - destruct fuel as [|f]; [lia|].
        destruct (IH f (Nat.lt_succ_diag_r f) Item (parent_name name) s)
          as (db0 & Hrun & HT0 & Hq0 & Hdom & Hmono & Hsz);
          [assumption|assumption|lia|].
        exists db0. split; [exact Hrun|]. split; [exact HT0|].
        rewrite (ancestors_dot _ Hdot).
        split; [|split; [eauto|split; [|split; assumption]]].
        + destruct (db0 !! name) as [m|] eqn:Hm; [|reflexivity].
          destruct (Hdom name (ltac:(eauto))) as [[x Hx]|[E|Hin]].
          * congruence.
          * rewrite <- E in Hlt. lia.
          * apply ancestors_shorter in Hin. lia.
        + intros j Hj. destruct (Hdom j Hj) as [?|[->|?]]; [auto|right..].
          * left.
          * right. assumption. }
    destruct Hens as (db0 & Hrun0 & HT0 & Hnew0 & [mq Hq0] & Hdom0 & Hmono0 & Hsz0).
    set (q := parent_name name) in *.
    assert (Hne : q <> name) by (intros E; rewrite E in Hq0; congruence).
    exists (<[name := fresh_node name (Some q) b]>
              (<[q := set_children (fun c => c ++ [name]) mq]> db0)).
    split; [|split; [|split; [|split; [|split]]]].
    + destruct fuel as [|f]; cbn [CoverItem_init]; rewrite Hdot;
        rewrite (bind_Ret _ _ _ _ _ (get_db_run s));
        rewrite (bind_Ret _ _ _ _ _ Hrun0); fold q;
        rewrite (bind_Ret _ _ _ _ _
                   (modify_node_Some _ _ (mkState db0 (fired s)) _ Hq0));
        reflexivity.
    + apply Tree_fresh_child; assumption.
    + apply lookup_insert_eq.
    + intros j. destruct (decide (name = j)) as [<-|Hnj]; [auto|].
      rewrite lookup_insert_ne by exact Hnj.
      destruct (decide (q = j)) as [<-|Hqj].
      * intros _. destruct (Hdom0 q ltac:(eauto)); auto.
      * rewrite lookup_insert_ne by exact Hqj. intros Hj.
        destruct (Hdom0 j Hj); auto.
    + intros j Hj. apply Hmono0 in Hj.
      destruct (decide (name = j)) as [<-|Hnj]; [rewrite lookup_insert_eq; eauto|].
      rewrite lookup_insert_ne by exact Hnj.
      destruct (decide (q = j)) as [<-|Hqj]; [rewrite lookup_insert_eq; eauto|].
      rewrite lookup_insert_ne by exact Hqj. exact Hj.
    + intros j. rewrite <- Hsz0.
      destruct (decide (name = j)) as [<-|Hnj].
      * rewrite size_in_insert_eq. unfold size_in. rewrite Hnew0. reflexivity.
      * rewrite size_in_insert_ne by exact Hnj.
        destruct (decide (q = j)) as [<-|Hqj].
        -- rewrite size_in_insert_eq. unfold size_in. rewrite Hq0. reflexivity.
        -- apply size_in_insert_ne. exact Hqj.
  - exists (<[name := fresh_node name None b]> (coverage_db s)).
    split; [|split; [|split; [|split; [|split]]]].
    + destruct fuel as [|f]; cbn [CoverItem_init]; rewrite Hdot; reflexivity.
    + apply Tree_fresh_root; assumption.
    + apply lookup_insert_eq.
    + intros j. destruct (decide (name = j)) as [<-|Hnj]; [auto|].
      rewrite lookup_insert_ne by exact Hnj. auto.
    + intros j Hj. destruct (decide (name = j)) as [<-|Hnj].
      * rewrite lookup_insert_eq. eauto.
      * rewrite lookup_insert_ne by exact Hnj. exact Hj.
    + intros j. destruct (decide (name = j)) as [<-|Hnj].
      * rewrite size_in_insert_eq. unfold size_in. rewrite Hnew. reflexivity.
      * apply size_in_insert_ne. exact Hnj.
Qed.

(** The object of a primitive once [CoverItem.__init__] has run, in a
    tree. *)
Lemma primitive_in_tree (c : leaf_class) (name : string) (s : state) :
  Tree (coverage_db s) -> coverage_db s !! name = None ->
  exists db1,
    CoverItem_init (String.length name) (Partial c) name s
    = (Ret tt, mkState db1 (fired s)) /\
    Tree db1 /\
    db1 !! name
    = Some (fresh_node name
              (if contains_dot name then Some (parent_name name) else None)
              (Partial c)) /\
    (forall j, is_Some (db1 !! j) ->
               is_Some (coverage_db s !! j) \/ j = name \/ j ∈ ancestors name) /\
    (forall j, is_Some (coverage_db s !! j) -> is_Some (db1 !! j)) /\
    (forall j, size_in db1 j = size_in (coverage_db s) j).
Proof.
  intros HT Hnew.
  apply (CoverItem_init_Tree (String.length name) (Partial c) name s HT Hnew).
  lia.
Qed.

(** The walk that adds the size of a new primitive to its ancestors. *)
Lemma leaf_in_tree (db1 : gmap string node) (log : list callback)
    (name : string) (n n' : node) (sz : Z) :
  Tree db1 -> db1 !! name = Some n -> contains_dot name = true ->
  _name n' = _name n -> _parent n' = _parent n -> _children n' = _children n ->
  _size n' = _size n + sz -> _body n' <> Item ->
  parent_update_size n sz (mkState (<[name := n']> db1) log)
  = (Ret tt,
     mkState (bump (add_size sz) (ancestors name) (<[name := n']> db1)) log) /\
  Tree (bump (add_size sz) (ancestors name) (<[name := n']> db1)) /\
  bump (add_size sz) (ancestors name) (<[name := n']> db1) !! name = Some n'.
Proof.
  intros HT Hn Hdot Hname Hp Hc Hs Hb.
  pose proof (tree_wf _ HT) as Hwf.
  pose proof (Hwf name n Hn) as Hw. rewrite Hdot in Hw. destruct Hw as [Hpar Hq].
  set (q := parent_name name) in *.
  assert (Hne : name <> q).
  { intros E. pose proof (parent_name_shorter _ Hdot) as Hlt. fold q in Hlt.
    rewrite <- E in Hlt. lia. }
  split; [|split].
  - unfold parent_update_size. rewrite Hpar.
    rewrite update_size_run; [|
      cbn [coverage_db]; eapply wf_db_links; [|exact Hwf];
      eapply fmap_insert_same; eassumption |
      cbn [coverage_db]; rewrite lookup_insert_ne by exact Hne; exact Hq | lia].
    cbn [coverage_db fired]. rewrite (ancestors_dot _ Hdot). reflexivity.
  - eapply Tree_resize; eassumption.
  - rewrite lookup_bump by apply NoDup_ancestors.
    rewrite lookup_insert_eq.
    rewrite bool_decide_eq_false_2 by apply not_own_ancestor. reflexivity.
Qed.

(** ** Computations that keep an attribute of every object *)

Lemma steady_bind {A B C} (proj : node -> C) (m : M A) (k : A -> M B) :
  steady proj m -> (forall a, steady proj (k a)) -> steady proj (bind m k).
Proof.
  intros Hm Hk s j. specialize (Hm s j). unfold exec in *.
  unfold bind. destruct (m s) as [[a|e] s1]; cbn [snd] in *.
  - rewrite <- Hm. apply Hk.
  - exact Hm.
Qed.

Lemma steady_keeps_db {A C} (proj : node -> C) (m : M A) :
  keeps_db m -> steady proj m.
Proof. intros Hm s j. unfold attr_of. rewrite Hm. reflexivity. Qed.

Lemma steady_modify {C} (proj : node -> C) (q : string) (f : node -> node) :
  (forall n, proj (f n) = proj n) -> steady proj (modify_node q f).
Proof.
  intros Hf s j. unfold attr_of, exec.
  destruct (coverage_db s !! q) as [n|] eqn:Hq.
  - rewrite (modify_node_Some _ _ _ _ Hq). cbn [snd coverage_db].
    destruct (decide (q = j)) as [<-|Hne].
    + rewrite lookup_insert_eq, Hq. cbn. rewrite Hf. reflexivity.
    + rewrite lookup_insert_ne by exact Hne. reflexivity.
  - rewrite (modify_node_None _ _ _ Hq). reflexivity.
Qed.

Lemma steady_update_coverage {C} (proj : node -> C) (fuel : nat) :
  (forall f n, proj (set_coverage f n) = proj n) ->
  forall (p : string) (delta : Z), steady proj (_update_coverage fuel p delta).
Proof.
  intros Hproj.
  induction fuel as [|fuel IH]; intros p delta; cbn [_update_coverage];
    (apply steady_bind; [apply steady_keeps_db, keeps_db_lookup_node|]);
    intros n;
    (apply steady_bind; [apply steady_modify; intros; apply Hproj|]);
    intros _;
    (apply steady_bind;
     [|intros _; apply steady_keeps_db, keeps_db_bind;
       [apply keeps_db_lookup_node|intros n'; apply keeps_db_notify]]);
    destruct (_parent n);
    first [apply IH | apply steady_keeps_db, keeps_db_raise
          | apply steady_keeps_db, keeps_db_ret].
Qed.

Lemma steady_parent_update_coverage {C} (proj : node -> C) (self : node) (delta : Z) :
  (forall f n, proj (set_coverage f n) = proj n) ->
  steady proj (parent_update_coverage self delta).
Proof.
  intros Hproj. unfold parent_update_coverage. destruct (_parent self).
  - apply steady_update_coverage, Hproj.
  - apply steady_keeps_db, keeps_db_raise.
Qed.

Ltac steady_walk :=
  repeat first
    [ apply steady_parent_update_coverage; intros; reflexivity
    | apply steady_modify; intros; reflexivity
    | apply steady_keeps_db;
      first [ apply keeps_db_lookup_node | apply keeps_db_lift
            | apply keeps_db_call_all | apply keeps_db_notify
            | apply keeps_db_call | apply keeps_db_ret
            | apply keeps_db_raise
            | intro; reflexivity ]
    | apply steady_bind; [|intros ?]
    | match goal with
      | |- steady _ (match ?x with _ => _ end) => destruct x
      | |- steady _ (if ?x then _ else _) => destruct x
      | |- steady _ (let '(_, _) := ?x in _) => destruct x
      | |- steady _ (let _ := _ in _) => cbv zeta
      end ].

(** Sampling events and callback registrations keep the shape of the
    registry. *)
Lemma steady_sample (name : string) (v : pyval) : steady shape (sample name v).
Proof.
  unfold sample. apply steady_bind; [steady_walk|]. intros self.
  destruct (_body self);
    [ | | unfold CoverPoint_sample | unfold CoverCross_sample
    | unfold CoverCheck_sample ];
    steady_walk.
Qed.

Lemma steady_add_threshold_callback (name : string) (cb : callback) (t : Z) :
  steady shape (add_threshold_callback name cb t).
Proof. unfold add_threshold_callback. steady_walk. Qed.

Lemma steady_add_bins_callback (name : string) (cb : callback) (bins : pyval) :
  steady shape (add_bins_callback name cb bins).
Proof. unfold add_bins_callback. steady_walk. Qed.

Lemma body_le_Item (b : body) : body_le b Item -> b = Item.
Proof. destruct b; cbn; try contradiction; reflexivity. Qed.

Lemma Tree_steady (o : op) (s : state) :
  steady shape (run_op o) -> Tree (coverage_db s) ->
  Tree (coverage_db (exec (run_op o) s)).
Proof.
  intros Hst HT. apply (Tree_same_shape (coverage_db s)); [| |exact HT].
  - intros k. apply (Hst s k).
  - intros k n n' Hn Hn' Hb.
    destruct (run_op_body_le o s k (_body n)) as (b' & Hb' & Hle).
    { unfold body_of. rewrite Hn. reflexivity. }
    unfold body_of in Hb'. rewrite Hn' in Hb'. cbn in Hb'. injection Hb' as <-.
    rewrite Hb in Hle. apply body_le_Item, Hle.
Qed.

(** ** The constructors, in a tree *)

(** The registry after the constructor of a point whose name is new and
    has a parent segment. *)
Lemma CoverPoint_init_fresh (name : string) (rel : option (pyval -> pyval -> bool))
    (bins : list pyval) (weight at_least : Z) (inj : bool) (s : state) :
  Tree (coverage_db s) -> coverage_db s !! name = None ->
  contains_dot name = true ->
  let relation := match rel with Some r => r | None => py_eqb end in
  let sz := if negb (Nat.eqb (length bins) 0)
            then weight * Z.of_nat (length bins) else weight in
  let hits := if negb (Nat.eqb (length bins) 0)
              then fromkeys py_eqb bins 0 else fromkeys py_eqb [PBool true] 0 in
  let n' := mkNode name sz 0 (Some (parent_name name)) [] [] [] []
                   (Point relation weight at_least inj hits) in
  exists db1 db3,
    CoverPoint_init name rel bins weight at_least inj s
    = (Ret tt, mkState db3 (fired s)) /\
    db3 = bump (add_size sz) (ancestors name) (<[name := n']> db1) /\
    Tree db3 /\ db3 !! name = Some n' /\
    (forall j, is_Some (db1 !! j) ->
               is_Some (coverage_db s !! j) \/ j = name \/ j ∈ ancestors name) /\
    (forall j, is_Some (coverage_db s !! j) -> is_Some (db1 !! j)) /\
    (forall j, size_in db1 j = size_in (coverage_db s) j).
Proof.
  intros HT Hnew Hdot relation sz hits n'.
  destruct (primitive_in_tree PointC name s HT Hnew)
    as (db1 & Hrun & HT1 & Hname & Hdom & Hmono & Hsz).
  rewrite Hdot in Hname.
  set (self := fresh_node name (Some (parent_name name)) (Partial PointC)) in *.
  destruct (leaf_in_tree db1 (fired s) name self n' sz HT1 Hname Hdot)
    as (Hrun3 & HT3 & Hn3); try reflexivity; [discriminate|].
  exists db1, (bump (add_size sz) (ancestors name) (<[name := n']> db1)).
  split; [|split; [reflexivity|split; [exact HT3|split; [exact Hn3|
    split; [exact Hdom|split; [exact Hmono|exact Hsz]]]]]].
  unfold CoverPoint_init.
  rewrite (bind_Ret _ _ _ _ _ (get_db_run s)). rewrite Hnew.
  rewrite (bind_Ret _ _ _ _ _ Hrun).
  rewrite (bind_Ret _ _ _ _ _
             (lookup_node_Some name (mkState db1 (fired s)) _ Hname)).
  cbn [_parent fresh_node self].
  assert (Hfin : forall sz0 hits0,
    sz0 = sz -> hits0 = hits ->
    (modify_node name
       (fun n => set_body (Point relation weight at_least inj hits0)
                          (set_size (fun _ => sz0) n)) ;;
     parent_update_size self sz0 ;;
     modify_node name (set_new_hits [])) (mkState db1 (fired s))
    = (Ret tt,
       mkState (bump (add_size sz) (ancestors name) (<[name := n']> db1)) (fired s))).
  { intros sz0 hits0 -> ->.
    rewrite (bind_Ret _ _ _ _ _
               (modify_node_Some _ _ (mkState db1 (fired s)) _ Hname)).
    cbn [coverage_db fired].
    change (set_body (Point relation weight at_least inj hits)
              (set_size (fun _ => sz) self)) with n'.
    rewrite (bind_Ret _ _ _ _ _ Hrun3).
    rewrite (modify_node_Some name _ (mkState _ (fired s)) n' Hn3).
    cbn [coverage_db fired].
    f_equal. f_equal. apply insert_id. exact Hn3. }
  unfold sz, hits. destruct (negb (length bins =? 0)%nat); apply Hfin; reflexivity.
Qed.

Lemma CoverPoint_init_Tree (name : string) (rel : option (pyval -> pyval -> bool))
    (bins : list pyval) (weight at_least : Z) (inj : bool) (s : state) :
  Tree (coverage_db s) ->
  Tree (coverage_db (exec (CoverPoint_init name rel bins weight at_least inj) s)).
Proof.
  intros HT. destruct (coverage_db s !! name) as [n0|] eqn:Hnew.
  - unfold CoverPoint_init.
    rewrite (exec_bind_Ret _ _ _ _ _ (get_db_run s)), Hnew. exact HT.
  - destruct (contains_dot name) eqn:Hdot.
    + destruct (CoverPoint_init_fresh name rel bins weight at_least inj s HT Hnew Hdot)
        as (db1 & db3 & Hrun & _ & HT3 & _).
      unfold exec. rewrite Hrun. exact HT3.
    + destruct (primitive_in_tree PointC name s HT Hnew)
        as (db1 & Hrun & HT1 & Hname & _).
      rewrite Hdot in Hname. unfold CoverPoint_init.
      rewrite (exec_bind_Ret _ _ _ _ _ (get_db_run s)), Hnew.
      rewrite (exec_bind_Ret _ _ _ _ _ Hrun).
      rewrite (exec_bind_Ret _ _ _ _ _
                 (lookup_node_Some name (mkState db1 (fired s)) _ Hname)).
      exact HT1.
Qed.

(** The registry after the constructor of a check whose name is new and
    has a parent segment. *)
Lemma CoverCheck_init_fresh (name : string) (f_fail : pyval -> bool)
    (f_pass : option (pyval -> bool)) (weight at_least : Z) (s : state) :
  Tree (coverage_db s) -> coverage_db s !! name = None ->
  contains_dot name = true ->
  let n' := mkNode name weight 0 (Some (parent_name name)) [] [] [] []
                   (Check weight at_least f_pass f_fail [(PASS, 0); (FAIL, 0)]) in
  exists db1 db3,
    CoverCheck_init name f_fail f_pass weight at_least s
    = (Ret tt, mkState db3 (fired s)) /\
    db3 = bump (add_size weight) (ancestors name) (<[name := n']> db1) /\
    Tree db3 /\ db3 !! name = Some n' /\
    (forall j, is_Some (db1 !! j) ->
               is_Some (coverage_db s !! j) \/ j = name \/ j ∈ ancestors name) /\
    (forall j, is_Some (coverage_db s !! j) -> is_Some (db1 !! j)) /\
    (forall j, size_in db1 j = size_in (coverage_db s) j).
Proof.
  intros HT Hnew Hdot n'.
  destruct (primitive_in_tree CheckC name s HT Hnew)
    as (db1 & Hrun & HT1 & Hname & Hdom & Hmono & Hsz).
  rewrite Hdot in Hname.
  set (self := fresh_node name (Some (parent_name name)) (Partial CheckC)) in *.
  destruct (leaf_in_tree db1 (fired s) name self n' weight HT1 Hname Hdot)
    as (Hrun3 & HT3 & Hn3); try reflexivity; [discriminate|].
  exists db1, (bump (add_size weight) (ancestors name) (<[name := n']> db1)).
  split; [|split; [reflexivity|split; [exact HT3|split; [exact Hn3|
    split; [exact Hdom|split; [exact Hmono|exact Hsz]]]]]].
  unfold CoverCheck_init.
  rewrite (bind_Ret _ _ _ _ _ (get_db_run s)). rewrite Hnew.
  rewrite (bind_Ret _ _ _ _ _ Hrun).
  rewrite (bind_Ret _ _ _ _ _
             (lookup_node_Some name (mkState db1 (fired s)) _ Hname)).
  cbn [_parent fresh_node self].
  rewrite (bind_Ret _ _ _ _ _
             (modify_node_Some _ _ (mkState db1 (fired s)) _ Hname)).
  cbn [coverage_db fired]. exact Hrun3.
Qed.

Lemma CoverCheck_init_Tree (name : string) (f_fail : pyval -> bool)
    (f_pass : option (pyval -> bool)) (weight at_least : Z) (s : state) :
  Tree (coverage_db s) ->
  Tree (coverage_db (exec (CoverCheck_init name f_fail f_pass weight at_least) s)).
Proof.
  intros HT. destruct (coverage_db s !! name) as [n0|] eqn:Hnew.
  - unfold CoverCheck_init.
    rewrite (exec_bind_Ret _ _ _ _ _ (get_db_run s)), Hnew. exact HT.
  - destruct (contains_dot name) eqn:Hdot.
    + destruct (CoverCheck_init_fresh name f_fail f_pass weight at_least s HT Hnew Hdot)
        as (db1 & db3 & Hrun & _ & HT3 & _).
      unfold exec. rewrite Hrun. exact HT3.
    + destruct (primitive_in_tree CheckC name s HT Hnew)
        as (db1 & Hrun & HT1 & Hname & _).
      rewrite Hdot in Hname. unfold CoverCheck_init.
      rewrite (exec_bind_Ret _ _ _ _ _ (get_db_run s)), Hnew.
      rewrite (exec_bind_Ret _ _ _ _ _ Hrun).
      rewrite (exec_bind_Ret _ _ _ _ _
                 (lookup_node_Some name (mkState db1 (fired s)) _ Hname)).
      exact HT1.
Qed.

Lemma CoverCross_init_Tree (name : string) (items : list string)
    (ign_bins : list (list pyval)) (weight at_least : Z) (s : state) :
  Tree (coverage_db s) ->
  Tree (coverage_db (exec (CoverCross_init name items ign_bins weight at_least) s)).
Proof.
  intros HT. unfold CoverCross_init.
  rewrite (exec_bind_Ret _ _ _ _ _ (get_db_run s)).
  destruct (coverage_db s !! name) as [n0|] eqn:Hnew; [exact HT|].
  destruct (primitive_in_tree CrossC name s HT Hnew)
    as (db1 & Hrun & HT1 & Hname & _).
  rewrite (exec_bind_Ret _ _ _ _ _ Hrun).
  rewrite (exec_bind_Ret _ _ _ _ _
             (lookup_node_Some name (mkState db1 (fired s)) _ Hname)).
  cbn [_parent fresh_node].
  destruct (contains_dot name) eqn:Hdot; [|exact HT1].
  set (self := fresh_node name (Some (parent_name name)) (Partial CrossC)) in *.
  rewrite (exec_bind_Ret _ _ _ _ _ (get_db_run (mkState db1 (fired s)))).
  cbn [coverage_db].
  destruct (bins_lists db1 items) as [ls|e] eqn:Hls.
  2:{ assert (Hl : lift (@Raise (list (list pyval)) e) (mkState db1 (fired s))
                   = (Raise e, mkState db1 (fired s))) by reflexivity.
      rewrite (exec_bind_Raise _ _ _ _ _ Hl). exact HT1. }
  assert (Hl : lift (Ret ls) (mkState db1 (fired s))
               = (Ret ls, mkState db1 (fired s))) by reflexivity.
  rewrite (exec_bind_Ret _ _ _ _ _ Hl). cbv zeta.
  destruct (ignore_loop ign_bins _ _) as [hits' stopped].
  rewrite (exec_bind_Ret _ _ _ _ _
             (modify_node_Some _ _ (mkState db1 (fired s)) _ Hname)).
  cbn [coverage_db fired].
  set (n1 := set_body (Cross weight at_least items hits') self).
  assert (HT2 : Tree (<[name := n1]> db1)).
  { apply (Tree_insert_same db1 name self); [exact HT1|exact Hname|reflexivity|].
    discriminate. }
  destruct stopped as [e|]; [exact HT2|].
  erewrite exec_bind_Ret
    by (apply modify_node_Some; cbn [coverage_db]; apply lookup_insert_eq).
  cbn [coverage_db fired]. rewrite insert_insert_eq.
  match goal with
  | |- context [<[name := ?n']> db1] =>
      destruct (leaf_in_tree db1 (fired s) name self n'
                  (weight * Z.of_nat (length hits')) HT1 Hname Hdot)
        as (Hrun3 & HT3 & _); try reflexivity; [discriminate|]
  end.
  unfold exec. rewrite Hrun3. exact HT3.
Qed.

(** Every operation keeps the registry a tree. *)
Lemma run_op_Tree (o : op) (s : state) :
  Tree (coverage_db s) -> Tree (coverage_db (exec (run_op o) s)).
Proof.
  intros HT.
  destruct o as [name rel bins w al inj|name items ign w al|name ff fp w al
                |name cb th|name cb bins|name v].
  - cbn [run_op]. rewrite exec_then_ret. unfold CoverPoint.
    rewrite (exec_bind_Ret _ _ _ _ _ (get_db_run s)).
    destruct (coverage_db s !! name) eqn:Hn; [exact HT|].
    rewrite exec_then_ret. apply CoverPoint_init_Tree, HT.
  - cbn [run_op]. rewrite exec_then_ret. unfold CoverCross.
    rewrite (exec_bind_Ret _ _ _ _ _ (get_db_run s)).
    destruct (coverage_db s !! name) eqn:Hn; [exact HT|].
    rewrite exec_then_ret. apply CoverCross_init_Tree, HT.
  - cbn [run_op]. rewrite exec_then_ret. unfold CoverCheck.
    rewrite (exec_bind_Ret _ _ _ _ _ (get_db_run s)).
    destruct (coverage_db s !! name) eqn:Hn; [exact HT|].
    rewrite exec_then_ret. apply CoverCheck_init_Tree, HT.
  - apply Tree_steady; [apply steady_add_threshold_callback|exact HT].
  - apply Tree_steady; [apply steady_add_bins_callback|exact HT].
  - apply Tree_steady; [apply steady_sample|exact HT].
Qed.

Lemma run_ops_Tree (ops : list op) (s : state) :
  Tree (coverage_db s) -> Tree (coverage_db (run_ops ops s)).
Proof.
  revert s. induction ops as [|o ops IH]; intros s HT; [exact HT|].
  cbn [run_ops fold_left]. apply IH, run_op_Tree, HT.
Qed.

Lemma reachable_Tree (ops : list op) : Tree (coverage_db (run_ops ops empty_state)).
Proof. apply run_ops_Tree, Tree_empty. Qed.

(** ** The registry reached by any run *)

(** X10. After any sequence of operations from the empty registry, every
    registered object carries the name it is registered under; its parent
    is the object registered under its name up to the last dot, which is
    registered, and it has none when its name has no dot; and its list of
    children lists, once each, exactly the registered objects whose parent
    it is. *)
Theorem registry_is_a_prefix_tree (ops : list op) (name : string) (n : node) :
  let db := coverage_db (run_ops ops empty_state) in
  db !! name = Some n ->
  _name n = name /\
  _parent n = (if contains_dot name then Some (parent_name name) else None) /\
  (contains_dot name = true -> is_Some (db !! parent_name name)) /\
  NoDup (_children n) /\
  (forall k, k ∈ _children n <->
             is_Some (db !! k) /\ contains_dot k = true /\ parent_name k = name).
Proof.
  intros db Hn. pose proof (reachable_Tree ops) as HT. fold db in HT.
  split; [apply (tree_name _ HT name n Hn)|].
  split; [apply (wf_parent _ _ _ (tree_wf _ HT) Hn)|].
  split.
  - intros Hdot. pose proof (tree_wf _ HT name n Hn) as Hwf.
    rewrite Hdot in Hwf. apply Hwf.
  - apply (tree_children _ HT name n Hn).
Qed.

Lemma registry_is_a_prefix_tree_witness :
  let db := coverage_db TreeExample.reached in
  exists n, db !! "top.g" = Some n /\
    _name n = "top.g" /\ _parent n = Some "top" /\
    _children n = ["top.g.p"; "top.g.c"] /\
    NoDup (_children n) /\
    (forall k, k ∈ _children n <->
               is_Some (db !! k) /\ contains_dot k = true /\ parent_name k = "top.g").
Proof.
  cbn zeta.
  destruct (coverage_db TreeExample.reached !! "top.g") as [n|] eqn:Hn;
    [|vm_compute in Hn; discriminate].
  exists n. split; [reflexivity|].
  destruct (registry_is_a_prefix_tree TreeExample.ops "top.g" n Hn)
    as (H1 & H2 & _ & H4 & H5).
  split; [exact H1|]. split; [exact H2|].
  split; [|split; [exact H4|exact H5]].
  vm_compute in Hn. injection Hn as <-. reflexivity.
Defined.



(** ** A new point *)

Lemma dset_append {V} (d : list (pyval * V)) (k : pyval) (v : V) :
  Forall (fun k' => py_eqb k' k = false) (dkeys d) ->
  dset py_eqb d k v = d ++ [(k, v)].
Proof.
  induction d as [|[k' v'] d IH]; [reflexivity|].
  cbn [dkeys map fst]. intros H. apply Forall_cons in H. destruct H as [Hk H].
  cbn [dset]. rewrite Hk. cbn [app]. f_equal. apply IH, H.
Qed.

Lemma fold_dset_distinct {V} (ks : list pyval) (v : V) :
  forall d : list (pyval * V),
    distinct_keys ks ->
    Forall (fun k' => Forall (fun k => py_eqb k' k = false) ks) (dkeys d) ->
    fold_left (fun d k => dset py_eqb d k v) ks d = d ++ map (fun k => (k, v)) ks.
Proof.
  induction ks as [|k ks IH]; intros d Hd Hsep.
  - cbn. rewrite app_nil_r. reflexivity.
  - cbn [fold_left map]. destruct Hd as [Hk Hd].
    rewrite dset_append.
    2:{ eapply Forall_impl; [exact Hsep|]. intros k' H.
        apply Forall_cons in H. apply H. }
    rewrite IH; [rewrite <- app_assoc; reflexivity|exact Hd|].
    unfold dkeys. rewrite map_app. apply Forall_app. split.
    + eapply Forall_impl; [exact Hsep|]. intros k' H.
      apply Forall_cons in H. apply H.
    + cbn. constructor; [exact Hk|constructor].
Qed.

(** [fromkeys] keeps a list of pairwise different keys as it is. *)
Lemma fromkeys_distinct {V} (ks : list pyval) (v : V) :
  distinct_keys ks -> fromkeys py_eqb ks v = map (fun k => (k, v)) ks.
Proof.
  intros Hd. unfold fromkeys. rewrite fold_dset_distinct; [reflexivity|exact Hd|].
  constructor.
Qed.




(** X13. The coverage a new point starts with, after any run: when
    [at_least >= 1] it is [weight] times the number of bins listed (1 when
    none is listed) less the number of distinct bins, that is 0 when the
    bins listed are pairwise different and, for a positive weight, more
    when a bin is listed twice; when [at_least <= 0] it is the whole size.
    In both cases the
    [_coverage] attribute of the objects registered before is unchanged:
    the ancestors are not told. *)
Theorem new_point_initial_coverage (ops : list op) (name : string)
    (rel : option (pyval -> pyval -> bool)) (bins : list pyval)
    (weight at_least : Z) (inj : bool) :
  let s := run_ops ops empty_state in
  coverage_db s !! name = None ->
  contains_dot name = true ->
  let listed := if negb (Nat.eqb (length bins) 0) then length bins else 1%nat in
  let hits := if negb (Nat.eqb (length bins) 0)
              then fromkeys py_eqb bins 0 else fromkeys py_eqb [PBool true] 0 in
  let s' := exec (CoverPoint name rel bins weight at_least inj) s in
  (0 < at_least ->
   coverage_of s' name
   = Ret (weight * (Z.of_nat listed - Z.of_nat (length hits)))) /\
  (0 < at_least -> distinct_keys bins -> coverage_of s' name = Ret 0) /\
  (at_least <= 0 -> coverage_of s' name = Ret (weight * Z.of_nat listed)) /\
  (forall k, is_Some (coverage_db s !! k) ->
             coverage_attr s' k = coverage_attr s k).
Proof.
  intros s Hnew Hdot listed hits s'.
  destruct (CoverPoint_init_fresh name rel bins weight at_least inj s
              (reachable_Tree ops) Hnew Hdot)
    as (db1 & db3 & Hrun & _ & _ & Hn3 & _).
  cbv zeta in Hrun, Hn3. fold hits in Hn3.
  assert (Hctor : CoverPoint name rel bins weight at_least inj s
                  = (Ret name, mkState db3 (fired s))).
  { unfold CoverPoint. rewrite (bind_Ret _ _ _ _ _ (get_db_run s)), Hnew.
    rewrite (bind_Ret _ _ _ _ _ Hrun). reflexivity. }
  assert (Hzero : Forall (fun kv : pyval * Z => snd kv = 0) hits).
  { unfold hits. destruct (negb (length bins =? 0)%nat);
      apply fromkeys_Forall; reflexivity. }
  assert (Hsz : (if negb (length bins =? 0)%nat
                 then weight * Z.of_nat (length bins) else weight)
                = weight * Z.of_nat listed).
  { unfold listed. destruct (negb (length bins =? 0)%nat); lia. }
  assert (Hcov : coverage_of s' name
                 = Ret (weight * Z.of_nat listed - weight * unsat at_least hits)).
  { unfold s', exec. rewrite Hctor. unfold coverage_of. cbn [snd coverage_db].
    rewrite Hn3. unfold coverage. cbn [_body _size].
    rewrite weighted_coverage_unsat, Hsz. reflexivity. }
  split; [|split; [|split]].
  - intros Hal. rewrite Hcov. rewrite (unsat_all_zero _ _ Hal Hzero). f_equal. lia.
  - intros Hal Hd. rewrite Hcov. rewrite (unsat_all_zero _ _ Hal Hzero). f_equal.
    unfold hits, listed. destruct bins as [|b bins]; [cbn; lia|].
    cbn [length Nat.eqb negb]. rewrite (fromkeys_distinct _ 0 Hd).
    rewrite length_map. cbn [length]. lia.
  - intros Hal. rewrite Hcov.
    rewrite (unsat_nonpositive _ _ Hal (Forall_zero_nonneg _ Hzero)). f_equal. lia.
  - intros k [n0 Hn0]. unfold coverage_attr at 2. rewrite Hn0.
    apply (CoverPoint_attr _coverage (fun _ _ => eq_refl) (fun _ _ => eq_refl)).
    unfold attr_of. rewrite Hn0. reflexivity.
Qed.

Lemma new_point_initial_coverage_witness :
  let build := CoverPoint "top.g.p" None [PInt 1; PInt 2; PInt 2] 2 1 false in
  let s' := exec build (run_ops [] empty_state) in
  size_of s' "top.g.p" = Ret 6 /\
  coverage_of s' "top.g.p" = Ret 2 /\
  coverage_of s' "top.g" = Ret 0.
Proof.
  cbn zeta. split; [vm_compute; reflexivity|]. split; [|vm_compute; reflexivity].
  destruct (new_point_initial_coverage [] "top.g.p" None [PInt 1; PInt 2; PInt 2]
              2 1 false eq_refl eq_refl) as (H1 & _).
  exact (H1 ltac:(lia)).
Defined.

(** ** Sampling events and the ancestors *)

Lemma CoverPoint_sample_db (s : state) (name : string) (n : node)
    (rel : pyval -> pyval -> bool) (w al : Z) (inj : bool) (hits : hits_dict)
    (v : pyval) :
  wf_db (coverage_db s) ->
  coverage_db s !! name = Some n ->
  _body n = Point rel w al inj hits ->
  exists hits' nh,
    coverage_db (exec (sample name v) s)
    = bump (add_coverage (weighted_coverage (_size n) w al hits'
                          - weighted_coverage (_size n) w al hits))
           (ancestors name)
           (<[name := set_body (Point rel w al inj hits') (set_new_hits nh n)]>
              (coverage_db s)).
Proof.
  intros Hwf Hn Hb. unfold sample.
  rewrite (exec_bind_Ret _ _ _ _ _ (lookup_node_Some _ _ _ Hn)). rewrite Hb.
  unfold CoverPoint_sample.
  rewrite (exec_bind_Ret _ _ _ _ _ (lookup_node_Some _ _ _ Hn)). rewrite Hb.
  assert (Hcur : lift (coverage n) s
                 = (Ret (weighted_coverage (_size n) w al hits), s)).
  { unfold coverage. rewrite Hb. reflexivity. }
  rewrite (exec_bind_Ret _ _ _ _ _ Hcur).
  destruct (match_bins rel inj (_bins_callbacks n) v (dkeys hits) hits [] [])
    as [[hits' nh] calls].
  exists hits', nh.
  rewrite (exec_bind_Ret _ _ _ _ _ (modify_node_Some _ _ _ _ Hn)).
  rewrite (exec_bind_Ret _ _ _ _ _ (call_all_run _ _)).
  cbn [coverage_db fired].
  set (n1 := set_body (Point rel w al inj hits') (set_new_hits nh n)).
  set (s1 := mkState (<[name := n1]> (coverage_db s)) _).
  assert (Hn1 : coverage_db s1 !! name = Some n1) by apply lookup_insert_eq.
  rewrite (exec_bind_Ret _ _ _ _ _ (lookup_node_Some _ _ _ Hn1)).
  assert (Hnow : lift (coverage n1) s1
                 = (Ret (weighted_coverage (_size n) w al hits'), s1))
    by reflexivity.
  rewrite (exec_bind_Ret _ _ _ _ _ Hnow).
  rewrite (propagate_db n1 name s1); [reflexivity|apply keeps_db_notify| |exact Hn1].
  unfold s1. cbn [coverage_db]. eapply wf_db_links; [|exact Hwf].
  eapply fmap_insert_same; [exact Hn|reflexivity].
Qed.

Lemma CoverCross_sample_db (s : state) (name : string) (n : node)
    (w al : Z) (items : list string) (hits : hits_dict) (v : pyval) :
  wf_db (coverage_db s) ->
  coverage_db s !! name = Some n ->
  _body n = Cross w al items hits ->
  coverage_db (exec (sample name v) s) = coverage_db s \/
  exists hits',
    coverage_db (exec (sample name v) s)
    = bump (add_coverage (weighted_coverage (_size n) w al hits'
                          - weighted_coverage (_size n) w al hits))
           (ancestors name)
           (<[name := set_body (Cross w al items hits') n]> (coverage_db s)).
Proof.
  intros Hwf Hn Hb. unfold sample.
  rewrite (exec_bind_Ret _ _ _ _ _ (lookup_node_Some _ _ _ Hn)). rewrite Hb.
  unfold CoverCross_sample.
  rewrite (exec_bind_Ret _ _ _ _ _ (lookup_node_Some _ _ _ Hn)). rewrite Hb.
  assert (Hcur : lift (coverage n) s
                 = (Ret (weighted_coverage (_size n) w al hits), s)).
  { unfold coverage. rewrite Hb. reflexivity. }
  rewrite (exec_bind_Ret _ _ _ _ _ Hcur).
  rewrite (exec_bind_Ret _ _ _ _ _ (get_db_run s)).
  destruct (hit_lists (coverage_db s) items) as [ls|e] eqn:Hls.
  { right.
    assert (Hl : lift (Ret ls) s = (Ret ls, s)) by reflexivity.
    rewrite (exec_bind_Ret _ _ _ _ _ Hl).
    destruct (match_cross (_bins_callbacks n) (map PTuple (product ls)) hits [])
      as [hits' calls].
    exists hits'.
    rewrite (exec_bind_Ret _ _ _ _ _ (modify_node_Some _ _ _ _ Hn)).
    rewrite (exec_bind_Ret _ _ _ _ _ (call_all_run _ _)).
    cbn [coverage_db fired].
    set (n1 := set_body (Cross w al items hits') n).
    set (s1 := mkState (<[name := n1]> (coverage_db s)) _).
    assert (Hn1 : coverage_db s1 !! name = Some n1) by apply lookup_insert_eq.
    rewrite (exec_bind_Ret _ _ _ _ _ (lookup_node_Some _ _ _ Hn1)).
    assert (Hnow : lift (coverage n1) s1
                   = (Ret (weighted_coverage (_size n) w al hits'), s1))
      by reflexivity.
    rewrite (exec_bind_Ret _ _ _ _ _ Hnow).
    rewrite (propagate_db n1 name s1); [reflexivity|apply keeps_db_notify| |exact Hn1].
    unfold s1. cbn [coverage_db]. eapply wf_db_links; [|exact Hwf].
    eapply fmap_insert_same; [exact Hn|reflexivity]. }
  left.
  assert (Hl : lift (@Raise (list (list pyval)) e) s = (Raise e, s)) by reflexivity.
  rewrite (exec_bind_Raise _ _ _ _ _ Hl). reflexivity.
Qed.

(** What a registry of the form reached by a sampling event says of the
    coverage of the sampled object and of the [_coverage] attributes. *)
Lemma propagated_coverage (db : gmap string node) (name : string) (n n1 : node)
    (c c' : Z) :
  db !! name = Some n -> _coverage n1 = _coverage n -> coverage n1 = Ret c' ->
  let db' := bump (add_coverage (c' - c)) (ancestors name) (<[name := n1]> db) in
  (match db' !! name with Some m => coverage m | None => Raise KeyError end)
  = Ret c' /\
  forall k,
    _coverage <$> db' !! k
    = (fun x => if bool_decide (k ∈ ancestors name) then x + (c' - c) else x)
        <$> (_coverage <$> db !! k).
Proof.
  intros Hn Hcov Hc db'. unfold db'. split.
  - rewrite lookup_bump by apply NoDup_ancestors.
    rewrite bool_decide_eq_false_2 by apply not_own_ancestor.
    rewrite lookup_insert_eq. exact Hc.
  - intros k. rewrite lookup_bump by apply NoDup_ancestors.
    destruct (decide (name = k)) as [<-|Hne].
    + rewrite bool_decide_eq_false_2 by apply not_own_ancestor.
      rewrite lookup_insert_eq, Hn. cbn. rewrite Hcov. reflexivity.
    + rewrite lookup_insert_ne by exact Hne.
      destruct (db !! k) as [m|]; [|reflexivity]. cbn.
      destruct (bool_decide (k ∈ ancestors name)); reflexivity.
Qed.

(** X14. In any state reached from the empty registry, a sampling event of a
    point or of a cross that takes the coverage of the object from [c] to
    [c'] adds [c' - c] to the [_coverage] attribute of each of its
    ancestors, and changes the [_coverage] attribute of no other object. *)
Theorem sampling_updates_every_ancestor (ops : list op) (name : string)
    (v : pyval) (c : Z) :
  let s := run_ops ops empty_state in
  (exists rel w al inj hits, body_of s name = Some (Point rel w al inj hits)) \/
  (exists w al items hits, body_of s name = Some (Cross w al items hits)) ->
  coverage_of s name = Ret c ->
  let s' := exec (sample name v) s in
  exists c',
    coverage_of s' name = Ret c' /\
    forall k,
      coverage_attr s' k
      = (fun x => if bool_decide (k ∈ ancestors name) then x + (c' - c) else x)
          <$> coverage_attr s k.
Proof.
  intros s Hclass Hc s'.
  pose proof (tree_wf _ (reachable_Tree ops)) as Hwf. fold s in Hwf.
  unfold coverage_of, coverage_attr in *. unfold body_of in Hclass.
  destruct (coverage_db s !! name) as [n|] eqn:Hn.
  2:{ destruct Hclass as [(?&?&?&?&?&H)|(?&?&?&?&H)]; discriminate. }
  destruct Hclass as [(rel & w & al & inj & hits & Hb)|(w & al & items & hits & Hb)];
    cbn in Hb; injection Hb as Hb.
  - destruct (CoverPoint_sample_db s name n rel w al inj hits v Hwf Hn Hb)
      as (hits' & nh & Hdb).
    unfold coverage in Hc. rewrite Hb in Hc. injection Hc as <-.
    exists (weighted_coverage (_size n) w al hits').
    unfold s'. rewrite Hdb.
    apply (propagated_coverage (coverage_db s) name n); [exact Hn|reflexivity..].
  - destruct (CoverCross_sample_db s name n w al items hits v Hwf Hn Hb)
      as [Hdb|(hits' & Hdb)].
    + exists c. unfold s'. rewrite Hdb, Hn. split; [exact Hc|].
      intros k. destruct (coverage_db s !! k) as [m|]; [|reflexivity]. cbn.
      f_equal. destruct (bool_decide (k ∈ ancestors name)); lia.
    + unfold coverage in Hc. rewrite Hb in Hc. injection Hc as <-.
      exists (weighted_coverage (_size n) w al hits').
      unfold s'. rewrite Hdb.
      apply (propagated_coverage (coverage_db s) name n); [exact Hn|reflexivity..].
Qed.

Lemma sampling_updates_every_ancestor_witness :
  let s := TreeExample.reached in
  let s' := exec (sample "top.g.p" (PInt 1)) s in
  coverage_of s "top.g.p" = Ret (-1) /\
  exists c',
    coverage_of s' "top.g.p" = Ret c' /\
    forall k,
      coverage_attr s' k
      = (fun x => if bool_decide (k ∈ ancestors "top.g.p") then x + (c' - -1) else x)
          <$> coverage_attr s k.
Proof.
  cbn zeta. unfold TreeExample.reached.
  assert (Hc : coverage_of (run_ops TreeExample.ops empty_state) "top.g.p" = Ret (-1))
    by (vm_compute; reflexivity).
  split; [exact Hc|].
  apply (sampling_updates_every_ancestor TreeExample.ops "top.g.p" (PInt 1) (-1));
    [|exact Hc].
  left. exists py_eqb, 2, 1, false, [(PInt 1, 0); (PInt 2, 1)].
  vm_compute. reflexivity.
Defined.

(** ** Sampling a cross *)







(** ** The rule of a check *)

(** X16. A sampling event of a check adds one to exactly one of its two
    counts: to [PASS] when the failure test is false and the pass test
    (always true when none was given) is true, to [FAIL] in every other
    case, also when both tests are false; afterwards its coverage is its
    weight when [FAIL] is 0 and [PASS] is more than [at_least], and 0
    otherwise. *)
Theorem CoverCheck_sampling_rule (s : state) (name : string) (w al : Z)
    (fp0 : option (pyval -> bool)) (ff : pyval -> bool) (p f : Z) (v : pyval) :
  body_of s name = Some (Check w al fp0 ff [(PASS, p); (FAIL, f)]) ->
  let fp := match fp0 with Some g => g | None => fun _ => true end in
  let passed := negb (ff v) && fp v in
  let p' := if passed then p + 1 else p in
  let f' := if passed then f else f + 1 in
  let s' := exec (sample name v) s in
  hit_count s' name PASS = Ret p' /\
  hit_count s' name FAIL = Ret f' /\
  coverage_of s' name = Ret (if (f' =? 0) && (p' >? al) then w else 0).
Proof.
  intros Hb fp passed p' f' s'.
  pose proof (CoverCheck_sample_counts s name w al fp0 ff p f v Hb) as Hs.
  cbv zeta in Hs. fold fp in Hs.
  assert (Ht : truthy (check_passed fp ff v) = passed).
  { unfold check_passed, passed. destruct (ff v), (fp v); reflexivity. }
  rewrite Ht in Hs.
  assert (Hs' : body_of s' name
                = Some (Check w al (Some fp) ff [(PASS, p'); (FAIL, f')])).
  { unfold s', p', f'. rewrite Hs. destruct passed; reflexivity. }
  destruct (check_observed s' name w al (Some fp) ff p' f' Hs') as (Hc & Hp & Hf).
  split; [exact Hp|]. split; [exact Hf|].
  rewrite Hc. destruct (f' =? 0); reflexivity.
Qed.

Lemma CoverCheck_sampling_rule_witness :
  let s := CheckExample.after 2 [PInt 3; PInt 4] in
  let s' := exec (sample "top.check" (PInt 7)) s in
  hit_count s' "top.check" PASS = Ret 2 /\
  hit_count s' "top.check" FAIL = Ret 1 /\
  coverage_of s "top.check" = Ret 2 /\
  coverage_of s' "top.check" = Ret 0.
Proof.
  cbn zeta.
  assert (Hb : body_of (CheckExample.after 2 [PInt 3; PInt 4]) "top.check"
               = Some (Check 2 1 (Some below_five) is_zero [(PASS, 2); (FAIL, 0)]))
    by (vm_compute; reflexivity).
  destruct (CoverCheck_sampling_rule _ "top.check" 2 1 (Some below_five) is_zero
              2 0 (PInt 7) Hb) as (H1 & H2 & H3).
  split; [exact H1|]. split; [exact H2|].
  split; [vm_compute; reflexivity|exact H3].
Defined.

(** ** The callbacks of the bins *)

Lemma fired_bind {A B} (m : M A) (k : A -> M B) (s : state) :
  (exists l, fired (exec m s) = fired s ++ l) ->
  (forall a s1, exists l, fired (exec (k a) s1) = fired s1 ++ l) ->
  exists l, fired (exec (bind m k) s) = fired s ++ l.
Proof.
  unfold exec, bind. intros [l Hl] Hk.
  destruct (m s) as [[a|e] s1]; cbn [snd] in *.
  - destruct (Hk a s1) as [l' Hl']. unfold exec in Hl'.
    exists (l ++ l'). rewrite Hl', Hl, app_assoc. reflexivity.
  - eauto.
Qed.

Lemma fired_modify_node (name : string) (f : node -> node) (s : state) :
  exists l, fired (exec (modify_node name f) s) = fired s ++ l.
Proof.
  exists []. rewrite app_nil_r. unfold exec.
  destruct (coverage_db s !! name) as [n|] eqn:Hn.
  - rewrite (modify_node_Some _ _ _ _ Hn). reflexivity.
  - rewrite (modify_node_None _ _ _ Hn). reflexivity.
Qed.

Lemma fired_lookup_node (name : string) (s : state) :
  exists l, fired (exec (lookup_node name) s) = fired s ++ l.
Proof.
  exists []. rewrite app_nil_r. unfold exec.
  destruct (coverage_db s !! name) as [n|] eqn:Hn.
  - rewrite (lookup_node_Some _ _ _ Hn). reflexivity.
  - rewrite (lookup_node_None _ _ Hn). reflexivity.
Qed.

Lemma fired_notify (cbs : list (Z * callback)) (cur sz : Z) (now : outcome Q) :
  forall s, exists l,
    fired (exec (notify_thresholds cbs cur sz now) s) = fired s ++ l.
Proof.
  induction cbs as [|[t cb] cbs IH]; intros s; cbn [notify_thresholds].
  - exists []. rewrite app_nil_r. reflexivity.
  - apply fired_bind; [exists []; rewrite app_nil_r; reflexivity|].
    intros before s1. apply fired_bind; [|intros _ s2; apply IH].
    destruct (Qlt_bool before (inject_Z t)).
    + apply fired_bind; [exists []; rewrite app_nil_r; reflexivity|].
      intros after s2. destruct (Qle_bool (inject_Z t) after).
      * exists [cb]. reflexivity.
      * exists []. rewrite app_nil_r. reflexivity.
    + exists []. rewrite app_nil_r. reflexivity.
Qed.

Lemma fired_update_coverage (fuel : nat) :
  forall (p : string) (delta : Z) (s : state),
    exists l, fired (exec (_update_coverage fuel p delta) s) = fired s ++ l.
Proof.
  induction fuel as [|fuel IH]; intros p delta s; cbn [_update_coverage];
    (apply fired_bind; [apply fired_lookup_node|]); intros n s1;
    (apply fired_bind; [apply fired_modify_node|]); intros _ s2;
    (apply fired_bind;
     [|intros _ s3; apply fired_bind; [apply fired_lookup_node|];
       intros n' s4; apply fired_notify]);
    destruct (_parent n);
    first [apply IH | exists []; rewrite app_nil_r; reflexivity].
Qed.

(** X17. A sampling event of a point first calls the callbacks registered on
    the bins it hits, in the order of [new_hits], and this at every event
    that hits the bin, whether or not the bin was covered before; the
    threshold callbacks come after them. *)
Theorem bins_callbacks_called_at_every_hit (s : state) (name : string) (n : node)
    (rel : pyval -> pyval -> bool) (w al : Z) (inj : bool) (hits : hits_dict)
    (v : pyval) :
  coverage_db s !! name = Some n ->
  _body n = Point rel w al inj hits ->
  let s' := exec (sample name v) s in
  exists hit later,
    new_hits_of s' name = Some hit /\
    fired s' = fired s ++ omap (dget py_eqb (_bins_callbacks n)) hit ++ later.
Proof.
  intros Hn Hb s'.
  pose proof (CoverPoint_sample_body s name n rel w al inj hits v Hn Hb) as Hbody.
  cbv zeta in Hbody.
  set (hit := if inj then List.filter (rel v) (dkeys hits)
              else firstn 1 (List.filter (rel v) (dkeys hits))) in *.
  exists hit.
  assert (Hnh : new_hits_of s' name = Some hit).
  { unfold new_hits_of, s'. unfold attr_of in Hbody.
    destruct (coverage_db (exec (sample name v) s) !! name) as [n'|]; [|discriminate].
    cbn in Hbody. injection Hbody as _ Hh. cbn. rewrite Hh. reflexivity. }
  enough (Hlog : exists later,
             fired s' = fired s ++ omap (dget py_eqb (_bins_callbacks n)) hit ++ later).
  { destruct Hlog as [later Hlog]. exists later. split; assumption. }
  unfold s', sample.
  rewrite (exec_bind_Ret _ _ _ _ _ (lookup_node_Some _ _ _ Hn)). rewrite Hb.
  unfold CoverPoint_sample.
  rewrite (exec_bind_Ret _ _ _ _ _ (lookup_node_Some _ _ _ Hn)). rewrite Hb.
  assert (Hcur : forall st, lift (coverage n) st
            = (Ret (weighted_coverage (_size n) w al hits), st)).
  { intros st. unfold lift, coverage. rewrite Hb. reflexivity. }
  rewrite (exec_bind_Ret _ _ _ _ _ (Hcur _)).
  rewrite match_bins_spec. cbn zeta. fold hit. cbn [app].
  rewrite (exec_bind_Ret _ _ _ _ _ (modify_node_Some _ _ _ _ Hn)).
  rewrite (exec_bind_Ret _ _ _ _ _ (call_all_run _ _)).
  cbn [coverage_db fired].
  match goal with
  | |- exists later, fired (exec ?m ?s2) = _ =>
      assert (Hm : exists l, fired (exec m s2) = fired s2 ++ l)
  end.
  { apply fired_bind; [apply fired_lookup_node|]. intros self' s1.
    apply fired_bind; [exists []; rewrite app_nil_r; reflexivity|]. intros now s2.
    apply fired_bind; [|intros _ s3; apply fired_notify].
    unfold parent_update_coverage. destruct (_parent self').
    - apply fired_update_coverage.
    - exists []. rewrite app_nil_r. reflexivity. }
  destruct Hm as [l Hl]. exists l. rewrite Hl. cbn [fired].
  rewrite app_assoc. reflexivity.
Qed.

Lemma bins_callbacks_called_at_every_hit_witness :
  let s := exec (add_bins_callback "top.p" 5%nat (PInt 2)) (PointExample.after []) in
  let s1 := exec (sample "top.p" (PInt 2)) s in
  let s2 := exec (sample "top.p" (PInt 2)) s1 in
  fired s = [] /\ fired s1 = [5%nat] /\ fired s2 = [5%nat; 5%nat] /\
  exists hit later,
    new_hits_of s2 "top.p" = Some hit /\
    fired s2 = fired s1 ++ omap (dget py_eqb [(PInt 2, 5%nat)]) hit ++ later.
Proof.
  cbn zeta. split; [vm_compute; reflexivity|]. split; [vm_compute; reflexivity|].
  split; [vm_compute; reflexivity|].
  assert (Hn : coverage_db
                 (exec (sample "top.p" (PInt 2))
                    (exec (add_bins_callback "top.p" 5%nat (PInt 2))
                       (PointExample.after []))) !! "top.p"
               = Some (mkNode "top.p" 4 0 (Some "top") [] [PInt 2]
                         [(50, 7%nat)] [(PInt 2, 5%nat)]
                         (Point py_eqb 1 1 false
                            [(PInt 1, 0); (PInt 2, 1); (PInt 3, 0); (PInt 4, 0)])))
    by (vm_compute; reflexivity).
  exact (bins_callbacks_called_at_every_hit _ "top.p" _ py_eqb 1 1 false _ (PInt 2)
           Hn eq_refl).
Defined.

(** ** The bins of a new cross *)

Lemma py_eqb_sym : forall a b : pyval, py_eqb a b = py_eqb b a.
Proof.
  fix IH 1. intros [ | x | x | x | l] [ | y | y | y | l']; simpl; try reflexivity.
  - destruct x, y; reflexivity.
  - apply Z.eqb_sym.
  - apply Z.eqb_sym.
  - apply Z.eqb_sym.
  - apply String.eqb_sym.
  - revert l'. induction l as [|a l IHl]; intros [|b l']; try reflexivity.
    rewrite IH, IHl. reflexivity.
Qed.




Section IgnoreLoop.
Variable ign : list (list pyval).



End IgnoreLoop.






(** ** Registering callbacks *)

Lemma dset_dset {K V} (eqb : K -> K -> bool) (d : list (K * V)) (k : K) (v1 v2 : V) :
  (forall x, eqb x x = true) ->
  dset eqb (dset eqb d k v1) k v2 = dset eqb d k v2.
Proof.
  intros Hrefl. induction d as [|[k' v'] d IH]; cbn [dset].
  - rewrite Hrefl. reflexivity.
  - destruct (eqb k' k) eqn:E; cbn [dset]; rewrite E; [reflexivity|].
    rewrite IH. reflexivity.
Qed.

Lemma add_threshold_callback_run (name : string) (cb : callback) (t : Z)
    (s : state) (n : node) :
  coverage_db s !! name = Some n ->
  add_threshold_callback name cb t s
  = (Ret tt,
     mkState (<[name := set_threshold_callbacks
                          (dset Z.eqb (_threshold_callbacks n) t cb) n]>
                (coverage_db s)) (fired s)).
Proof.
  intros Hn. unfold add_threshold_callback.
  rewrite (bind_Ret _ _ _ _ _ (lookup_node_Some _ _ _ Hn)).
  apply modify_node_Some, Hn.
Qed.

Lemma add_bins_callback_run (name : string) (cb : callback) (bins : pyval)
    (s : state) (n : node) :
  coverage_db s !! name = Some n ->
  add_bins_callback name cb bins s
  = (Ret tt,
     mkState (<[name := set_bins_callbacks
                          (dset py_eqb (_bins_callbacks n) bins cb) n]>
                (coverage_db s)) (fired s)).
Proof.
  intros Hn. unfold add_bins_callback.
  rewrite (bind_Ret _ _ _ _ _ (lookup_node_Some _ _ _ Hn)).
  apply modify_node_Some, Hn.
Qed.

Lemma dget_dset_same {K V} (eqb : K -> K -> bool) (d : list (K * V)) (k : K) (v : V) :
  (forall x, eqb x x = true) -> dget eqb (dset eqb d k v) k = Some v.
Proof.
  intros Hrefl. induction d as [|[k' v'] d IH]; cbn [dset dget].
  - rewrite Hrefl. reflexivity.
  - destruct (eqb k' k) eqn:E; cbn [dget]; rewrite E; [reflexivity|exact IH].
Qed.

Lemma dget_dset_other {K V} (eqb : K -> K -> bool) (d : list (K * V)) (k t : K)
    (v : V) :
  (forall x, eqb x x = true) ->
  (forall x, eqb x k = true -> eqb x t = false) ->
  dget eqb (dset eqb d k v) t = dget eqb d t.
Proof.
  intros Hrefl Hne. induction d as [|[k' v'] d IH]; cbn [dset dget].
  - rewrite (Hne k (Hrefl k)). reflexivity.
  - destruct (eqb k' k) eqn:E; cbn [dget].
    + rewrite (Hne k' E). reflexivity.
    + destruct (eqb k' t); [reflexivity|exact IH].
Qed.

(** Python's [==] is transitive on these values. *)
Lemma py_eqb_trans : forall a b c : pyval,
  py_eqb a b = true -> py_eqb b c = true -> py_eqb a c = true.
Proof.
  fix IH 1.
  intros [ | x | x | x | l] [ | y | y | y | l'] [ | z | z | z | l''];
    cbn [py_eqb]; try discriminate; try reflexivity.
  1-9: rewrite ?Z.eqb_eq, ?String.eqb_eq, ?Bool.eqb_true_iff; intros H1 H2;
    subst;
    repeat match goal with b : bool |- _ => destruct b end;
    cbn in *; congruence.
  - revert l' l''. induction l as [|a l IHl]; intros [|b l'] [|c l''];
      try discriminate; try reflexivity.
    rewrite !andb_true_iff. intros [H1 H2] [H3 H4].
    split; [exact (IH a b c H1 H3)|exact (IHl l' l'' H2 H4)].
Qed.

(** X19. A threshold, and likewise a bin, holds one callback, the one
    registered last.  On a registered object, registering [cb1] and then
    [cb2] on the same threshold returns both times and leaves the state
    that registering [cb2] alone leaves: no callback is called, no other
    object changes, and in the object only the table of callbacks does,
    where the threshold now reads [cb2] and every other threshold reads as
    before; the same holds for a bin, other bins being those that are
    different for [==].  On a name that is not registered, each registration
    raises [KeyError] and changes nothing. *)
Theorem callback_registered_last_wins (s : state) (name : string)
    (cb1 cb2 : callback) (threshold : Z) (bins : pyval) :
  let st := exec (add_threshold_callback name cb1 threshold) s in
  let st' := exec (add_threshold_callback name cb2 threshold) st in
  let sb := exec (add_bins_callback name cb1 bins) s in
  let sb' := exec (add_bins_callback name cb2 bins) sb in
  match coverage_db s !! name with
  | Some n =>
      (result (add_threshold_callback name cb1 threshold) s = Ret tt /\
       result (add_threshold_callback name cb2 threshold) st = Ret tt /\
       st' = exec (add_threshold_callback name cb2 threshold) s /\
       fired st' = fired s /\
       (forall k, k <> name -> coverage_db st' !! k = coverage_db s !! k) /\
       exists table,
         coverage_db st' !! name = Some (set_threshold_callbacks table n) /\
         dget Z.eqb table threshold = Some cb2 /\
         forall t, t <> threshold ->
           dget Z.eqb table t = dget Z.eqb (_threshold_callbacks n) t) /\
      (result (add_bins_callback name cb1 bins) s = Ret tt /\
       result (add_bins_callback name cb2 bins) sb = Ret tt /\
       sb' = exec (add_bins_callback name cb2 bins) s /\
       fired sb' = fired s /\
       (forall k, k <> name -> coverage_db sb' !! k = coverage_db s !! k) /\
       exists table,
         coverage_db sb' !! name = Some (set_bins_callbacks table n) /\
         dget py_eqb table bins = Some cb2 /\
         forall b, py_eqb bins b = false ->
           dget py_eqb table b = dget py_eqb (_bins_callbacks n) b)
  | None =>
      result (add_threshold_callback name cb1 threshold) s = Raise KeyError /\
      result (add_threshold_callback name cb2 threshold) st = Raise KeyError /\
      st' = s /\
      result (add_bins_callback name cb1 bins) s = Raise KeyError /\
      result (add_bins_callback name cb2 bins) sb = Raise KeyError /\
      sb' = s
  end.
Proof.
  intros st st' sb sb'.
  destruct (coverage_db s !! name) as [n|] eqn:Hn.
  - assert (Ht1 := add_threshold_callback_run name cb1 threshold s n Hn).
    assert (Hb1 := add_bins_callback_run name cb1 bins s n Hn).
    assert (Hst : st = mkState (<[name := set_threshold_callbacks
                       (dset Z.eqb (_threshold_callbacks n) threshold cb1) n]>
                       (coverage_db s)) (fired s))
      by (unfold st, exec; rewrite Ht1; reflexivity).
    assert (Hsb : sb = mkState (<[name := set_bins_callbacks
                       (dset py_eqb (_bins_callbacks n) bins cb1) n]>
                       (coverage_db s)) (fired s))
      by (unfold sb, exec; rewrite Hb1; reflexivity).
    assert (Ht2 := add_threshold_callback_run name cb2 threshold st _
                     ltac:(rewrite Hst; cbn [coverage_db]; apply lookup_insert_eq)).
    assert (Hb2 := add_bins_callback_run name cb2 bins sb _
                     ltac:(rewrite Hsb; cbn [coverage_db]; apply lookup_insert_eq)).
    assert (Hst' : st' = mkState (<[name := set_threshold_callbacks
                       (dset Z.eqb (_threshold_callbacks n) threshold cb2) n]>
                       (coverage_db s)) (fired s)).
    { unfold st', exec. rewrite Ht2, Hst.
      cbn [snd coverage_db fired set_threshold_callbacks _threshold_callbacks].
      rewrite insert_insert_eq, (dset_dset _ _ _ _ _ Z.eqb_refl). reflexivity. }
    assert (Hsb' : sb' = mkState (<[name := set_bins_callbacks
                       (dset py_eqb (_bins_callbacks n) bins cb2) n]>
                       (coverage_db s)) (fired s)).
    { unfold sb', exec. rewrite Hb2, Hsb.
      cbn [snd coverage_db fired set_bins_callbacks _bins_callbacks].
      rewrite insert_insert_eq, (dset_dset _ _ _ _ _ py_eqb_refl). reflexivity. }
    split.
    + split; [unfold result; rewrite Ht1; reflexivity|].
      split; [unfold result; rewrite Ht2; reflexivity|].
      split.
      { rewrite Hst'. unfold exec.
        rewrite (add_threshold_callback_run name cb2 threshold s n Hn). reflexivity. }
      rewrite Hst'. cbn [coverage_db fired].
      split; [reflexivity|].
      split; [intros k Hk; apply lookup_insert_ne; congruence|].
      eexists. split; [apply lookup_insert_eq|].
      split; [apply dget_dset_same, Z.eqb_refl|].
      intros t Ht. apply dget_dset_other; [apply Z.eqb_refl|].
      intros x Hx. apply Z.eqb_eq in Hx. subst x. apply Z.eqb_neq. congruence.
    + split; [unfold result; rewrite Hb1; reflexivity|].
      split; [unfold result; rewrite Hb2; reflexivity|].
      split.
      { rewrite Hsb'. unfold exec.
        rewrite (add_bins_callback_run name cb2 bins s n Hn). reflexivity. }
      rewrite Hsb'. cbn [coverage_db fired].
      split; [reflexivity|].
      split; [intros k Hk; apply lookup_insert_ne; congruence|].
      eexists. split; [apply lookup_insert_eq|].
      split; [apply dget_dset_same, py_eqb_refl|].
      intros b Hb. apply dget_dset_other; [apply py_eqb_refl|].
      intros x Hx. destruct (py_eqb x b) eqn:E; [|reflexivity].
      rewrite py_eqb_sym in Hx. rewrite (py_eqb_trans _ _ _ Hx E) in Hb.
      discriminate.
  - assert (H1 : forall cb s0, coverage_db s0 !! name = None ->
                 add_threshold_callback name cb threshold s0 = (Raise KeyError, s0)).
    { intros cb s0 H0. unfold add_threshold_callback.
      apply (bind_Raise _ _ _ _ _ (lookup_node_None _ _ H0)). }
    assert (H2 : forall cb s0, coverage_db s0 !! name = None ->
                 add_bins_callback name cb bins s0 = (Raise KeyError, s0)).
    { intros cb s0 H0. unfold add_bins_callback.
      apply (bind_Raise _ _ _ _ _ (lookup_node_None _ _ H0)). }
    assert (Hst : st = s) by (unfold st, exec; rewrite (H1 cb1 s Hn); reflexivity).
    assert (Hsb : sb = s) by (unfold sb, exec; rewrite (H2 cb1 s Hn); reflexivity).
    unfold st', sb'. rewrite Hst, Hsb. unfold result, exec.
    rewrite (H1 cb1 s Hn), (H1 cb2 s Hn), (H2 cb1 s Hn), (H2 cb2 s Hn).
    repeat split.
Qed.

(** ** A cross emptied by its ignore patterns *)

(** The object left by the constructor of a cross one of whose ignore
    patterns is made of [None] only. *)
Lemma wildcard_cross_registered (s : state) (name : string)
    (items : list string) (ign_bins : list (list pyval)) (pat : list pyval)
    (weight at_least : Z) :
  coverage_db s !! name = None ->
  In pat ign_bins -> forallb is_None pat = true ->
  result (CoverCross name items ign_bins weight at_least) s = Ret name ->
  exists n,
    coverage_db (exec (CoverCross name items ign_bins weight at_least) s) !! name
    = Some n /\
    _body n = Cross weight at_least items [] /\ _size n = 0.
Proof.
  intros Hnew Hin Hall. unfold result, exec.
  destruct (CoverCross name items ign_bins weight at_least s) as [o s'] eqn:Hrun.
  cbn [fst snd]. intros ->. revert Hrun. unfold CoverCross.
  rewrite (bind_Ret _ _ _ _ _ (get_db_run s)), Hnew.
  unfold CoverCross_init, bind at 1.
  rewrite (bind_Ret _ _ _ _ _ (get_db_run s)), Hnew.
  unfold bind at 1.
  destruct (CoverItem_init _ _ _ s) as [[[]|e] s1]; [|discriminate].
  unfold bind at 1, lookup_node at 1.
  rewrite (bind_Ret _ _ _ _ _ (get_db_run s1)).
  destruct (coverage_db s1 !! name) as [self|] eqn:Hself; [|discriminate].
  cbn [ret]. destruct (_parent self) as [p|] eqn:Hp; [|discriminate].
  rewrite (bind_Ret _ _ _ _ _ (get_db_run s1)).
  unfold bind at 1, lift at 1.
  destruct (bins_lists (coverage_db s1) items) as [ls|e]; [|discriminate].
  destruct (ignore_loop ign_bins _ _) as [hits' stopped] eqn:Hloop.
  rewrite (bind_Ret _ _ _ _ _ (modify_node_Some _ _ _ _ Hself)).
  destruct stopped as [e|]; [discriminate|].
  apply (ignore_loop_wildcards _ _ Hin Hall) in Hloop; [|reflexivity].
  subst hits'. cbn [length Z.of_nat]. rewrite Z.mul_0_r.
  erewrite bind_Ret by (apply modify_node_Some; apply lookup_insert_eq).
  unfold parent_update_size. rewrite Hp.
  match goal with
  | |- context [_update_size ?f ?q 0 ?st] =>
      destruct (update_size_0 f q st) as [o ->]
  end.
  destruct o as [[]|e]; [|discriminate].
  intros [= <-]. cbn [coverage_db]. rewrite lookup_insert_eq.
  eexists. split; [reflexivity|]. split; reflexivity.
Qed.

Lemma size_in_bump_other (db : gmap string node) (names : list string)
    (k : string) (sz : Z) :
  NoDup names -> k ∉ names ->
  size_in (bump (add_size sz) names db) k = size_in db k.
Proof.
  intros Hnd Hk. unfold size_in. rewrite lookup_bump by exact Hnd.
  rewrite bool_decide_eq_false_2 by exact Hk.
  destruct (db !! k); reflexivity.
Qed.

(** The constructor of a cross changes the size of its ancestors only. *)
Lemma CoverCross_init_size (name : string) (items : list string)
    (ign_bins : list (list pyval)) (weight at_least : Z) (s : state) (k : string) :
  Tree (coverage_db s) -> is_Some (coverage_db s !! k) -> k ∉ ancestors name ->
  size_in (coverage_db (exec (CoverCross_init name items ign_bins weight at_least) s)) k
  = size_in (coverage_db s) k.
Proof.
  intros HT Hk Hanc. unfold CoverCross_init.
  rewrite (exec_bind_Ret _ _ _ _ _ (get_db_run s)).
  destruct (coverage_db s !! name) as [n0|] eqn:Hnew; [reflexivity|].
  assert (Hne : name <> k) by (intros ->; destruct Hk; congruence).
  destruct (primitive_in_tree CrossC name s HT Hnew)
    as (db1 & Hrun & HT1 & Hname & _ & _ & Hsz).
  rewrite (exec_bind_Ret _ _ _ _ _ Hrun).
  rewrite (exec_bind_Ret _ _ _ _ _
             (lookup_node_Some name (mkState db1 (fired s)) _ Hname)).
  cbn [_parent fresh_node].
  destruct (contains_dot name) eqn:Hdot; [|apply Hsz].
  set (self := fresh_node name (Some (parent_name name)) (Partial CrossC)) in *.
  rewrite (exec_bind_Ret _ _ _ _ _ (get_db_run (mkState db1 (fired s)))).
  cbn [coverage_db].
  destruct (bins_lists db1 items) as [ls|e] eqn:Hls.
  2:{ assert (Hl : lift (@Raise (list (list pyval)) e) (mkState db1 (fired s))
                   = (Raise e, mkState db1 (fired s))) by reflexivity.
      rewrite (exec_bind_Raise _ _ _ _ _ Hl). apply Hsz. }
  assert (Hl : lift (Ret ls) (mkState db1 (fired s))
               = (Ret ls, mkState db1 (fired s))) by reflexivity.
  rewrite (exec_bind_Ret _ _ _ _ _ Hl). cbv zeta.
  destruct (ignore_loop ign_bins _ _) as [hits' stopped].
  rewrite (exec_bind_Ret _ _ _ _ _
             (modify_node_Some _ _ (mkState db1 (fired s)) _ Hname)).
  cbn [coverage_db fired].
  destruct stopped as [e|].
  { cbn. rewrite size_in_insert_ne by exact Hne. apply Hsz. }
  erewrite exec_bind_Ret
    by (apply modify_node_Some; cbn [coverage_db]; apply lookup_insert_eq).
  cbn [coverage_db fired]. rewrite insert_insert_eq.
  match goal with
  | |- context [<[name := ?n']> db1] =>
      destruct (leaf_in_tree db1 (fired s) name self n'
                  (weight * Z.of_nat (length hits')) HT1 Hname Hdot)
        as (Hrun3 & _ & _); try reflexivity; [discriminate|]
  end.
  unfold exec. rewrite Hrun3. cbn [snd coverage_db].
  rewrite size_in_bump_other by (apply NoDup_ancestors || exact Hanc).
  rewrite size_in_insert_ne by exact Hne. apply Hsz.
Qed.

(** An operation changes the size of a registered object only when it
    constructs an object below it. *)
Lemma run_op_size_in (o : op) (s : state) (k : string) :
  Tree (coverage_db s) -> is_Some (coverage_db s !! k) ->
  (forall k', constructs o k' -> k ∉ ancestors k') ->
  size_in (coverage_db (exec (run_op o) s)) k = size_in (coverage_db s) k.
Proof.
  intros HT Hk Hbelow.
  destruct o as [name rel bins w al inj|name items ign w al|name ff fp w al
                |name cb th|name cb bins|name v].
  - specialize (Hbelow name eq_refl).
    cbn [run_op]. rewrite exec_then_ret. unfold CoverPoint.
    rewrite (exec_bind_Ret _ _ _ _ _ (get_db_run s)).
    destruct (coverage_db s !! name) eqn:Hnew; [reflexivity|].
    rewrite exec_then_ret.
    assert (Hne : name <> k) by (intros ->; destruct Hk; congruence).
    destruct (contains_dot name) eqn:Hdot.
    + destruct (CoverPoint_init_fresh name rel bins w al inj s HT Hnew Hdot)
        as (db1 & db3 & Hrun & -> & _ & _ & _ & _ & Hsz).
      unfold exec. rewrite Hrun. cbn [snd coverage_db].
      rewrite size_in_bump_other by (apply NoDup_ancestors || exact Hbelow).
      rewrite size_in_insert_ne by exact Hne. apply Hsz.
    + destruct (primitive_in_tree PointC name s HT Hnew)
        as (db1 & Hrun & _ & Hname & _ & _ & Hsz).
      rewrite Hdot in Hname. unfold CoverPoint_init.
      rewrite (exec_bind_Ret _ _ _ _ _ (get_db_run s)), Hnew.
      rewrite (exec_bind_Ret _ _ _ _ _ Hrun).
      rewrite (exec_bind_Ret _ _ _ _ _
                 (lookup_node_Some name (mkState db1 (fired s)) _ Hname)).
      apply Hsz.
  - specialize (Hbelow name eq_refl).
    cbn [run_op]. rewrite exec_then_ret. unfold CoverCross.
    rewrite (exec_bind_Ret _ _ _ _ _ (get_db_run s)).
    destruct (coverage_db s !! name) eqn:Hnew; [reflexivity|].
    rewrite exec_then_ret. apply CoverCross_init_size; assumption.
  - specialize (Hbelow name eq_refl).
    cbn [run_op]. rewrite exec_then_ret. unfold CoverCheck.
    rewrite (exec_bind_Ret _ _ _ _ _ (get_db_run s)).
    destruct (coverage_db s !! name) eqn:Hnew; [reflexivity|].
    rewrite exec_then_ret.
    assert (Hne : name <> k) by (intros ->; destruct Hk; congruence).
    destruct (contains_dot name) eqn:Hdot.
    + destruct (CoverCheck_init_fresh name ff fp w al s HT Hnew Hdot)
        as (db1 & db3 & Hrun & -> & _ & _ & _ & _ & Hsz).
      unfold exec. rewrite Hrun. cbn [snd coverage_db].
      rewrite size_in_bump_other by (apply NoDup_ancestors || exact Hbelow).
      rewrite size_in_insert_ne by exact Hne. apply Hsz.
    + destruct (primitive_in_tree CheckC name s HT Hnew)
        as (db1 & Hrun & _ & Hname & _ & _ & Hsz).
      rewrite Hdot in Hname. unfold CoverCheck_init.
      rewrite (exec_bind_Ret _ _ _ _ _ (get_db_run s)), Hnew.
      rewrite (exec_bind_Ret _ _ _ _ _ Hrun).
      rewrite (exec_bind_Ret _ _ _ _ _
                 (lookup_node_Some name (mkState db1 (fired s)) _ Hname)).
      apply Hsz.
  - apply shape_size_in. apply (steady_add_threshold_callback name cb th s k).
  - apply shape_size_in. apply (steady_add_bins_callback name cb bins s k).
  - apply shape_size_in. apply (steady_sample name v s k).
Qed.

(** A cross without bins and of size 0 stays so, and reading its
    [cover_percentage] raises, as long as no object is constructed below
    it. *)
Lemma empty_cross_stays (later : list op) :
  forall (s : state) (name : string) (n : node) (w al : Z) (items : list string),
    Tree (coverage_db s) ->
    coverage_db s !! name = Some n ->
    _body n = Cross w al items [] -> _size n = 0 ->
    Forall (fun o => forall k, constructs o k -> name ∉ ancestors k) later ->
    exists n',
      coverage_db (run_ops later s) !! name = Some n' /\
      _body n' = Cross w al items [] /\ _size n' = 0.
Proof.
  induction later as [|o later IH]; intros s name n w al items HT Hn Hb Hs Hlater.
  - exists n. auto.
  - apply Forall_cons in Hlater as [Ho Hlater]. cbn [run_ops fold_left].
    destruct (run_op_body_le o s name (_body n)) as (b' & Hb' & Hle).
    { unfold body_of. rewrite Hn. reflexivity. }
    unfold body_of in Hb'.
    destruct (coverage_db (exec (run_op o) s) !! name) as [n1|] eqn:Hn1;
      [|discriminate].
    cbn in Hb'. injection Hb' as Hb'.
    pose proof (run_op_size_in o s name HT ltac:(eauto) Ho) as Hsz.
    unfold size_in in Hsz. rewrite Hn1, Hn, Hs in Hsz.
    apply (IH _ name n1 w al items); try assumption.
    + apply run_op_Tree, HT.
    + rewrite Hb in Hle. rewrite Hb'.
      destruct b' as [ |c|r w' al' i h|w' al' items' h|w' al' fp ff h];
        cbn in Hle; try contradiction.
      destruct Hle as (-> & -> & -> & Hh). inversion Hh. reflexivity.
Qed.

(** C10, as amended: when one of the ignore patterns of a [CoverCross] is
    made of [None] only and the constructor returns, no cross-bin is left:
    the object has no bin and size 0, and reading its [cover_percentage]
    raises [ZeroDivisionError].  This remains so after any operations that
    construct no object below the cross, in any run from the empty
    registry. *)
Theorem C10_wildcard_pattern_empties_cross (before later : list op)
    (name : string) (items : list string) (ign_bins : list (list pyval))
    (pat : list pyval) (weight at_least : Z) :
  coverage_db (run_ops before empty_state) !! name = None ->
  In pat ign_bins -> forallb is_None pat = true ->
  result (CoverCross name items ign_bins weight at_least)
         (run_ops before empty_state) = Ret name ->
  Forall (fun o => forall k, constructs o k -> name ∉ ancestors k) later ->
  let s' := run_ops later
              (exec (CoverCross name items ign_bins weight at_least)
                    (run_ops before empty_state)) in
  bins_of s' name = Ret [] /\
  size_of s' name = Ret 0 /\
  cover_percentage_of s' name = Raise ZeroDivisionError.
Proof.
  intros Hnew Hin Hall Hret Hlater s'.
  set (s := run_ops before empty_state) in *.
  set (build := CoverCross name items ign_bins weight at_least) in *.
  destruct (wildcard_cross_registered s name items ign_bins pat weight at_least
              Hnew Hin Hall Hret) as (n & Hn & Hb & Hs).
  assert (HT : Tree (coverage_db (exec build s))).
  { pose proof (run_op_Tree (NewCross name items ign_bins weight at_least) s
                  (reachable_Tree before)) as H.
    cbn [run_op] in H. rewrite exec_then_ret in H. exact H. }
  destruct (empty_cross_stays later _ name n weight at_least items HT Hn Hb Hs Hlater)
    as (n' & Hn' & Hb' & Hs').
  fold s' in Hn'.
  unfold bins_of, size_of, cover_percentage_of, detailed_coverage_of.
  rewrite Hn'. unfold detailed_coverage, cover_percentage, coverage, size.
  rewrite Hb', Hs'. repeat split.
Qed.

Lemma C10_wildcard_pattern_witness :
  let before := [NewPoint "top.a" None [PInt 1; PInt 2] 1 1 false;
                 NewPoint "top.b" None [PInt 1; PInt 2] 1 1 false] in
  let later := [Sample "top.a" (PInt 1); Sample "top.b" (PInt 2);
                Sample "top.x" PNone; AddThreshold "top.x" 1%nat 50;
                NewCheck "top.c" is_zero None 1 1;
                NewCross "top.x" ["top.a"] [] 1 1;
                NewPoint "top.xy.sub" None [PInt 1] 1 1 false] in
  let s := run_ops before empty_state in
  let build := CoverCross "top.x" ["top.a"; "top.b"] [[PNone; PNone]] 1 1 in
  coverage_db s !! "top.x" = None /\
  result build s = Ret "top.x" /\
  Forall (fun o => forall k, constructs o k -> "top.x" ∉ ancestors k) later /\
  bins_of (run_ops later (exec build s)) "top.x" = Ret [] /\
  size_of (run_ops later (exec build s)) "top.x" = Ret 0 /\
  cover_percentage_of (run_ops later (exec build s)) "top.x"
  = Raise ZeroDivisionError.
Proof.
  cbn zeta.
  assert (H1 : coverage_db
                 (run_ops [NewPoint "top.a" None [PInt 1; PInt 2] 1 1 false;
                           NewPoint "top.b" None [PInt 1; PInt 2] 1 1 false]
                    empty_state) !! "top.x" = None) by (vm_compute; reflexivity).
  assert (H2 : result (CoverCross "top.x" ["top.a"; "top.b"] [[PNone; PNone]] 1 1)
                 (run_ops [NewPoint "top.a" None [PInt 1; PInt 2] 1 1 false;
                           NewPoint "top.b" None [PInt 1; PInt 2] 1 1 false]
                    empty_state) = Ret "top.x") by (vm_compute; reflexivity).
  assert (H3 : Forall (fun o => forall k, constructs o k -> "top.x" ∉ ancestors k)
                 [Sample "top.a" (PInt 1); Sample "top.b" (PInt 2);
                  Sample "top.x" PNone; AddThreshold "top.x" 1%nat 50;
                  NewCheck "top.c" is_zero None 1 1;
                  NewCross "top.x" ["top.a"] [] 1 1;
                  NewPoint "top.xy.sub" None [PInt 1] 1 1 false]).
  { repeat constructor; intros k Hk; cbn in Hk; try contradiction; subst k;
      rewrite list_elem_of_In; vm_compute; intuition discriminate. }
  split; [exact H1|]. split; [exact H2|]. split; [exact H3|].
  apply (C10_wildcard_pattern_empties_cross _ _ "top.x" _ _ [PNone; PNone] 1 1 H1);
    [left; reflexivity | reflexivity | exact H2 | exact H3].
Defined.

(** C10 as stated does not hold.
    - A later access need not raise: a point constructed below the emptied
      cross adds its size to the size of the cross, which becomes 1; the
      cross still has no bin, its coverage is 1 and its [cover_percentage]
      is 100.
    - A pattern of [None] only that is shorter than the list of items
      removes nothing: the constructor raises [IndexError] at the first
      cross-bin, the four cross-bins stay and the size stays 0. *)
Lemma C10_wildcard_pattern_counterexample :
  let s := run_ops [NewPoint "top.a" None [PInt 1; PInt 2] 1 1 false;
                    NewPoint "top.b" None [PInt 1; PInt 2] 1 1 false] empty_state in
  let s1 := run_ops [NewCross "top.x" ["top.a"; "top.b"] [[PNone; PNone]] 1 1;
                     NewPoint "top.x.sub" None [PInt 1] 1 1 false] s in
  let short := CoverCross "top.x" ["top.a"; "top.b"] [[PNone]] 1 1 in
  (bins_of s1 "top.x" = Ret [] /\ size_of s1 "top.x" = Ret 1 /\
   coverage_of s1 "top.x" = Ret 1 /\
   exists q, cover_percentage_of s1 "top.x" = Ret q /\ Qeq q (inject_Z 100)) /\
  (forallb is_None [PNone] = true /\
   result short s = Raise IndexError /\
   bins_of (exec short s) "top.x"
   = Ret [PTuple [PInt 1; PInt 1]; PTuple [PInt 1; PInt 2];
          PTuple [PInt 2; PInt 1]; PTuple [PInt 2; PInt 2]] /\
   size_of (exec short s) "top.x" = Ret 0).
Proof.
  cbn zeta. split.
  - split; [vm_compute; reflexivity|]. split; [vm_compute; reflexivity|].
    split; [vm_compute; reflexivity|].
    eexists. split; [vm_compute; reflexivity|]. reflexivity.
  - repeat split; vm_compute; reflexivity.
Qed.
